(** * breadwallet-core: the event handler (BREvent.c) and the Ripple account
      (BRRippleAccount.c), embedded in Rocq.

    The C code is translated function by function.  Structs become records,
    pointers become addresses in [Z] with [NULL = 0], the handler records live
    in a heap ([gmap Z _]) indexed by their address, and every C function is a
    computation in a small state-and-error monad over the [World].  Calls into
    the pthread library, the alarm clock and the dispatchers are recorded, in
    program order, in the world's [trace].

    Threads are run one at a time.  The worker thread of a handler is the
    code of [eventHandlerThread], cut at its loop; a schedule (one entry per
    turn of the loop) says how far it runs.  The wait of [eventHandlerStop]
    on [threadExit] hands the processor to the worker for such a schedule;
    with the empty schedule it returns before the worker's exit, as a
    single [pthread_cond_wait] may.  A dispatcher is a function pointer of
    a collaborator: its call is recorded, and its body is not part of the
    operations below; [eventHandlerThread_loop_with] is the loop with the
    dispatchers' bodies and the queue's wait as parameters.  The event
    queue and the alarm clock are not among the sources; their operations
    follow the specification and are marked so. *)

From Stdlib Require Import ZArith List Bool Ascii Lia.
From stdpp Require Import gmap strings list fin_maps.

Open Scope Z_scope.

Module Event.

(** ** C scalars *)

Definition NULL : Z := 0.

(** [#define PTHREAD_NULL ((pthread_t) NULL)] *)
Definition PTHREAD_NULL : Z := NULL.

(** [#define PTHREAD_NAME_SIZE (33)] *)
Definition PTHREAD_NAME_SIZE : Z := 33.

(** [unsigned int] is 32 bits wide. *)
Definition UINT_MAX : Z := 4294967295.
Definition uint (x : Z) : Z := x mod (UINT_MAX + 1).

(** [long] ([tv_nsec]) and [time_t] ([tv_sec]) are 64-bit signed integers. *)
Definition LONG_MAX : Z := 9223372036854775807.
Definition long (x : Z) : Z :=
  (x + (LONG_MAX + 1)) mod (2 * (LONG_MAX + 1)) - (LONG_MAX + 1).

Record timespec := { tv_sec : Z; tv_nsec : Z }.

(** ** Event types and events *)

(** [BREventType]: the descriptor of one kind of event.  The dispatcher is a
    function pointer, [NULL] when absent. *)
Record BREventType := {
  eventName : string;
  eventSize : Z;
  eventDispatcher : Z
}.

(** The [type] field of an event is a pointer to a descriptor.  The
    descriptors of a collaborator are constants, so a pointer to one is
    modelled by the descriptor itself; a pointer to the [timeoutEventType]
    field of the handler at address [h] stays a reference, because that
    field is mutable. *)
Inductive BREventTypeRef :=
| TypeNull
| TypeConst (t : BREventType)
| TypeTimeoutOf (h : Z).

(** What follows the common header of an event: raw bytes for the events of
    a collaborator, the context and expiration time for [BREventTimeout]. *)
Inductive BREventPayload :=
| PayloadBytes (bytes : list Z)
| PayloadTimeout (context : Z) (time : timespec).

(** [BREvent]: the header [{ next, type }] followed by the payload. *)
Record BREvent := {
  next : Z;
  type : BREventTypeRef;
  payload : BREventPayload
}.

(** A [calloc]ed event slot. *)
Definition zeroEvent : BREvent :=
  {| next := NULL; type := TypeNull; payload := PayloadBytes [] |}.

(** The statuses named in the switch of [eventHandlerThread]. *)
Inductive BREventStatus :=
| EVENT_STATUS_SUCCESS
| EVENT_STATUS_NOT_STARTED
| EVENT_STATUS_UNKNOWN_TYPE
| EVENT_STATUS_NULL_EVENT
| EVENT_STATUS_NONE_PENDING
| EVENT_STATUS_WAIT_ABORT
| EVENT_STATUS_WAIT_ERROR.

(** ** The event queue (BREventQueue.c is not among the sources) *)

(** Modelled from the spec: the queue of BREventQueue.c, which is missing.
    The spec describes "an internal sequence of Event-sized slots" with "an
    abort flag", where head-inserted events form "a second FIFO lane drained
    first".  The two lanes are kept apart; each is in insertion order. *)
Record BREventQueue := {
  slotSize : Z;
  headLane : list BREvent;
  tailLane : list BREvent;
  abort : bool
}.

(** Modelled from the spec: [eventQueueCreate], missing; an empty queue of
    slots of the given size. *)
Definition eventQueueCreate (size : Z) : BREventQueue :=
  {| slotSize := size; headLane := []; tailLane := []; abort := false |}.

(** Modelled from the spec: [eventQueueEnqueueTailSignal], missing;
    "copies the event into a new/reused slot, appends to the FIFO end". *)
Definition eventQueueEnqueueTailSignal (q : BREventQueue) (e : BREvent) : BREventQueue :=
  {| slotSize := slotSize q; headLane := headLane q;
     tailLane := tailLane q ++ [e]; abort := abort q |}.

(** Modelled from the spec: [eventQueueEnqueueHeadSignal], missing;
    "inserts at the front, ahead of all previously queued tail events but
    behind previously queued head events in head-insertion order". *)
Definition eventQueueEnqueueHeadSignal (q : BREventQueue) (e : BREvent) : BREventQueue :=
  {| slotSize := slotSize q; headLane := headLane q ++ [e];
     tailLane := tailLane q; abort := abort q |}.

(** Modelled from the spec: [eventQueueDequeueWait], missing.  "Blocks the
    single consumer until an event is available or an abort is signaled; on
    success copies the earliest-available event (head-lane first) into
    outSlot and removes it"; while the abort flag is set every call returns
    [WAIT_ABORT]; an interrupted wait returns [WAIT_ERROR].  [interrupted]
    is the environment's choice for a wait on an empty queue; [None] is a
    consumer that stays blocked. *)
Definition eventQueueDequeueWait (q : BREventQueue) (interrupted : bool)
  : option (BREventStatus * BREventQueue * option BREvent) :=
  if abort q then Some (EVENT_STATUS_WAIT_ABORT, q, None)
  else match headLane q, tailLane q with
       | e :: rest, _ =>
           Some (EVENT_STATUS_SUCCESS,
                 {| slotSize := slotSize q; headLane := rest;
                    tailLane := tailLane q; abort := abort q |}, Some e)
       | [], e :: rest =>
           Some (EVENT_STATUS_SUCCESS,
                 {| slotSize := slotSize q; headLane := [];
                    tailLane := rest; abort := abort q |}, Some e)
       | [], [] =>
           if interrupted then Some (EVENT_STATUS_WAIT_ERROR, q, None) else None
       end.

(** Modelled from the spec: [eventQueueDequeueWaitAbort], missing; "sets a
    persistent abort flag and wakes the blocked consumer". *)
Definition eventQueueDequeueWaitAbort (q : BREventQueue) : BREventQueue :=
  {| slotSize := slotSize q; headLane := headLane q;
     tailLane := tailLane q; abort := true |}.

(** Modelled from the spec: [eventQueueDequeueWaitAbortReset], missing;
    "clears the abort flag". *)
Definition eventQueueDequeueWaitAbortReset (q : BREventQueue) : BREventQueue :=
  {| slotSize := slotSize q; headLane := headLane q;
     tailLane := tailLane q; abort := false |}.

(** Modelled from the spec: [eventQueueClear], missing; "discards all
    queued events (both lanes) without dispatching them". *)
Definition eventQueueClear (q : BREventQueue) : BREventQueue :=
  {| slotSize := slotSize q; headLane := []; tailLane := []; abort := abort q |}.

(** The events of a queue in the order in which they will be dequeued. *)
Definition pending (q : BREventQueue) : list BREvent := headLane q ++ tailLane q.

(** ** The alarm clock (BREventAlarm.c is not among the sources) *)

(** Modelled from the spec: [ALARM_ID_NONE] of BREventAlarm.h, missing; the
    id that no armed alarm has. *)
Definition ALARM_ID_NONE : Z := 0.

(** The callbacks that are registered with the alarm clock: the handler's
    own [eventHandlerAlarmCallback], or a function of another module. *)
Inductive BREventAlarmCallback :=
| Callback_eventHandlerAlarmCallback
| Callback_external (f : Z).

(** Modelled from the spec: an armed alarm, "{ id, context, callback,
    nextDeadline, period }"; the deadline plays no part here. *)
Record BREventAlarm := {
  alarmId : Z;
  alarmContext : Z;
  alarmCallback : BREventAlarmCallback;
  alarmPeriod : timespec
}.

(** Modelled from the spec: the process-wide alarm clock, "a set of armed
    alarms" whose ids "are unique while armed"; ids are handed out from a
    counter that starts above [ALARM_ID_NONE]. *)
Record BREventAlarmClock := {
  alarms : list BREventAlarm;
  nextAlarmId : positive
}.

(** ** The handler record *)

(** [struct BREventHandlerRecord].  [types] is the array the pointer of the
    same name points to; [queue] and [scratch] are the objects behind the
    two pointers; [lock] tells whether the mutex is held. *)
Record BREventHandlerRecord := {
  name : string;
  typesCount : Z;
  types : list BREventType;
  handlerEventSize : Z;
  queue : BREventQueue;
  scratch : BREvent;
  timeoutEventType : BREventType;
  timeoutContext : Z;
  timeout : timespec;
  timeoutAlarmId : Z;
  thread : Z;
  lock : bool;
  lockOnDispatch : Z
}.

Definition set_queue (q : BREventQueue) (r : BREventHandlerRecord) :=
  {| name := name r; typesCount := typesCount r; types := types r;
     handlerEventSize := handlerEventSize r; queue := q; scratch := scratch r;
     timeoutEventType := timeoutEventType r; timeoutContext := timeoutContext r;
     timeout := timeout r; timeoutAlarmId := timeoutAlarmId r;
     thread := thread r; lock := lock r; lockOnDispatch := lockOnDispatch r |}.

Definition set_scratch (e : BREvent) (r : BREventHandlerRecord) :=
  {| name := name r; typesCount := typesCount r; types := types r;
     handlerEventSize := handlerEventSize r; queue := queue r; scratch := e;
     timeoutEventType := timeoutEventType r; timeoutContext := timeoutContext r;
     timeout := timeout r; timeoutAlarmId := timeoutAlarmId r;
     thread := thread r; lock := lock r; lockOnDispatch := lockOnDispatch r |}.

Definition set_timeoutRegistration (ty : BREventType) (ctx : Z) (t : timespec)
    (r : BREventHandlerRecord) :=
  {| name := name r; typesCount := typesCount r; types := types r;
     handlerEventSize := handlerEventSize r; queue := queue r; scratch := scratch r;
     timeoutEventType := ty; timeoutContext := ctx;
     timeout := t; timeoutAlarmId := timeoutAlarmId r;
     thread := thread r; lock := lock r; lockOnDispatch := lockOnDispatch r |}.

Definition set_timeoutAlarmId (id : Z) (r : BREventHandlerRecord) :=
  {| name := name r; typesCount := typesCount r; types := types r;
     handlerEventSize := handlerEventSize r; queue := queue r; scratch := scratch r;
     timeoutEventType := timeoutEventType r; timeoutContext := timeoutContext r;
     timeout := timeout r; timeoutAlarmId := id;
     thread := thread r; lock := lock r; lockOnDispatch := lockOnDispatch r |}.

Definition set_thread (t : Z) (r : BREventHandlerRecord) :=
  {| name := name r; typesCount := typesCount r; types := types r;
     handlerEventSize := handlerEventSize r; queue := queue r; scratch := scratch r;
     timeoutEventType := timeoutEventType r; timeoutContext := timeoutContext r;
     timeout := timeout r; timeoutAlarmId := timeoutAlarmId r;
     thread := t; lock := lock r; lockOnDispatch := lockOnDispatch r |}.

Definition set_lock (b : bool) (r : BREventHandlerRecord) :=
  {| name := name r; typesCount := typesCount r; types := types r;
     handlerEventSize := handlerEventSize r; queue := queue r; scratch := scratch r;
     timeoutEventType := timeoutEventType r; timeoutContext := timeoutContext r;
     timeout := timeout r; timeoutAlarmId := timeoutAlarmId r;
     thread := thread r; lock := b; lockOnDispatch := lockOnDispatch r |}.


(** ** The world: heap, threads, alarm clock and the trace of calls *)

(** Where a worker thread stands in [eventHandlerThread]: created but not
    yet run, or inside the [while] loop between two iterations.  A thread
    that has returned is no longer recorded. *)
Inductive ThreadState :=
| AtEntry (h : Z)
| InLoop (h : Z).

(** The calls a function makes to its environment, in program order. *)
Inductive Action :=
| Call_pthread_mutex_lock (h : Z)
| Call_pthread_mutex_unlock (h : Z)
| Call_pthread_mutex_destroy (h : Z)
| Call_pthread_cond_wait (h : Z)
| Call_pthread_cond_signal (h : Z)
| Call_pthread_create (tid h : Z)
| Call_lockOnDispatch_lock (m : Z)
| Call_lockOnDispatch_unlock (m : Z)
| Call_eventDispatcher (f h : Z) (e : BREvent)
| Call_alarmClockAddAlarmPeriodic (id : Z)
| Call_alarmClockRemAlarm (id : Z)
| Call_eventQueueEnqueueTailSignal (h : Z) (e : BREvent)
| Call_eventQueueEnqueueHeadSignal (h : Z) (e : BREvent)
| Call_eventQueueDequeueWaitAbort (h : Z)
| Call_eventQueueDequeueWaitAbortReset (h : Z)
| Call_eventQueueClear (h : Z)
| Call_eventQueueDestroy (h : Z)
| Call_free_scratch (h : Z)
| Call_free_handler (h : Z).

Record World := {
  handlers : gmap Z BREventHandlerRecord;
  threads : gmap Z ThreadState;
  alarmClock : option BREventAlarmClock;
  nextAddress : positive;
  nextThread : positive;
  trace : list Action
}.

Definition set_handlers (hs : gmap Z BREventHandlerRecord) (w : World) :=
  {| handlers := hs; threads := threads w; alarmClock := alarmClock w;
     nextAddress := nextAddress w; nextThread := nextThread w; trace := trace w |}.

Definition set_threads (ts : gmap Z ThreadState) (w : World) :=
  {| handlers := handlers w; threads := ts; alarmClock := alarmClock w;
     nextAddress := nextAddress w; nextThread := nextThread w; trace := trace w |}.

Definition set_alarmClock (c : option BREventAlarmClock) (w : World) :=
  {| handlers := handlers w; threads := threads w; alarmClock := c;
     nextAddress := nextAddress w; nextThread := nextThread w; trace := trace w |}.

Definition set_trace (t : list Action) (w : World) :=
  {| handlers := handlers w; threads := threads w; alarmClock := alarmClock w;
     nextAddress := nextAddress w; nextThread := nextThread w; trace := t |}.

(** How a call ends: it returns, an [assert] aborts the process, the calling
    thread cannot go on, or it goes through a pointer that points nowhere. *)
Inductive Result (A : Type) :=
| Ok (a : A) (w : World)
| AssertFailed
| Blocked
| Fault.

Arguments Ok {A} a w.
Arguments AssertFailed {A}.
Arguments Blocked {A}.
Arguments Fault {A}.

Definition M (A : Type) : Type := World -> Result A.

Definition ret {A} (a : A) : M A := fun w => Ok a w.

Definition bind {A B} (m : M A) (k : A -> M B) : M B :=
  fun w => match m w with
           | Ok a w' => k a w'
           | AssertFailed => AssertFailed
           | Blocked => Blocked
           | Fault => Fault
           end.

Notation "'do' x <- m ; k" := (bind m (fun x => k))
  (at level 10, x name, m at level 100, k at level 200).
Notation "m ;; k" := (bind m (fun _ => k))
  (at level 100, k at level 200, right associativity).

Definition fault {A} : M A := fun _ => Fault.
Definition blocked {A} : M A := fun _ => Blocked.

(** [assert (b)] *)
Definition assert (b : bool) : M unit :=
  fun w => if b then Ok tt w else AssertFailed.

Definition emit (a : Action) : M unit :=
  fun w => Ok tt (set_trace (trace w ++ [a]) w).

(** Reading and writing the record behind a handler pointer. *)
Definition load (h : Z) : M BREventHandlerRecord :=
  fun w => match handlers w !! h with
           | Some r => Ok r w
           | None => Fault
           end.

Definition modify (h : Z) (f : BREventHandlerRecord -> BREventHandlerRecord) : M unit :=
  fun w => match handlers w !! h with
           | Some r => Ok tt (set_handlers (<[h := f r]> (handlers w)) w)
           | None => Fault
           end.

(** [pthread_mutex_lock (&handler->lock)] on a normal (non-recursive) mutex:
    a thread that finds it held does not go on. *)
Definition pthread_mutex_lock (h : Z) : M unit :=
  do r <- load h;
  if lock r then blocked
  else modify h (set_lock true);; emit (Call_pthread_mutex_lock h).

Definition pthread_mutex_unlock (h : Z) : M unit :=
  modify h (set_lock false);; emit (Call_pthread_mutex_unlock h).

(** ** The alarm clock's operations *)

(** Modelled from the spec: [alarmClockCreateIfNecessary], missing;
    "idempotently ensures the shared scheduler's background timing thread is
    running". *)
Definition alarmClockCreateIfNecessary (start : Z) : M unit :=
  fun w => match alarmClock w with
           | Some _ => Ok tt w
           | None => Ok tt (set_alarmClock (Some {| alarms := []; nextAlarmId := 1%positive |}) w)
           end.

(** Modelled from the spec: [alarmClockAddAlarmPeriodic], missing; "arms a
    new alarm that fires callback(context, expirationTime, clockRef) every
    period"; "returns a unique alarm id". *)
Definition alarmClockAddAlarmPeriodic (context : Z) (callback : BREventAlarmCallback)
    (period : timespec) : M Z :=
  fun w => match alarmClock w with
           | None => Fault
           | Some c =>
               let id := Z.pos (nextAlarmId c) in
               let a := {| alarmId := id; alarmContext := context;
                           alarmCallback := callback; alarmPeriod := period |} in
               Ok id (set_trace (trace w ++ [Call_alarmClockAddAlarmPeriodic id])
                        (set_alarmClock (Some {| alarms := alarms c ++ [a];
                                                 nextAlarmId := Pos.succ (nextAlarmId c) |}) w))
           end.

(** Modelled from the spec: [alarmClockRemAlarm], missing; "disarms and
    forgets the alarm"; "removing a non-existent id is a no-op". *)
Definition alarmClockRemAlarm (id : Z) : M unit :=
  fun w => match alarmClock w with
           | None => Fault
           | Some c =>
               Ok tt (set_trace (trace w ++ [Call_alarmClockRemAlarm id])
                        (set_alarmClock
                           (Some {| alarms := List.filter (fun a => negb (alarmId a =? id)) (alarms c);
                                    nextAlarmId := nextAlarmId c |}) w))
           end.

Definition findAlarm (id : Z) (c : BREventAlarmClock) : option BREventAlarm :=
  List.find (fun a => alarmId a =? id) (alarms c).


(** ** BREvent.c *)

(** [calloc (1, sizeof (struct BREventHandlerRecord))], then the fields as
    [eventHandlerCreate] leaves them.  The address is the allocator's
    counter, taken to be nonzero as [calloc] is taken to succeed; it is not
    in use in a world that is [heapWellFormed] (below). *)
Definition calloc (r : BREventHandlerRecord) : M Z :=
  fun w => let a := Z.pos (nextAddress w) in
           Ok a {| handlers := <[a := r]> (handlers w); threads := threads w;
                   alarmClock := alarmClock w;
                   nextAddress := Pos.succ (nextAddress w);
                   nextThread := nextThread w; trace := trace w |}.

(** [strlcpy (dst, src, size)] keeps at most [size - 1] characters. *)
Definition strlcpy (src : string) (size : Z) : string :=
  String.substring 0 (Z.to_nat (size - 1)) src.

(** The loop of [eventHandlerCreate] from index [i] on, with [n] iterations
    left: [eventSize] becomes the size of the largest type met.  Reading
    past the end of the array is [None]. *)
Fixpoint eventHandlerCreate_loop (types : list BREventType) (i n : nat) (eventSize : Z)
  : option Z :=
  match n with
  | O => Some eventSize
  | S n' =>
      match nth_error types i with
      | None => None
      | Some type =>
          eventHandlerCreate_loop types (S i) n'
            (if eventSize <? Event.eventSize type then Event.eventSize type else eventSize)
      end
  end.

Section Create.

(** [sizeof (BREventTimeout)]; the struct is declared in BREvent.h. *)
Variable sizeof_BREventTimeout : Z.

Definition eventHandlerCreate (name : string) (types : list BREventType)
    (typesCount : Z) (lockOnDispatch : Z) : M Z :=
  let timeoutEventType :=
    {| eventName := "Timeout Event";
       eventSize := sizeof_BREventTimeout;
       eventDispatcher := NULL |} in
  match eventHandlerCreate_loop types 0 (Z.to_nat typesCount) (eventSize timeoutEventType) with
  | None => fault
  | Some eventSize =>
      calloc {| Event.name := strlcpy name PTHREAD_NAME_SIZE;
                Event.typesCount := typesCount;
                Event.types := types;
                handlerEventSize := eventSize;
                queue := eventQueueCreate eventSize;
                scratch := zeroEvent;
                Event.timeoutEventType := timeoutEventType;
                timeoutContext := NULL;
                timeout := {| tv_sec := 0; tv_nsec := 0 |};
                timeoutAlarmId := ALARM_ID_NONE;
                thread := PTHREAD_NULL;
                lock := false;
                Event.lockOnDispatch := lockOnDispatch |}
  end.

End Create.

(** [timeInMilliseconds] is an [unsigned int]: the division and the product
    are computed modulo 2^32 and then stored in the signed 64-bit fields. *)
Definition eventHandlerSetTimeoutDispatcher (h : Z) (timeInMilliseconds : Z)
    (dispatcher : Z) (context : Z) : M unit :=
  pthread_mutex_lock h;;
  modify h (fun r =>
    set_timeoutRegistration
      {| eventName := eventName (timeoutEventType r);
         eventSize := eventSize (timeoutEventType r);
         eventDispatcher := dispatcher |}
      context
      {| tv_sec := long (uint (uint timeInMilliseconds / 1000));
         tv_nsec := long (uint (1000000 * (uint timeInMilliseconds mod 1000))) |}
      r);;
  pthread_mutex_unlock h.

Definition eventHandlerSignalEvent (h : Z) (event : BREvent) : M BREventStatus :=
  modify h (fun r => set_queue (eventQueueEnqueueTailSignal (queue r) event) r);;
  emit (Call_eventQueueEnqueueTailSignal h event);;
  ret EVENT_STATUS_SUCCESS.

Definition eventHandlerSignalEventOOB (h : Z) (event : BREvent) : M BREventStatus :=
  modify h (fun r => set_queue (eventQueueEnqueueHeadSignal (queue r) event) r);;
  emit (Call_eventQueueEnqueueHeadSignal h event);;
  ret EVENT_STATUS_SUCCESS.

Definition eventHandlerClear (h : Z) : M unit :=
  modify h (fun r => set_queue (eventQueueClear (queue r)) r);;
  emit (Call_eventQueueClear h).

Definition eventHandlerAlarmCallback (h : Z) (expiration : timespec) : M unit :=
  do r <- load h;
  let event :=
    {| next := NULL; type := TypeTimeoutOf h;
       payload := PayloadTimeout (timeoutContext r) expiration |} in
  eventHandlerSignalEventOOB h event;;
  ret tt.

(** Modelled from the spec: the alarm clock's thread firing the alarm [id],
    missing; it "invokes a registered callback when a deadline elapses", as
    "callback(context, expirationTime, clockRef)".  An id that is not armed
    fires nothing; a callback of another module is outside this model. *)
Definition alarmClockFire (id : Z) (expiration : timespec) : M unit :=
  fun w => match alarmClock w with
           | None => Ok tt w
           | Some c =>
               match findAlarm id c with
               | None => Ok tt w
               | Some a =>
                   match alarmCallback a with
                   | Callback_eventHandlerAlarmCallback =>
                       eventHandlerAlarmCallback (alarmContext a) expiration w
                   | Callback_external _ => Ok tt w
                   end
               end
           end.

(** *** The worker thread *)

(** [handler->scratch->type->eventDispatcher]. *)
Definition dispatcherOf (ty : BREventTypeRef) : M Z :=
  match ty with
  | TypeNull => fault
  | TypeConst t => ret (eventDispatcher t)
  | TypeTimeoutOf h' => do r' <- load h'; ret (eventDispatcher (timeoutEventType r'))
  end.

(** The call through the function pointer; what the dispatcher does is the
    collaborator's business, the call is recorded.  A statement on the
    operations below that runs through a dispatch holds for dispatchers
    that leave the world alone; [callDispatcher_with] runs a given body. *)
Definition callDispatcher (f h : Z) (e : BREvent) : M unit :=
  if f =? NULL then fault else emit (Call_eventDispatcher f h e).

(** The first lines of [eventHandlerThread], up to the loop. *)
Definition eventHandlerThread_prologue (self h : Z) : M unit :=
  pthread_mutex_lock h;;
  (do r <- load h;
   if PTHREAD_NULL =? thread r then modify h (set_thread self) else ret tt);;
  pthread_mutex_unlock h.

(** [eventQueueDequeueWait (handler->queue, handler->scratch)]. *)
Definition dequeueWait (h : Z) (interrupted : bool) : M BREventStatus :=
  do r <- load h;
  match eventQueueDequeueWait (queue r) interrupted with
  | None => blocked
  | Some (status, q, Some e) =>
      modify h (fun r => set_scratch e (set_queue q r));; ret status
  | Some (status, q, None) => modify h (set_queue q);; ret status
  end.

(** The [switch] of the loop; the value is [timeToQuit]. *)
Definition eventHandlerThread_switch (h : Z) (status : BREventStatus) : M Z :=
  match status with
  | EVENT_STATUS_SUCCESS =>
      do r <- load h;
      (if negb (lockOnDispatch r =? NULL)
       then emit (Call_lockOnDispatch_lock (lockOnDispatch r)) else ret tt);;
      (do f <- dispatcherOf (type (scratch r));
       callDispatcher f h (scratch r));;
      (if negb (lockOnDispatch r =? NULL)
       then emit (Call_lockOnDispatch_unlock (lockOnDispatch r)) else ret tt);;
      ret 0
  | EVENT_STATUS_WAIT_ABORT => ret 1
  | EVENT_STATUS_WAIT_ERROR => ret 0
  | EVENT_STATUS_NOT_STARTED
  | EVENT_STATUS_UNKNOWN_TYPE
  | EVENT_STATUS_NULL_EVENT
  | EVENT_STATUS_NONE_PENDING => assert false;; ret 0
  end.

(** One turn of [while (!timeToQuit)]. *)
Definition eventHandlerThread_body (h : Z) (interrupted : bool) : M Z :=
  do status <- dequeueWait h interrupted;
  eventHandlerThread_switch h status.

(** The loop, run for at most one iteration per entry of [sched]; an entry
    says whether a wait on the empty queue is interrupted.  The value is
    [timeToQuit]: 0 while the thread is still in the loop, parked in the
    wait or preempted. *)
Fixpoint eventHandlerThread_loop (h : Z) (sched : list bool) : M Z :=
  match sched with
  | [] => ret 0
  | interrupted :: sched' =>
      fun w => match eventHandlerThread_body h interrupted w with
               | Ok timeToQuit w' =>
                   if timeToQuit =? 0 then eventHandlerThread_loop h sched' w'
                   else Ok timeToQuit w'
               | Blocked => Ok 0 w
               | AssertFailed => AssertFailed
               | Fault => Fault
               end
  end.

(** *** The loop with its collaborators as parameters *)

Section Collaborators.

(** [eventQueueDequeueWait (handler->queue, handler->scratch)], a function
    of BREventQueue.c, as any function of the handler: it may report any
    status. *)
Variable wait : Z -> bool -> M BREventStatus.

(** What the dispatcher [f] does once it is called with the handler [h] and
    the event [e]: any computation, calls of BREvent.c included. *)
Variable dispatcherBody : Z -> Z -> BREvent -> M unit.

(** The call through the function pointer: it is recorded, and the
    dispatcher runs. *)
Definition callDispatcher_with (f h : Z) (e : BREvent) : M unit :=
  if f =? NULL then fault
  else emit (Call_eventDispatcher f h e);; dispatcherBody f h e.

(** The [switch] of the loop; [handler->lockOnDispatch] is read again after
    the dispatcher has returned. *)
Definition eventHandlerThread_switch_with (h : Z) (status : BREventStatus) : M Z :=
  match status with
  | EVENT_STATUS_SUCCESS =>
      (do r <- load h;
       (if negb (lockOnDispatch r =? NULL)
        then emit (Call_lockOnDispatch_lock (lockOnDispatch r)) else ret tt);;
       do f <- dispatcherOf (type (scratch r));
       callDispatcher_with f h (scratch r));;
      (do r <- load h;
       if negb (lockOnDispatch r =? NULL)
       then emit (Call_lockOnDispatch_unlock (lockOnDispatch r)) else ret tt);;
      ret 0
  | EVENT_STATUS_WAIT_ABORT => ret 1
  | EVENT_STATUS_WAIT_ERROR => ret 0
  | EVENT_STATUS_NOT_STARTED
  | EVENT_STATUS_UNKNOWN_TYPE
  | EVENT_STATUS_NULL_EVENT
  | EVENT_STATUS_NONE_PENDING => assert false;; ret 0
  end.

Definition eventHandlerThread_body_with (h : Z) (interrupted : bool) : M Z :=
  do status <- wait h interrupted;
  eventHandlerThread_switch_with h status.

Fixpoint eventHandlerThread_loop_with (h : Z) (sched : list bool) : M Z :=
  match sched with
  | [] => ret 0
  | interrupted :: sched' =>
      fun w => match eventHandlerThread_body_with h interrupted w with
               | Ok timeToQuit w' =>
                   if timeToQuit =? 0 then eventHandlerThread_loop_with h sched' w'
                   else Ok timeToQuit w'
               | Blocked => Ok 0 w
               | AssertFailed => AssertFailed
               | Fault => Fault
               end
  end.

End Collaborators.

(** The dispatcher of which only the call is recorded. *)
Definition inertDispatcher (f h : Z) (e : BREvent) : M unit := ret tt.

(** The last lines of [eventHandlerThread], after the loop. *)
Definition eventHandlerThread_epilogue (h : Z) : M unit :=
  pthread_mutex_lock h;;
  (do r <- load h;
   if negb (PTHREAD_NULL =? thread r) then modify h (set_thread PTHREAD_NULL) else ret tt);;
  emit (Call_pthread_cond_signal h);;
  pthread_mutex_unlock h.

Definition setThreadState (tid : Z) (s : option ThreadState) : M unit :=
  fun w => Ok tt (set_threads (match s with
                               | Some s => <[tid := s]> (threads w)
                               | None => delete tid (threads w)
                               end) w).

(** The loop and what follows it, for the thread [tid]; the value tells
    whether the thread has returned. *)
Definition eventHandlerThread_resume (tid h : Z) (sched : list bool) : M bool :=
  do timeToQuit <- eventHandlerThread_loop h sched;
  if timeToQuit =? 0 then setThreadState tid (Some (InLoop h));; ret false
  else eventHandlerThread_epilogue h;; setThreadState tid None;; ret true.

(** [eventHandlerThread], run by the thread [self]. *)
Definition eventHandlerThread (self h : Z) (sched : list bool) : M bool :=
  eventHandlerThread_prologue self h;;
  eventHandlerThread_resume self h sched.

(** The scheduler lets the thread [tid] run from where it stands. *)
Definition runThread (tid : Z) (sched : list bool) : M bool :=
  fun w => match threads w !! tid with
           | None => Ok false w
           | Some (AtEntry h) => eventHandlerThread tid h sched w
           | Some (InLoop h) => eventHandlerThread_resume tid h sched w
           end.

(** *** Start and stop *)

(** [pthread_create (&handler->thread, &attr, eventHandlerThread, handler)],
    taken to succeed: a new thread, whose id is stored. *)
Definition pthread_create (h : Z) : M unit :=
  fun w => let tid := Z.pos (nextThread w) in
           (modify h (set_thread tid);;
            emit (Call_pthread_create tid h))
             {| handlers := handlers w; threads := <[tid := AtEntry h]> (threads w);
                alarmClock := alarmClock w; nextAddress := nextAddress w;
                nextThread := Pos.succ (nextThread w); trace := trace w |}.

Definition eventHandlerStart (h : Z) : M unit :=
  alarmClockCreateIfNecessary 1;;
  pthread_mutex_lock h;;
  (do r <- load h;
   if PTHREAD_NULL =? thread r then
     (if negb (NULL =? eventDispatcher (timeoutEventType r)) then
        do id <- alarmClockAddAlarmPeriodic h Callback_eventHandlerAlarmCallback (timeout r);
        modify h (set_timeoutAlarmId id)
      else ret tt);;
     pthread_create h
   else ret tt);;
  pthread_mutex_unlock h.

(** [pthread_cond_wait (&handler->threadExit, &handler->lock)]: the mutex is
    released, the caller sleeps while the worker takes the turns of [sched],
    and the caller then takes the mutex again.  The wait returns when
    [threadExit] has been signalled, and it may return before: POSIX allows
    a wakeup without a signal, and [eventHandlerStop] calls the wait once,
    in no loop that tests [handler->thread].  With [sched] empty the caller
    wakes before the worker has taken a turn of its loop. *)
Definition pthread_cond_wait_threadExit (h : Z) (sched : list bool) : M unit :=
  emit (Call_pthread_cond_wait h);;
  modify h (set_lock false);;
  do r <- load h;
  runThread (thread r) sched;;
  do r' <- load h;
  if lock r' then blocked else modify h (set_lock true).

Definition eventHandlerStop (h : Z) (sched : list bool) : M unit :=
  pthread_mutex_lock h;;
  (do r <- load h;
   if negb (PTHREAD_NULL =? thread r) then
     (if negb (ALARM_ID_NONE =? timeoutAlarmId r) then
        alarmClockRemAlarm (timeoutAlarmId r);;
        modify h (set_timeoutAlarmId ALARM_ID_NONE)
      else ret tt);;
     modify h (fun r => set_queue (eventQueueDequeueWaitAbort (queue r)) r);;
     emit (Call_eventQueueDequeueWaitAbort h);;
     pthread_cond_wait_threadExit h sched;;
     modify h (fun r => set_queue (eventQueueDequeueWaitAbortReset (queue r)) r);;
     emit (Call_eventQueueDequeueWaitAbortReset h);;
     eventHandlerClear h
   else ret tt);;
  pthread_mutex_unlock h.

Definition eventHandlerIsCurrentThread (self h : Z) : M Z :=
  pthread_mutex_lock h;;
  do r <- load h;
  let result := if self =? thread r then 1 else 0 in
  pthread_mutex_unlock h;;
  ret result.

Definition eventHandlerIsRunning (h : Z) : M Z :=
  pthread_mutex_lock h;;
  do r <- load h;
  let result := if negb (PTHREAD_NULL =? thread r) then 1 else 0 in
  pthread_mutex_unlock h;;
  ret result.

(** [free (handler)]: the record, with the queue and the scratch buffer it
    holds, leaves the heap. *)
Definition free (h : Z) : M unit :=
  fun w => match handlers w !! h with
           | None => Fault
           | Some _ => Ok tt (set_trace (trace w ++ [Call_free_handler h])
                                (set_handlers (delete h (handlers w)) w))
           end.

(** What [eventHandlerDestroy] does after its call of [eventHandlerStop]
    ("... then kill"). *)
Definition eventHandlerDestroy_kill (h : Z) : M unit :=
  pthread_mutex_lock h;;
  (do r <- load h; assert (PTHREAD_NULL =? thread r));;
  pthread_mutex_unlock h;;
  emit (Call_pthread_mutex_destroy h);;
  emit (Call_eventQueueDestroy h);;
  emit (Call_free_scratch h);;
  free h.

Definition eventHandlerDestroy (h : Z) (sched : list bool) : M unit :=
  eventHandlerStop h sched;;
  eventHandlerDestroy_kill h.

(** ** Observations on worlds and traces *)

(** The events the worker of [h] has handed to a dispatcher, in order. *)
Definition dispatched (h : Z) (t : list Action) : list BREvent :=
  flat_map (fun a => match a with
                     | Call_eventDispatcher _ h' e => if h' =? h then [e] else []
                     | _ => []
                     end) t.

(** An event the worker can dispatch: its type carries a dispatcher. *)
Definition dispatchable (w : World) (e : BREvent) : bool :=
  match type e with
  | TypeNull => false
  | TypeConst t => negb (eventDispatcher t =? NULL)
  | TypeTimeoutOf h' =>
      match handlers w !! h' with
      | Some r' => negb (eventDispatcher (timeoutEventType r') =? NULL)
      | None => false
      end
  end.

(** A collaborator's signal: through [eventHandlerSignalEvent] or through
    [eventHandlerSignalEventOOB]. *)
Inductive Signal :=
| Tail (e : BREvent)
| OOB (e : BREvent).

Definition signalled (s : Signal) : BREvent :=
  match s with Tail e => e | OOB e => e end.

Definition tailSignals (l : list Signal) : list BREvent :=
  flat_map (fun s => match s with Tail e => [e] | OOB _ => [] end) l.

Definition oobSignals (l : list Signal) : list BREvent :=
  flat_map (fun s => match s with Tail _ => [] | OOB e => [e] end) l.

Definition signal (h : Z) (s : Signal) : M BREventStatus :=
  match s with
  | Tail e => eventHandlerSignalEvent h e
  | OOB e => eventHandlerSignalEventOOB h e
  end.

Fixpoint signalAll (h : Z) (l : list Signal) : M unit :=
  match l with
  | [] => ret tt
  | s :: l' => signal h s;; signalAll h l'
  end.

(** An interleaving of signals with turns of the worker's loop. *)
Inductive Step :=
| Signalled (s : Signal)
| Worker (interrupted : bool).

Definition signalsOf (l : list Step) : list Signal :=
  flat_map (fun s => match s with Signalled s => [s] | Worker _ => [] end) l.

Definition step (h : Z) (s : Step) : M unit :=
  match s with
  | Signalled s => signal h s;; ret tt
  | Worker interrupted => eventHandlerThread_loop h [interrupted];; ret tt
  end.

Fixpoint steps (h : Z) (l : list Step) : M unit :=
  match l with
  | [] => ret tt
  | s :: l' => step h s;; steps h l'
  end.

(** The alarms that are armed. *)
Definition armedAlarms (w : World) : list BREventAlarm :=
  match alarmClock w with
  | Some c => alarms c
  | None => []
  end.

(** The armed alarm with the id [id], if there is one. *)
Definition armed (w : World) (id : Z) : option BREventAlarm :=
  match alarmClock w with
  | Some c => findAlarm id c
  | None => None
  end.

(** The alarm clock of [w], or a new one when [w] has none yet. *)
Definition clockOf (w : World) : BREventAlarmClock :=
  match alarmClock w with
  | Some c => c
  | None => {| alarms := []; nextAlarmId := 1%positive |}
  end.

(** The timeout event that a firing at [expiration] makes for the handler
    at [h], whose record is [r]. *)
Definition timeoutEvent (h : Z) (r : BREventHandlerRecord) (expiration : timespec) : BREvent :=
  {| next := NULL; type := TypeTimeoutOf h;
     payload := PayloadTimeout (timeoutContext r) expiration |}.

(** The alarm that [eventHandlerStart] arms for the handler at [h]. *)
Definition timeoutAlarm (id h : Z) (period : timespec) : BREventAlarm :=
  {| alarmId := id; alarmContext := h;
     alarmCallback := Callback_eventHandlerAlarmCallback; alarmPeriod := period |}.

(** The ids of the armed alarms lie below the clock's counter, so the next
    id is new. *)
Definition clockWellFormed (w : World) : bool :=
  match alarmClock w with
  | Some c => forallb (fun a => alarmId a <? Z.pos (nextAlarmId c)) (alarms c)
  | None => true
  end.

(** The addresses in use lie above [NULL] and below the allocator's
    counter, so the next address is new. *)
Definition heapWellFormed (w : World) : Prop :=
  map_Forall (fun a _ => 0 < a < Z.pos (nextAddress w)) (handlers w).

(** The handler at [h] is running in [w]: its record [r] names a worker
    thread, that thread is alive in [eventHandlerThread (h)], nobody holds
    the lock, and an armed timeout alarm comes with an alarm clock. *)
Definition running (w : World) (h : Z) (r : BREventHandlerRecord) : Prop :=
  handlers w !! h = Some r
  /\ lock r = false
  /\ thread r <> PTHREAD_NULL
  /\ (threads w !! thread r = Some (AtEntry h)
      \/ threads w !! thread r = Some (InLoop h))
  /\ (timeoutAlarmId r = ALARM_ID_NONE \/ alarmClock w <> None).

(** The calls a worker thread of [h] makes from the state [s] on, once the
    queue's wait is aborted: the rest of its prologue, if it has not run
    yet, and its epilogue. *)
Definition threadExitCalls (s : ThreadState) (h : Z) : list Action :=
  match s with
  | AtEntry _ => [Call_pthread_mutex_lock h; Call_pthread_mutex_unlock h]
  | InLoop _ => []
  end ++ [Call_pthread_mutex_lock h; Call_pthread_cond_signal h; Call_pthread_mutex_unlock h].

(** The record of a handler once [eventHandlerStop] has stopped it. *)
Definition stoppedRecord (r : BREventHandlerRecord) : BREventHandlerRecord :=
  set_queue {| slotSize := slotSize (queue r); headLane := []; tailLane := [];
               abort := false |}
    (set_thread PTHREAD_NULL (set_timeoutAlarmId ALARM_ID_NONE r)).

(** The calls of [eventHandlerStop] on a running handler whose record is
    [r] and whose worker stands at [s]. *)
Definition stopCalls (h : Z) (r : BREventHandlerRecord) (s : ThreadState) : list Action :=
  [Call_pthread_mutex_lock h]
  ++ (if negb (ALARM_ID_NONE =? timeoutAlarmId r)
      then [Call_alarmClockRemAlarm (timeoutAlarmId r)] else [])
  ++ [Call_eventQueueDequeueWaitAbort h; Call_pthread_cond_wait h]
  ++ threadExitCalls s h
  ++ [Call_eventQueueDequeueWaitAbortReset h; Call_eventQueueClear h;
      Call_pthread_mutex_unlock h].

(** The armed alarms once [eventHandlerStop] has removed the timeout alarm
    of a handler whose record is [r]. *)
Definition alarmsAfterStop (r : BREventHandlerRecord) (w : World) : list BREventAlarm :=
  if negb (ALARM_ID_NONE =? timeoutAlarmId r)
  then List.filter (fun a => negb (alarmId a =? timeoutAlarmId r)) (armedAlarms w)
  else armedAlarms w.

(** The calls a worker thread of [h] makes from the state [s] on when it is
    let run up to the wait of its loop and no further: the rest of its
    prologue, if it has not run yet. *)
Definition threadEntryCalls (s : ThreadState) (h : Z) : list Action :=
  match s with
  | AtEntry _ => [Call_pthread_mutex_lock h; Call_pthread_mutex_unlock h]
  | InLoop _ => []
  end.

(** The record of a running handler once [eventHandlerStop] has returned
    from a wait that ended before the worker's exit: the alarm id and the
    queue are as after any stop, the worker thread is still recorded. *)
Definition wokenRecord (r : BREventHandlerRecord) : BREventHandlerRecord :=
  set_queue {| slotSize := slotSize (queue r); headLane := []; tailLane := [];
               abort := false |}
    (set_timeoutAlarmId ALARM_ID_NONE r).

(** The calls of [eventHandlerStop] on a running handler whose record is
    [r] and whose worker stands at [s], when the wait ends before the
    worker's exit. *)
Definition wokenStopCalls (h : Z) (r : BREventHandlerRecord) (s : ThreadState) : list Action :=
  [Call_pthread_mutex_lock h]
  ++ (if negb (ALARM_ID_NONE =? timeoutAlarmId r)
      then [Call_alarmClockRemAlarm (timeoutAlarmId r)] else [])
  ++ [Call_eventQueueDequeueWaitAbort h; Call_pthread_cond_wait h]
  ++ threadEntryCalls s h
  ++ [Call_eventQueueDequeueWaitAbortReset h; Call_eventQueueClear h;
      Call_pthread_mutex_unlock h].

(** The handler at [h] is stopped in [w]: no worker thread is recorded and
    nobody holds the lock. *)
Definition stopped (w : World) (h : Z) (r : BREventHandlerRecord) : Prop :=
  handlers w !! h = Some r /\ lock r = false /\ thread r = PTHREAD_NULL.

(** The operations of BREvent.c on an existing handler, apart from
    [eventHandlerSetTimeoutDispatcher], together with the two ways in which
    the environment drives it: the alarm clock firing and the scheduler
    letting a thread run. *)
Inductive Operation :=
| OpStart (h : Z)
| OpStop (h : Z) (sched : list bool)
| OpDestroy (h : Z) (sched : list bool)
| OpSignalEvent (h : Z) (e : BREvent)
| OpSignalEventOOB (h : Z) (e : BREvent)
| OpClear (h : Z)
| OpIsRunning (h : Z)
| OpIsCurrentThread (self h : Z)
| OpAlarmFire (id : Z) (expiration : timespec)
| OpRunThread (tid : Z) (sched : list bool).

Definition perform (op : Operation) : M unit :=
  match op with
  | OpStart h => eventHandlerStart h
  | OpStop h sched => eventHandlerStop h sched
  | OpDestroy h sched => eventHandlerDestroy h sched
  | OpSignalEvent h e => eventHandlerSignalEvent h e;; ret tt
  | OpSignalEventOOB h e => eventHandlerSignalEventOOB h e;; ret tt
  | OpClear h => eventHandlerClear h
  | OpIsRunning h => eventHandlerIsRunning h;; ret tt
  | OpIsCurrentThread self h => eventHandlerIsCurrentThread self h;; ret tt
  | OpAlarmFire id expiration => alarmClockFire id expiration
  | OpRunThread tid sched => runThread tid sched;; ret tt
  end.

(** ** Further observations *)

(** The call [f] on the dispatch lock, when the handler has one. *)
Definition lockOnDispatchCalls (r : BREventHandlerRecord) (f : Z -> Action) : list Action :=
  if negb (lockOnDispatch r =? NULL) then [f (lockOnDispatch r)] else [].

(** The world after a dispatch of the scratch event through [f]. *)
Definition afterDispatch (h : Z) (r : BREventHandlerRecord) (f : Z) (w : World) : World :=
  set_trace (trace w
             ++ lockOnDispatchCalls r Call_lockOnDispatch_lock
             ++ [Call_eventDispatcher f h (scratch r)]
             ++ lockOnDispatchCalls r Call_lockOnDispatch_unlock) w.

(** The timeout types of the live handlers. *)
Definition typesOf (w : World) : gmap Z BREventType :=
  timeoutEventType <$> handlers w.

(** A computation that leaves every handler's timeout type as it is and
    neither creates nor frees a handler. *)
Definition constTypes {A} (m : M A) : Prop :=
  forall w a w', m w = Ok a w' -> typesOf w' = typesOf w.

(** A computation under which a handler that is still there has kept its
    timeout type. *)
Definition keepsTypes {A} (m : M A) : Prop :=
  forall w a w', m w = Ok a w' -> typesOf w' ⊆ typesOf w.

(** The largest event size among [acc] and the sizes of [types]. *)
Definition largestSize (types : list BREventType) (acc : Z) : Z :=
  fold_left (fun a t => Z.max a (eventSize t)) types acc.

(** The calls of [eventHandlerDestroy] after the stop. *)
Definition killCalls (h : Z) : list Action :=
  [Call_pthread_mutex_lock h; Call_pthread_mutex_unlock h;
   Call_pthread_mutex_destroy h; Call_eventQueueDestroy h;
   Call_free_scratch h; Call_free_handler h].

(** The queue of [r] with [sigs] signalled. *)
Definition queueAfter (sigs : list Signal) (r : BREventHandlerRecord) : BREventQueue :=
  {| slotSize := slotSize (queue r);
     headLane := headLane (queue r) ++ oobSignals sigs;
     tailLane := tailLane (queue r) ++ tailSignals sigs;
     abort := abort (queue r) |}.

(** The record without its queue and its scratch slot: the fields that the
    handler's lock protects, and those that never change. *)
Definition metadata (r : BREventHandlerRecord) : BREventHandlerRecord :=
  set_scratch zeroEvent (set_queue (eventQueueCreate 0) r).

(** A computation that changes at most the queue and the scratch slot of the
    handler at [h]: every other handler, the threads and the alarm clock are
    as before, and no dispatcher is called for another handler. *)
Definition queueOnly (h : Z) {A} (m : M A) : Prop :=
  forall w a w', m w = Ok a w' ->
    (forall h', h' <> h -> handlers w' !! h' = handlers w !! h')
    /\ metadata <$> (handlers w' !! h) = metadata <$> (handlers w !! h)
    /\ threads w' = threads w
    /\ alarmClock w' = alarmClock w
    /\ (forall h', h' <> h -> dispatched h' (trace w') = dispatched h' (trace w)).

(** The record of a handler once [eventHandlerStart] has started it in the
    world [w]: the new thread, and the new alarm if a timeout dispatcher is
    registered. *)
Definition startedRecord (w : World) (r : BREventHandlerRecord) : BREventHandlerRecord :=
  set_thread (Z.pos (nextThread w))
    (if negb (NULL =? eventDispatcher (timeoutEventType r))
     then set_timeoutAlarmId (Z.pos (nextAlarmId (clockOf w))) r else r).

(** The handler at [h'] has, in [w'], the record and the dispatches it had
    in [w]. *)
Definition untouched (h' : Z) (w w' : World) : Prop :=
  handlers w' !! h' = handlers w !! h'
  /\ dispatched h' (trace w') = dispatched h' (trace w).

(** ** Sample worlds *)

(** A type of event with a dispatcher, and events of that type. *)
Definition sampleType : BREventType :=
  {| eventName := "T"; eventSize := 24; eventDispatcher := 77 |}.

Definition sampleEvent (n : Z) : BREvent :=
  {| next := NULL; type := TypeConst sampleType; payload := PayloadBytes [n] |}.

(** The world before anything is created. *)
Definition emptyWorld : World :=
  {| handlers := ∅; threads := ∅; alarmClock := None;
     nextAddress := 1; nextThread := 1; trace := [] |}.

(** The world a computation leaves, and the record at an address. *)
Definition worldOf {A} (m : M A) (w : World) : World :=
  match m w with
  | Ok _ w' => w'
  | _ => w
  end.

Definition recordAt (h : Z) (w : World) : BREventHandlerRecord :=
  match handlers w !! h with
  | Some r => r
  | None =>
      {| name := ""; typesCount := 0; types := []; handlerEventSize := 0;
         queue := eventQueueCreate 0; scratch := zeroEvent;
         timeoutEventType := sampleType; timeoutContext := 0;
         timeout := {| tv_sec := 0; tv_nsec := 0 |}; timeoutAlarmId := 0;
         thread := 0; lock := false; lockOnDispatch := 0 |}
  end.

(** One handler, at address 1, created over [sampleType]. *)
Definition createdWorld : World :=
  Eval vm_compute in worldOf (eventHandlerCreate 40 "wallet" [sampleType] 1 NULL) emptyWorld.

(** The same, with a timeout dispatcher registered for a period of
    1500 ms. *)
Definition registeredWorld : World :=
  Eval vm_compute in worldOf (eventHandlerSetTimeoutDispatcher 1 1500 99 1234) createdWorld.

(** The same, started: the alarm is armed and the worker thread exists. *)
Definition startedWorld : World :=
  Eval vm_compute in worldOf (eventHandlerStart 1) registeredWorld.

(** The same, after a signal, and after the worker's dequeue of the
    event. *)
Definition signalledWorld : World :=
  Eval vm_compute in worldOf (eventHandlerSignalEvent 1 (sampleEvent 5)) startedWorld.


(** The handler with a timeout dispatcher, not started, after three
    signals. *)
Definition queuedWorld : World :=
  Eval vm_compute in
    worldOf (signalAll 1 [Tail (sampleEvent 5); OOB (sampleEvent 7); Tail (sampleEvent 6)])
      registeredWorld.

(** The started handler after two turns of its worker's loop on the
    signalled event. *)
Definition loopedWorld : World :=
  Eval vm_compute in worldOf (eventHandlerThread_loop 1 [false; true]) signalledWorld.

(** The started handler while a thread holds its lock. *)
Definition lockedWorld : World :=
  Eval vm_compute in worldOf (pthread_mutex_lock 1) signalledWorld.

(** The handler with three events queued, started. *)
Definition queuedStartedWorld : World :=
  Eval vm_compute in worldOf (eventHandlerStart 1) queuedWorld.


(** A dispatcher that answers every event with a signal to its own
    handler, and a queue that reports that nothing is pending. *)
Definition answeringDispatcher (f h : Z) (e : BREvent) : M unit :=
  eventHandlerSignalEvent h (sampleEvent 9);; ret tt.


(** The started handler after two turns of its worker's loop on the
    signalled event, the dispatcher answering each event with a signal. *)
Definition answeredWorld : World :=
  Eval vm_compute in
    worldOf (eventHandlerThread_loop_with dequeueWait answeringDispatcher 1 [false; false])
      signalledWorld.

(** The started handler after an [eventHandlerStop] whose wait has ended
    before the worker's exit. *)
Definition wokenWorld : World :=
  Eval vm_compute in worldOf (eventHandlerStop 1 []) startedWorld.

(** A second handler, at address 2, beside the started one. *)
Definition twoHandlersWorld : World :=
  Eval vm_compute in
    worldOf (eventHandlerCreate 40 "other" [sampleType] 1 NULL) signalledWorld.

End Event.

Module Ripple.

(** ** BRRippleAccount.c *)

(** [uint32_t] arithmetic wraps at 2^32. *)
Definition uint32 (x : Z) : Z := x mod 4294967296.

(** A 256-bit and a 512-bit unsigned integer ([UInt256], [UInt512]). *)
Definition UInt256 : Type := Z.
Definition UInt512 : Type := Z.

(** [BRKey], with the three fields the account code touches. *)
Record BRKey := {
  secret : UInt256;
  pubKey : list Z;
  compressed : Z
}.

Record BRRippleAddress := { bytes : list Z }.

(** [struct BRRippleAccountRecord] *)
Record BRRippleAccountRecord := {
  raw : BRRippleAddress;
  publicKey : BRKey;
  index : Z;
  sequence : Z;
  lastLedgerSequence : Z
}.

(** How a call ends: it returns, or an [assert] aborts the process. *)
Inductive Outcome (A : Type) :=
| Returned (a : A)
| AssertionFailed.

Arguments Returned {A} a.
Arguments AssertionFailed {A}.

(** What [rippleTransactionSerializeAndSign] leaves behind: the pointer it
    returns ([None] for [NULL]) and the objects it was given by pointer. *)
Record Signing (Transaction Serialized : Type) := {
  signedBytes : option Serialized;
  transactionAfter : Transaction;
  publicKeyAfter : BRKey
}.

Arguments signedBytes {Transaction Serialized} _.
Arguments transactionAfter {Transaction Serialized} _.
Arguments publicKeyAfter {Transaction Serialized} _.

(** The parameter is a [BRRippleSequence], a [uint32_t]: the value the
    caller passes arrives reduced modulo 2^32. *)
Definition rippleAccountSetSequence (account : option BRRippleAccountRecord) (seq : Z)
  : Outcome BRRippleAccountRecord :=
  match account with
  | None => AssertionFailed
  | Some a =>
      Returned {| raw := raw a; publicKey := publicKey a; index := index a;
                  sequence := uint32 seq; lastLedgerSequence := lastLedgerSequence a |}
  end.

Section PublicKey.

(** [UINT256_ZERO], a macro of support/BRInt.h. *)
Variable UINT256_ZERO : UInt256.

(** The key is returned by value; the account's copy has lost its secret
    too. *)
Definition rippleAccountGetPublicKey (account : BRRippleAccountRecord)
  : BRKey * BRRippleAccountRecord :=
  let publicKey' :=
    {| secret := UINT256_ZERO; pubKey := pubKey (publicKey account);
       compressed := compressed (publicKey account) |} in
  (publicKey',
   {| raw := raw account; publicKey := publicKey'; index := index account;
      sequence := sequence account;
      lastLedgerSequence := lastLedgerSequence account |}).

End PublicKey.

(** The loop of [getKey] in DEBUG mode: is there a space in the key? *)
Fixpoint is_paper_key (paperKey : string) : Z :=
  match paperKey with
  | EmptyString => 0
  | String c rest => if Ascii.eqb c " "%char then 1 else is_paper_key rest
  end.

Section Signing.

(** The functions of support/ and of BRRippleTransaction.c that the account
    code calls, and the compile-time switch [DEBUG]. *)
Variable DEBUG : bool.
Variable BIP32_HARD : Z.
Variable BRBIP39DeriveKey : string -> UInt512.
Variable BRBIP32PrivKeyPath : UInt512 -> list Z -> BRKey.
Variable BRKeySetPrivKey : string -> BRKey.

Variables Transaction Serialized : Type.
Variable rippleTransactionSerializeAndSign :
  Transaction -> BRKey -> BRKey -> Z -> Z -> Signing Transaction Serialized.

Definition getSeed (paperKey : string) : UInt512 :=
  BRBIP39DeriveKey paperKey.

Definition deriveRippleKeyFromSeed (seed : UInt512) (index : Z) : BRKey :=
  let privateKey :=
    BRBIP32PrivKeyPath seed
      [Z.lor 44 BIP32_HARD; Z.lor 144 BIP32_HARD; Z.lor 0 BIP32_HARD; 0; index] in
  {| secret := secret privateKey; pubKey := pubKey privateKey; compressed := 0 |}.

Definition getKey (paperKey : string) : BRKey :=
  if negb DEBUG then
    let seed := getSeed paperKey in
    deriveRippleKeyFromSeed seed 0
  else if 1 =? is_paper_key paperKey then
    let seed := getSeed paperKey in
    deriveRippleKeyFromSeed seed 0
  else BRKeySetPrivKey paperKey.

(** The value is the pointer returned, with the account and the transaction
    as the call leaves them. *)
Definition rippleAccountSignTransaction (account : option BRRippleAccountRecord)
    (transaction : option Transaction) (paperKey : option string)
  : Outcome (option Serialized * BRRippleAccountRecord * Transaction) :=
  match account, transaction, paperKey with
  | Some a, Some t, Some pk =>
      let key := getKey pk in
      let s := rippleTransactionSerializeAndSign t key (publicKey a)
                 (sequence a) (lastLedgerSequence a) in
      let a1 := {| raw := raw a; publicKey := publicKeyAfter s; index := index a;
                   sequence := sequence a;
                   lastLedgerSequence := lastLedgerSequence a |} in
      match signedBytes s with
      | Some _ =>
          Returned (signedBytes s,
                    {| raw := raw a1; publicKey := publicKey a1; index := index a1;
                       sequence := uint32 (sequence a1 + 1);
                       lastLedgerSequence := lastLedgerSequence a1 |},
                    transactionAfter s)
      | None => Returned (signedBytes s, a1, transactionAfter s)
      end
  | _, _, _ => AssertionFailed
  end.

End Signing.

(** ** The address string: base 58 with Ripple's alphabet *)

(** [size_t] arithmetic wraps at 2^64. *)
Definition size_t (x : Z) : Z := x mod 18446744073709551616.

(** [static const char chars[]]; the array ends with the terminating
    NUL, which is what [chars[58]] reads. *)
Definition chars : string :=
  "rpshnaf39wBUDNEGHJKLM4PQRST7VWXYZ2bcdeCg65jkm8oFqi1tuvAxyz".

Definition charAt (k : Z) : ascii :=
  match String.get (Z.to_nat k) chars with
  | Some c => c
  | None => Ascii.zero
  end.

(** [while (n < len && a[n] == 0) n++], for the leading zero bytes of the
    data and the leading zero digits of the buffer. *)
Fixpoint leadingZeros (a : list Z) : nat :=
  match a with
  | 0 :: rest => S (leadingZeros rest)
  | _ => O
  end.

(** [for (j = sizeof(buf); j > 0; j--)]: the digits are visited from the
    last to the first; [carry] is a [uint32_t], the digit stored is
    [carry % 58].  The value is the buffer and the carry left. *)
Fixpoint encodeBase58Ripple_pass (buf : list Z) (carry : Z) : list Z * Z :=
  match buf with
  | [] => ([], carry)
  | d :: rest =>
      let (rest', c) := encodeBase58Ripple_pass rest carry in
      let c1 := uint32 (c + uint32 (Z.shiftl d 8)) in
      ((c1 mod 58) :: rest', c1 / 58)
  end.

(** [(dataLen - zcount)*138/100 + 1], the size of [buf]. *)
Definition encodeBase58Ripple_size (n : nat) : nat :=
  Z.to_nat (size_t (size_t (size_t (Z.of_nat n) * 138) / 100 + 1)).

(** The digits in [buf] when the outer loop is left. *)
Definition encodeBase58Ripple_digits (data : list Z) : list Z :=
  let zcount := leadingZeros data in
  let buf := repeat 0 (encodeBase58Ripple_size (length data - zcount)) in
  fold_left (fun buf byte => fst (encodeBase58Ripple_pass buf (uint32 byte)))
    (skipn zcount data) buf.

(** [encodeBase58Ripple (str, strLen, data, dataLen)], [data] being the
    array of [dataLen] bytes or [NULL], [str] telling whether there is an
    output buffer.  The value is the [size_t] returned and what was
    written to [str], [None] when it was left alone. *)
Definition encodeBase58Ripple (str : bool) (strLen : Z) (data : option (list Z))
  : Outcome (Z * option string) :=
  match data with
  | None => AssertionFailed
  | Some data =>
      let zcount := leadingZeros data in
      let buf := encodeBase58Ripple_digits data in
      let i := leadingZeros buf in
      let len := size_t (Z.of_nat zcount + Z.of_nat (length buf) - Z.of_nat i + 1) in
      let written :=
        if str && (len <=? strLen)
        then Some (String.string_of_list_ascii
                     (repeat (charAt 0) zcount ++ map charAt (skipn i buf)))
        else None in
      Returned (if negb str || (len <=? strLen) then len else 0, written)
  end.

(** The number a list of digits writes in base [b], first digit first. *)
Fixpoint valueOf (b : Z) (digits : list Z) : Z :=
  match digits with
  | [] => 0
  | d :: rest => d * b ^ Z.of_nat (length rest) + valueOf b rest
  end.

(** The place of a character in [chars]; 58 for a character that is not
    there. *)
Fixpoint indexIn (alphabet : list ascii) (c : ascii) : Z :=
  match alphabet with
  | [] => 0
  | a :: rest => if Ascii.eqb a c then 0 else 1 + indexIn rest c
  end.

Definition digitOf (c : ascii) : Z := indexIn (String.list_ascii_of_string chars) c.

(** The digits a string of [chars] stands for. *)
Definition digitsOf (s : string) : list Z := map digitOf (String.list_ascii_of_string s).

(** A byte ([uint8_t]) and a base-58 digit. *)
Definition isByte (d : Z) : Prop := 0 <= d < 256.
Definition isDigit (d : Z) : Prop := 0 <= d < 58.

Section Address.

(** [BRSHA256_2] of support/BRCrypto.h: the 32 bytes of the double
    SHA-256 of the given bytes. *)
Variable BRSHA256_2 : list Z -> list Z.

(** The 25 bytes that are encoded: the type byte 0, the 20 bytes of the
    account id, the first 4 bytes of the hash of these 21. *)
Definition createRippleAddressString_input (address : BRRippleAddress) : list Z :=
  let input := 0 :: firstn 20 (bytes address) in
  input ++ firstn 4 (BRSHA256_2 input).

(** The string is [calloc]ed, so it is empty when nothing is written. *)
Definition createRippleAddressString (address : BRRippleAddress) (useChecksum : Z)
  : string :=
  match encodeBase58Ripple true 35 (Some (createRippleAddressString_input address)) with
  | Returned (_, Some s) => s
  | _ => EmptyString
  end.

(** The value is the [int] returned and what [strcpy] wrote to
    [rippleAddress], [None] when the buffer was left alone. *)
Definition rippleAccountGetAddressString (account : BRRippleAccountRecord) (length : Z)
  : Z * option string :=
  let address := createRippleAddressString (raw account) 1 in
  let addressLength := Z.of_nat (String.length address) in
  (addressLength + 1, if addressLength <? length then Some address else None).

End Address.

(** [memcmp (s1, s2, n)] of the C library: the sign of the difference of
    the first two bytes that differ among the first [n], 0 when there are
    none.  Both arrays hold [n] bytes; where a list ends there is nothing
    left to compare. *)
Fixpoint memcmp (s1 s2 : list Z) (n : nat) : Z :=
  match n, s1, s2 with
  | S n', x :: s1', y :: s2' => if x =? y then memcmp s1' s2' n' else Z.sgn (x - y)
  | _, _, _ => 0
  end.

Definition rippleAddressEqual (a1 a2 : BRRippleAddress) : Z :=
  if 0 =? memcmp (bytes a1) (bytes a2) 20 then 1 else 0.

(** ** Creating an account *)

Section Account.

(** The compile-time switch and the functions of support/ behind [getKey],
    as in the section above. *)
Variable DEBUG : bool.
Variable BIP32_HARD : Z.
Variable BRBIP39DeriveKey : string -> UInt512.
Variable BRBIP32PrivKeyPath : UInt512 -> list Z -> BRKey.
Variable BRKeySetPrivKey : string -> BRKey.

(** [UINT256_ZERO], the size of the [pubKey] array of a [BRKey], and the two
    functions of support/BRKey.h that [createAccountObject] calls:
    [BRKeyPubKey (&key, buffer, size)], whose value here is the key as the
    call leaves it and the bytes in the buffer, and [BRKeyHash160 (&key)]. *)
Variable UINT256_ZERO : UInt256.
Variable sizeof_pubKey : nat.
Variable BRKeyPubKey : BRKey -> Z -> BRKey * list Z.
Variable BRKeyHash160 : BRKey -> list Z.

(** The record is [calloc]ed: what is not assigned is zero. *)
Definition createAccountObject (key : BRKey) : BRRippleAccountRecord :=
  let tmpKey := {| secret := secret key; pubKey := pubKey key; compressed := 1 |} in
  let (tmpKey', pubkey) := BRKeyPubKey tmpKey 33 in
  let hash := BRKeyHash160 tmpKey' in
  {| raw := {| bytes := firstn 20 hash |};
     publicKey := {| secret := UINT256_ZERO;
                     pubKey := firstn 33 pubkey ++ repeat 0 (sizeof_pubKey - 33);
                     compressed := 1 |};
     index := 0;
     sequence := 0;
     lastLedgerSequence := 0 |}.

Definition rippleAccountCreate (paperKey : string) : BRRippleAccountRecord :=
  let key := getKey DEBUG BIP32_HARD BRBIP39DeriveKey BRBIP32PrivKeyPath BRKeySetPrivKey
               paperKey in
  createAccountObject key.

Definition rippleAccountCreateWithSeed (seed : UInt512) : BRRippleAccountRecord :=
  let key := deriveRippleKeyFromSeed BIP32_HARD BRBIP32PrivKeyPath seed 0 in
  createAccountObject key.

Definition rippleAccountCreateWithKey (key : BRKey) : BRRippleAccountRecord :=
  createAccountObject key.

End Account.

(** ** Signing one transaction after the other *)

Section SigningInARow.

Variable DEBUG : bool.
Variable BIP32_HARD : Z.
Variable BRBIP39DeriveKey : string -> UInt512.
Variable BRBIP32PrivKeyPath : UInt512 -> list Z -> BRKey.
Variable BRKeySetPrivKey : string -> BRKey.
Variables Transaction Serialized : Type.
Variable rippleTransactionSerializeAndSign :
  Transaction -> BRKey -> BRKey -> Z -> Z -> Signing Transaction Serialized.

(** A caller that signs the transactions [ts] one after the other with
    [rippleAccountSignTransaction]; the value is what each call returned
    and the account at the end. *)
Fixpoint signInARow (account : BRRippleAccountRecord) (ts : list Transaction)
    (paperKey : string) : Outcome (list (option Serialized) * BRRippleAccountRecord) :=
  match ts with
  | [] => Returned ([], account)
  | t :: ts' =>
      match rippleAccountSignTransaction DEBUG BIP32_HARD BRBIP39DeriveKey
              BRBIP32PrivKeyPath BRKeySetPrivKey Transaction Serialized
              rippleTransactionSerializeAndSign (Some account) (Some t) (Some paperKey) with
      | Returned (s, account', _) =>
          match signInARow account' ts' paperKey with
          | Returned (l, account'') => Returned (s :: l, account'')
          | AssertionFailed => AssertionFailed
          end
      | AssertionFailed => AssertionFailed
      end
  end.

End SigningInARow.

(** The transactions that were signed, among the values returned. *)
Definition signedCount {Serialized} (l : list (option Serialized)) : Z :=
  Z.of_nat (length (List.filter (fun s : option Serialized =>
                                   match s with Some _ => true | None => false end) l)).

(** ** Observations on the encoding *)

(** A list of digits that does not start with a zero. *)
Definition noLeadingZero (l : list Z) : Prop :=
  match l with
  | [] => True
  | d :: _ => d <> 0
  end.

(** The base-58 digits that [encodeBase58Ripple] finds for [data] behind the
    leading zeros of [buf], and the string it makes of them. *)
Definition significantDigits (data : list Z) : list Z :=
  skipn (leadingZeros (encodeBase58Ripple_digits data)) (encodeBase58Ripple_digits data).

Definition encoded (data : list Z) : string :=
  String.string_of_list_ascii
    (repeat (charAt 0) (leadingZeros data) ++ map charAt (significantDigits data)).

(** A [BRRippleAddress]: an array of 20 bytes. *)
Definition isAddress (a : BRRippleAddress) : Prop :=
  length (bytes a) = 20%nat /\ Forall isByte (bytes a).

(** ** A sample account and a sample signer *)

(** The account id of the genesis account, and a stand-in for the hash. *)
Definition sampleAddress : BRRippleAddress :=
  {| bytes := [181; 247; 98; 121; 138; 83; 213; 67; 160; 20;
               202; 248; 178; 151; 207; 248; 242; 249; 55; 232] |}.

Definition sampleHash (input : list Z) : list Z :=
  repeat (Z.of_nat (length input) mod 256) 32.


Definition sampleKey : BRKey :=
  {| secret := 7; pubKey := [2; 3]; compressed := 1 |}.

Definition sampleAccount : BRRippleAccountRecord :=
  {| raw := {| bytes := [9; 9] |}; publicKey := sampleKey; index := 0;
     sequence := 41; lastLedgerSequence := 100 |}.

(** A signer that refuses a sequence number beyond the last ledger
    sequence. *)
Definition sampleSigner (t : unit) (k pk : BRKey) (s l : Z) : Signing unit (list Z) :=
  {| signedBytes := if l <? s then None else Some [s; l];
     transactionAfter := t;
     publicKeyAfter := pk |}.

End Ripple.

(** * Properties of the event handler *)

Module EventFacts.

Import Event.

(** ** Running the monad one call at a time *)

Lemma bind_Ok {A B} (m : M A) (k : A -> M B) w a w' :
  m w = Ok a w' -> bind m k w = k a w'.
Proof. intros H. unfold bind. now rewrite H. Qed.

Lemma bind_inv {A B} (m : M A) (k : A -> M B) w b w' :
  bind m k w = Ok b w' -> exists a w1, m w = Ok a w1 /\ k a w1 = Ok b w'.
Proof.
  unfold bind. destruct (m w) as [a w1| | |]; try discriminate.
  intros H. now exists a, w1.
Qed.

Lemma load_Ok h r w : handlers w !! h = Some r -> load h w = Ok r w.
Proof. intros H. unfold load. now rewrite H. Qed.

Lemma load_inv h r w w' : load h w = Ok r w' -> w' = w /\ handlers w !! h = Some r.
Proof.
  unfold load. destruct (handlers w !! h); [|discriminate].
  intros [= -> ->]. now split.
Qed.

Lemma modify_Ok h f r w :
  handlers w !! h = Some r ->
  modify h f w = Ok tt (set_handlers (<[h := f r]> (handlers w)) w).
Proof. intros H. unfold modify. now rewrite H. Qed.

Lemma lock_Ok h r w :
  handlers w !! h = Some r -> lock r = false ->
  pthread_mutex_lock h w =
  Ok tt (set_trace (trace w ++ [Call_pthread_mutex_lock h])
           (set_handlers (<[h := set_lock true r]> (handlers w)) w)).
Proof.
  intros H Hl. unfold pthread_mutex_lock.
  rewrite (bind_Ok _ _ _ _ _ (load_Ok _ _ _ H)), Hl.
  now rewrite (bind_Ok _ _ _ _ _ (modify_Ok _ _ _ _ H)).
Qed.

Lemma unlock_Ok h r w :
  handlers w !! h = Some r ->
  pthread_mutex_unlock h w =
  Ok tt (set_trace (trace w ++ [Call_pthread_mutex_unlock h])
           (set_handlers (<[h := set_lock false r]> (handlers w)) w)).
Proof.
  intros H. unfold pthread_mutex_unlock.
  now rewrite (bind_Ok _ _ _ _ _ (modify_Ok _ _ _ _ H)).
Qed.

(** The next call returns: rewrite the head of a [bind] with its result. *)
Ltac solve_lookup :=
  cbn;
  first [ eassumption
        | apply lookup_insert_eq
        | rewrite lookup_insert_ne by congruence; eassumption
        | match goal with
          | E : handlers ?w = _ |- handlers ?w !! _ = _ => rewrite E; apply lookup_insert_eq
          end
        | reflexivity ].
Ltac call lem := erewrite bind_Ok by (eapply lem; solve_lookup).
Ltac last_call lem := erewrite lem by solve_lookup.

Lemma unlock_after_lock (r : BREventHandlerRecord) :
  lock r = false -> set_lock false (set_lock true r) = r.
Proof. destruct r; cbn; now intros ->. Qed.

(** ** Worlds, field by field *)

Lemma world_ext (w1 w2 : World) :
  handlers w1 = handlers w2 -> threads w1 = threads w2 ->
  alarmClock w1 = alarmClock w2 -> nextAddress w1 = nextAddress w2 ->
  nextThread w1 = nextThread w2 -> trace w1 = trace w2 -> w1 = w2.
Proof. destruct w1, w2; cbn; intros; subst; reflexivity. Qed.

Lemma set_queue_same (r : BREventHandlerRecord) : set_queue (queue r) r = r.
Proof. now destruct r. Qed.

Lemma set_thread_same (r : BREventHandlerRecord) : set_thread (thread r) r = r.
Proof. now destruct r. Qed.

(** ** C7: the timeout period *)

Lemma uint_small m : 0 <= m <= UINT_MAX -> uint m = m.
Proof. intros H. unfold uint, UINT_MAX in *. apply Z.mod_small. lia. Qed.

Lemma long_small m : 0 <= m <= UINT_MAX -> long m = m.
Proof.
  intros H. unfold long, LONG_MAX, UINT_MAX in *.
  rewrite Z.mod_small by lia. lia.
Qed.

(** C7.  For every period [m] that an [unsigned int] holds,
    [eventHandlerSetTimeoutDispatcher] stores [tv_sec = m / 1000] and
    [tv_nsec = 1000000 * (m mod 1000)] (no step of the unsigned 32-bit
    computation wraps), so that [tv_sec * 1000 + tv_nsec / 1000000 = m];
    the context and the dispatcher are recorded on the handler's timeout
    type, whose name and size stay, and no other field changes. *)
Theorem setTimeoutDispatcher_stores_period h r w m dispatcher context :
  handlers w !! h = Some r -> lock r = false -> 0 <= m <= UINT_MAX ->
  exists w' r',
    eventHandlerSetTimeoutDispatcher h m dispatcher context w = Ok tt w'
    /\ handlers w' !! h = Some r'
    /\ timeout r' = {| tv_sec := m / 1000; tv_nsec := 1000000 * (m mod 1000) |}
    /\ tv_sec (timeout r') * 1000 + tv_nsec (timeout r') / 1000000 = m
    /\ timeoutContext r' = context
    /\ timeoutEventType r' =
         {| eventName := eventName (timeoutEventType r);
            eventSize := eventSize (timeoutEventType r);
            eventDispatcher := dispatcher |}
    /\ r' = set_timeoutRegistration (timeoutEventType r') context (timeout r') r.
Proof.
  intros H Hl Hm.
  assert (Hsec : 0 <= m / 1000 <= UINT_MAX).
  { unfold UINT_MAX in *. split; [apply Z.div_pos; lia|].
    apply Z.div_le_upper_bound; lia. }
  assert (Hmod : 0 <= m mod 1000 < 1000) by (apply Z.mod_pos_bound; lia).
  assert (Hns : 0 <= 1000000 * (m mod 1000) <= UINT_MAX) by (unfold UINT_MAX; lia).
  set (t := {| tv_sec := m / 1000; tv_nsec := 1000000 * (m mod 1000) |}).
  set (ty := {| eventName := eventName (timeoutEventType r);
                eventSize := eventSize (timeoutEventType r);
                eventDispatcher := dispatcher |}).
  exists (set_trace (trace w ++ [Call_pthread_mutex_lock h; Call_pthread_mutex_unlock h])
            (set_handlers (<[h := set_timeoutRegistration ty context t r]> (handlers w)) w)),
         (set_timeoutRegistration ty context t r).
  split.
  - unfold eventHandlerSetTimeoutDispatcher.
    call lock_Ok. call modify_Ok. last_call unlock_Ok.
    cbn. rewrite !insert_insert_eq, <- app_assoc. cbn.
    rewrite (uint_small m Hm), (uint_small _ Hsec), (uint_small _ Hns).
    rewrite (long_small _ Hsec), (long_small _ Hns).
    subst t ty. destruct r; cbn in *; subst; reflexivity.
  - cbn. rewrite lookup_insert_eq. repeat split.
    subst t; cbn.
    rewrite (Z.mul_comm 1000000), Z.div_mul by lia.
    pose proof (Z.div_mod m 1000 ltac:(lia)). lia.
Qed.

Lemma setTimeoutDispatcher_stores_period_witness :
  exists w' r',
    eventHandlerSetTimeoutDispatcher 1 1500 99 1234 createdWorld = Ok tt w'
    /\ handlers w' !! 1 = Some r'
    /\ timeout r' = {| tv_sec := 1500 / 1000; tv_nsec := 1000000 * (1500 mod 1000) |}
    /\ tv_sec (timeout r') * 1000 + tv_nsec (timeout r') / 1000000 = 1500
    /\ timeoutContext r' = 1234
    /\ timeoutEventType r' =
         {| eventName := eventName (timeoutEventType (recordAt 1 createdWorld));
            eventSize := eventSize (timeoutEventType (recordAt 1 createdWorld));
            eventDispatcher := 99 |}
    /\ r' = set_timeoutRegistration (timeoutEventType r') 1234 (timeout r')
              (recordAt 1 createdWorld).
Proof.
  apply (setTimeoutDispatcher_stores_period 1 (recordAt 1 createdWorld) createdWorld 1500 99 1234).
  - reflexivity.
  - reflexivity.
  - unfold UINT_MAX. lia.
Defined.

(** ** C5: what the worker does with each status *)

Lemma switch_success h r w f :
  handlers w !! h = Some r ->
  dispatcherOf (type (scratch r)) w = Ok f w -> f <> NULL ->
  eventHandlerThread_switch h EVENT_STATUS_SUCCESS w = Ok 0 (afterDispatch h r f w).
Proof.
  intros H Hf Hnull. unfold eventHandlerThread_switch, afterDispatch, lockOnDispatchCalls.
  call load_Ok.
  assert (Hfw : forall w1, handlers w1 = handlers w ->
                           dispatcherOf (type (scratch r)) w1 = Ok f w1).
  { intros w1 Hw1. revert Hf. unfold dispatcherOf.
    destruct (type (scratch r)); try discriminate.
    - unfold ret. now intros [= ->].
    - unfold bind, load, ret. rewrite Hw1.
      destruct (handlers w !! h0); [|discriminate]. now intros [= ->]. }
  assert (Hcall : forall w1, callDispatcher f h (scratch r) w1
                    = Ok tt (set_trace (trace w1 ++ [Call_eventDispatcher f h (scratch r)]) w1)).
  { intros w1. unfold callDispatcher. destruct (Z.eqb_spec f NULL); [contradiction|reflexivity]. }
  destruct (negb (lockOnDispatch r =? NULL)); cbn [app].
  - unfold bind at 1. cbn [emit]. unfold emit at 1.
    erewrite bind_Ok.
    2:{ erewrite bind_Ok by (apply Hfw; reflexivity). apply Hcall. }
    unfold bind, emit, ret. cbn. now rewrite <- !app_assoc.
  - unfold bind at 1, ret at 1.
    erewrite bind_Ok.
    2:{ erewrite bind_Ok by (apply Hfw; reflexivity). apply Hcall. }
    unfold bind, ret. cbn. reflexivity.
Qed.

(** The loop over the modelled queue and inert dispatchers is the loop of
    the model. *)
Lemma switch_with_inert h status w :
  eventHandlerThread_switch_with inertDispatcher h status w
  = eventHandlerThread_switch h status w.
Proof.
  destruct status; try reflexivity.
  unfold eventHandlerThread_switch_with, eventHandlerThread_switch,
    callDispatcher_with, callDispatcher, inertDispatcher, dispatcherOf,
    bind, load, emit, ret, fault.
  destruct (handlers w !! h) as [r|] eqn:E; [|reflexivity].
  destruct (negb (lockOnDispatch r =? NULL)) eqn:El; cbn [handlers set_trace];
    destruct (type (scratch r)) as [|t|h']; try reflexivity;
    cbn [handlers set_trace];
    try (destruct (handlers w !! h') as [r'|]; [|reflexivity]);
    match goal with
    | |- context [?f =? NULL] => destruct (f =? NULL); [reflexivity|]
    end;
    cbn [handlers set_trace]; rewrite E, El; reflexivity.
Qed.

Lemma loop_with_model h sched w :
  eventHandlerThread_loop_with dequeueWait inertDispatcher h sched w
  = eventHandlerThread_loop h sched w.
Proof.
  revert w. induction sched as [|i sched IH]; intros w; [reflexivity|].
  cbn [eventHandlerThread_loop_with eventHandlerThread_loop].
  assert (Hb : eventHandlerThread_body_with dequeueWait inertDispatcher h i w
               = eventHandlerThread_body h i w).
  { unfold eventHandlerThread_body_with, eventHandlerThread_body, bind.
    destruct (dequeueWait h i w); try reflexivity. apply switch_with_inert. }
  rewrite Hb. destruct (eventHandlerThread_body h i w) as [q w1| | |]; try reflexivity.
  destruct (q =? 0); [apply IH|reflexivity].
Qed.



(** ** The timeout types of the live handlers *)

Ltac inv_Ok :=
  let H := fresh in intros H; injection H as ? ?; subst.

Lemma constTypes_ret {A} (a : A) : constTypes (ret a).
Proof. intros w a' w'. unfold ret. inv_Ok; reflexivity. Qed.

Lemma constTypes_bind {A B} (m : M A) (k : A -> M B) :
  constTypes m -> (forall a, constTypes (k a)) -> constTypes (bind m k).
Proof.
  intros Hm Hk w b w' H. apply bind_inv in H as (a & w1 & H1 & H2).
  rewrite (Hk _ _ _ _ H2). now apply (Hm _ _ _ H1).
Qed.

Lemma constTypes_emit a : constTypes (emit a).
Proof. intros w u w'. unfold emit. inv_Ok; reflexivity. Qed.

Lemma constTypes_load h : constTypes (load h).
Proof. intros w r w' H. now apply load_inv in H as [-> _]. Qed.

Lemma constTypes_assert b : constTypes (assert b).
Proof. intros w u w'. unfold assert. destruct b; [|discriminate]. inv_Ok; reflexivity. Qed.

Lemma constTypes_fault {A} : constTypes (@fault A).
Proof. intros w a w'. discriminate. Qed.

Lemma constTypes_blocked {A} : constTypes (@blocked A).
Proof. intros w a w'. discriminate. Qed.

Lemma constTypes_modify h f :
  (forall r, timeoutEventType (f r) = timeoutEventType r) -> constTypes (modify h f).
Proof.
  intros Hf w u w'. unfold modify.
  destruct (handlers w !! h) as [r|] eqn:E; [|discriminate].
  inv_Ok. unfold typesOf. cbn.
  rewrite fmap_insert, Hf. apply insert_id. now rewrite lookup_fmap, E.
Qed.

Lemma constTypes_setThreadState tid s : constTypes (setThreadState tid s).
Proof. intros w u w'. unfold setThreadState. inv_Ok; reflexivity. Qed.

Lemma constTypes_alarmClockCreateIfNecessary n : constTypes (alarmClockCreateIfNecessary n).
Proof.
  intros w u w'. unfold alarmClockCreateIfNecessary.
  destruct (alarmClock w); inv_Ok; reflexivity.
Qed.

Lemma constTypes_alarmClockAddAlarmPeriodic c cb p :
  constTypes (alarmClockAddAlarmPeriodic c cb p).
Proof.
  intros w u w'. unfold alarmClockAddAlarmPeriodic.
  destruct (alarmClock w); [|discriminate]. inv_Ok; reflexivity.
Qed.

Lemma constTypes_alarmClockRemAlarm id : constTypes (alarmClockRemAlarm id).
Proof.
  intros w u w'. unfold alarmClockRemAlarm.
  destruct (alarmClock w); [|discriminate]. inv_Ok; reflexivity.
Qed.

Create HintDb ctypes discriminated.

#[local] Hint Resolve constTypes_ret constTypes_emit constTypes_load constTypes_assert
  constTypes_fault constTypes_blocked constTypes_setThreadState
  constTypes_alarmClockCreateIfNecessary constTypes_alarmClockAddAlarmPeriodic
  constTypes_alarmClockRemAlarm : ctypes.

Ltac const_types :=
  repeat first
    [ solve [auto 1 with ctypes nocore]
    | match goal with
      | |- constTypes (modify _ _) => apply constTypes_modify; intros ?; reflexivity
      | |- constTypes (bind _ _) => apply constTypes_bind; [|intros ?]
      | |- constTypes (if ?b then _ else _) => destruct b
      | |- constTypes (match ?x with _ => _ end) => destruct x
      end ].

Lemma constTypes_lock h : constTypes (pthread_mutex_lock h).
Proof. unfold pthread_mutex_lock. const_types. Qed.
#[local] Hint Resolve constTypes_lock : ctypes.

Lemma constTypes_unlock h : constTypes (pthread_mutex_unlock h).
Proof. unfold pthread_mutex_unlock. const_types. Qed.
#[local] Hint Resolve constTypes_unlock : ctypes.

Lemma constTypes_signalEvent h e : constTypes (eventHandlerSignalEvent h e).
Proof. unfold eventHandlerSignalEvent. const_types. Qed.
#[local] Hint Resolve constTypes_signalEvent : ctypes.

Lemma constTypes_signalEventOOB h e : constTypes (eventHandlerSignalEventOOB h e).
Proof. unfold eventHandlerSignalEventOOB. const_types. Qed.
#[local] Hint Resolve constTypes_signalEventOOB : ctypes.

Lemma constTypes_clear h : constTypes (eventHandlerClear h).
Proof. unfold eventHandlerClear. const_types. Qed.
#[local] Hint Resolve constTypes_clear : ctypes.

Lemma constTypes_alarmCallback h t : constTypes (eventHandlerAlarmCallback h t).
Proof.
  unfold eventHandlerAlarmCallback. const_types.
Qed.
#[local] Hint Resolve constTypes_alarmCallback : ctypes.

Lemma constTypes_alarmClockFire id t : constTypes (alarmClockFire id t).
Proof.
  intros w u w'. unfold alarmClockFire.
  destruct (alarmClock w) as [c|]; [|inv_Ok; reflexivity].
  destruct (findAlarm id c) as [a|]; [|inv_Ok; reflexivity].
  destruct (alarmCallback a); [|inv_Ok; reflexivity].
  apply constTypes_alarmCallback.
Qed.
#[local] Hint Resolve constTypes_alarmClockFire : ctypes.

Lemma constTypes_dequeueWait h i : constTypes (dequeueWait h i).
Proof.
  unfold dequeueWait. const_types.
Qed.
#[local] Hint Resolve constTypes_dequeueWait : ctypes.

Lemma constTypes_switch h status : constTypes (eventHandlerThread_switch h status).
Proof.
  unfold eventHandlerThread_switch, dispatcherOf, callDispatcher.
  destruct status; const_types.
Qed.
#[local] Hint Resolve constTypes_switch : ctypes.

Lemma constTypes_body h i : constTypes (eventHandlerThread_body h i).
Proof.
  unfold eventHandlerThread_body.
  apply constTypes_bind; [apply constTypes_dequeueWait | intros ?; apply constTypes_switch].
Qed.
#[local] Hint Resolve constTypes_body : ctypes.

Lemma constTypes_loop h sched : constTypes (eventHandlerThread_loop h sched).
Proof.
  induction sched as [|i sched IH]; cbn [eventHandlerThread_loop].
  - apply constTypes_ret.
  - intros w q w'.
    destruct (eventHandlerThread_body h i w) as [q1 w1| | |] eqn:E; try discriminate.
    + pose proof (constTypes_body h i _ _ _ E) as H1.
      destruct (q1 =? 0).
      * intros H. rewrite (IH _ _ _ H). exact H1.
      * inv_Ok. exact H1.
    + inv_Ok; reflexivity.
Qed.
#[local] Hint Resolve constTypes_loop : ctypes.

Lemma constTypes_prologue self h : constTypes (eventHandlerThread_prologue self h).
Proof.
  unfold eventHandlerThread_prologue.
  const_types.
Qed.
#[local] Hint Resolve constTypes_prologue : ctypes.

Lemma constTypes_epilogue h : constTypes (eventHandlerThread_epilogue h).
Proof.
  unfold eventHandlerThread_epilogue.
  const_types.
Qed.
#[local] Hint Resolve constTypes_epilogue : ctypes.

Lemma constTypes_resume tid h sched : constTypes (eventHandlerThread_resume tid h sched).
Proof.
  unfold eventHandlerThread_resume.
  apply constTypes_bind; [apply constTypes_loop|]. intros q.
  const_types.
Qed.
#[local] Hint Resolve constTypes_resume : ctypes.

Lemma constTypes_thread self h sched : constTypes (eventHandlerThread self h sched).
Proof.
  unfold eventHandlerThread.
  apply constTypes_bind; [apply constTypes_prologue|]. intros _.
  apply constTypes_resume.
Qed.
#[local] Hint Resolve constTypes_thread : ctypes.

Lemma constTypes_runThread tid sched : constTypes (runThread tid sched).
Proof.
  intros w b w'. unfold runThread.
  destruct (threads w !! tid) as [[h|h]|].
  - apply constTypes_thread.
  - apply constTypes_resume.
  - inv_Ok; reflexivity.
Qed.
#[local] Hint Resolve constTypes_runThread : ctypes.

Lemma constTypes_pthread_create h : constTypes (pthread_create h).
Proof.
  intros w u w'. unfold pthread_create. intros H.
  assert (Hc : constTypes (modify h (set_thread (Z.pos (nextThread w)));;
                           emit (Call_pthread_create (Z.pos (nextThread w)) h)))
    by const_types.
  now rewrite (Hc _ _ _ H).
Qed.
#[local] Hint Resolve constTypes_pthread_create : ctypes.

Lemma constTypes_start h : constTypes (eventHandlerStart h).
Proof.
  unfold eventHandlerStart.
  const_types.
Qed.
#[local] Hint Resolve constTypes_start : ctypes.

Lemma constTypes_cond_wait h sched : constTypes (pthread_cond_wait_threadExit h sched).
Proof.
  unfold pthread_cond_wait_threadExit.
  do 3 (apply constTypes_bind; [const_types|intros ?]).
  apply constTypes_bind; [apply constTypes_runThread|intros ?].
  const_types.
Qed.
#[local] Hint Resolve constTypes_cond_wait : ctypes.

Lemma constTypes_stop h sched : constTypes (eventHandlerStop h sched).
Proof.
  unfold eventHandlerStop.
  const_types.
Qed.
#[local] Hint Resolve constTypes_stop : ctypes.

Lemma constTypes_isRunning h : constTypes (eventHandlerIsRunning h).
Proof.
  unfold eventHandlerIsRunning.
  const_types.
Qed.
#[local] Hint Resolve constTypes_isRunning : ctypes.

Lemma constTypes_isCurrentThread self h : constTypes (eventHandlerIsCurrentThread self h).
Proof.
  unfold eventHandlerIsCurrentThread.
  const_types.
Qed.
#[local] Hint Resolve constTypes_isCurrentThread : ctypes.

Lemma constTypes_keepsTypes {A} (m : M A) : constTypes m -> keepsTypes m.
Proof. intros H w a w' E. now rewrite (H _ _ _ E). Qed.

Lemma keepsTypes_bind {A B} (m : M A) (k : A -> M B) :
  keepsTypes m -> (forall a, keepsTypes (k a)) -> keepsTypes (bind m k).
Proof.
  intros Hm Hk w b w' H. apply bind_inv in H as (a & w1 & H1 & H2).
  etransitivity; [apply (Hk _ _ _ _ H2)|apply (Hm _ _ _ H1)].
Qed.

Lemma keepsTypes_free h : keepsTypes (free h).
Proof.
  intros w u w'. unfold free. destruct (handlers w !! h); [|discriminate].
  inv_Ok. unfold typesOf. cbn. rewrite fmap_delete. apply delete_subseteq.
Qed.

Lemma keepsTypes_kill h : keepsTypes (eventHandlerDestroy_kill h).
Proof.
  unfold eventHandlerDestroy_kill.
  repeat (apply keepsTypes_bind;
          [apply constTypes_keepsTypes;
           first [apply constTypes_lock | apply constTypes_unlock | const_types]
          |intros ?]).
  apply keepsTypes_free.
Qed.

Lemma keepsTypes_perform op : keepsTypes (perform op).
Proof.
  destruct op; cbn [perform].
  - apply constTypes_keepsTypes, constTypes_start.
  - apply constTypes_keepsTypes, constTypes_stop.
  - apply keepsTypes_bind; [apply constTypes_keepsTypes, constTypes_stop|].
    intros _. apply keepsTypes_kill.
  - apply constTypes_keepsTypes.
    apply constTypes_bind; [apply constTypes_signalEvent|intros ?; apply constTypes_ret].
  - apply constTypes_keepsTypes.
    apply constTypes_bind; [apply constTypes_signalEventOOB|intros ?; apply constTypes_ret].
  - apply constTypes_keepsTypes, constTypes_clear.
  - apply constTypes_keepsTypes.
    apply constTypes_bind; [apply constTypes_isRunning|intros ?; apply constTypes_ret].
  - apply constTypes_keepsTypes.
    apply constTypes_bind; [apply constTypes_isCurrentThread|intros ?; apply constTypes_ret].
  - apply constTypes_keepsTypes, constTypes_alarmClockFire.
  - apply constTypes_keepsTypes.
    apply constTypes_bind; [apply constTypes_runThread|intros ?; apply constTypes_ret].
Qed.

(** ** C6: the size of the event slots *)

Lemma create_loop_spec suffix : forall pre acc,
  eventHandlerCreate_loop (pre ++ suffix) (length pre) (length suffix) acc
  = Some (largestSize suffix acc).
Proof.
  induction suffix as [|t suffix IH]; intros pre acc; cbn [length eventHandlerCreate_loop].
  - reflexivity.
  - rewrite nth_error_app2, Nat.sub_diag by lia. cbn [nth_error].
    replace (pre ++ t :: suffix) with ((pre ++ [t]) ++ suffix)
      by now rewrite <- app_assoc.
    replace (S (length pre)) with (length (pre ++ [t]))
      by (rewrite length_app; cbn; lia).
    rewrite IH. cbn [largestSize fold_left]. do 2 f_equal.
    destruct (Z.ltb_spec acc (eventSize t)); lia.
Qed.

Lemma largestSize_ge types : forall acc, acc <= largestSize types acc.
Proof.
  induction types as [|t types IH]; intros acc; cbn; [lia|].
  etransitivity; [|apply IH]. lia.
Qed.

Lemma largestSize_mono types : forall a b, a <= b -> largestSize types a <= largestSize types b.
Proof.
  induction types as [|t types IH]; intros a b Hab; cbn; [lia|].
  apply IH. lia.
Qed.

Lemma largestSize_bounds types : forall acc,
  Forall (fun t => eventSize t <= largestSize types acc) types.
Proof.
  induction types as [|t types IH]; intros acc; constructor.
  - cbn. etransitivity; [|apply largestSize_ge]. lia.
  - apply IH.
Qed.

Lemma largestSize_attained types : forall acc,
  In (largestSize types acc) (acc :: map eventSize types).
Proof.
  induction types as [|t types IH]; intros acc; cbn; [now left|].
  destruct (IH (Z.max acc (eventSize t))) as [H|H].
  - destruct (Z.max_spec acc (eventSize t)) as [[_ E]|[_ E]]; rewrite E in *; auto.
  - auto.
Qed.

(** C6.  [eventHandlerCreate], given [typesCount] types, returns a new
    handler whose event size is the largest among [sizeof (BREventTimeout)]
    and the sizes of the types: it is one of these sizes and none of them
    exceeds it, so it is at least [sizeof (BREventTimeout)], and it is
    [sizeof (BREventTimeout)] for the empty list.  The queue's slots have
    that size.  The timeout type is named "Timeout Event" and has no
    dispatcher, whatever the list of types holds; and no operation on an
    existing handler other than [eventHandlerSetTimeoutDispatcher] changes
    the timeout type of a handler. *)
Theorem create_sizes_slot_for_largest_event sizeof name types lockOnDispatch w :
  exists w' r,
    eventHandlerCreate sizeof name types (Z.of_nat (length types)) lockOnDispatch w
    = Ok (Z.pos (nextAddress w)) w'
    /\ handlers w' !! Z.pos (nextAddress w) = Some r
    /\ handlerEventSize r = largestSize types sizeof
    /\ In (handlerEventSize r) (sizeof :: map eventSize types)
    /\ sizeof <= handlerEventSize r
    /\ Forall (fun t => eventSize t <= handlerEventSize r) types
    /\ (types = [] -> handlerEventSize r = sizeof)
    /\ slotSize (queue r) = handlerEventSize r
    /\ timeoutEventType r =
         {| eventName := "Timeout Event"; eventSize := sizeof; eventDispatcher := NULL |}
    /\ (forall op w1 w2 a r1 r2,
          perform op w1 = Ok tt w2 ->
          handlers w1 !! a = Some r1 -> handlers w2 !! a = Some r2 ->
          timeoutEventType r2 = timeoutEventType r1).
Proof.
  unfold eventHandlerCreate. cbn [eventSize].
  rewrite Nat2Z.id.
  pose proof (create_loop_spec types [] sizeof) as Hloop. cbn [app length] in Hloop.
  rewrite Hloop. unfold calloc.
  eexists _, _. split; [reflexivity|]. cbn.
  rewrite lookup_insert_eq. split; [reflexivity|]. cbn.
  repeat split.
  - apply largestSize_attained.
  - apply largestSize_ge.
  - apply largestSize_bounds.
  - now intros ->.
  - intros op w1 w2 a r1 r2 Hop H1 H2.
    pose proof (keepsTypes_perform op _ _ _ Hop) as Hsub.
    assert (E2 : typesOf w2 !! a = Some (timeoutEventType r2))
      by (unfold typesOf; now rewrite lookup_fmap, H2).
    assert (E1 : typesOf w1 !! a = Some (timeoutEventType r1))
      by (unfold typesOf; now rewrite lookup_fmap, H1).
    eapply lookup_weaken in E2; [|exact Hsub]. congruence.
Qed.

(** ** C4: start on a running handler, stop on a stopped one *)

Lemma stop_stopped h r w sched :
  handlers w !! h = Some r -> lock r = false -> thread r = PTHREAD_NULL ->
  eventHandlerStop h sched w =
  Ok tt (set_trace (trace w ++ [Call_pthread_mutex_lock h; Call_pthread_mutex_unlock h]) w).
Proof.
  intros H Hl Ht. unfold eventHandlerStop.
  call lock_Ok.
  erewrite bind_Ok.
  2:{ call load_Ok. cbn [thread set_lock]. rewrite Ht. reflexivity. }
  last_call unlock_Ok. f_equal. apply world_ext; cbn; auto.
  - rewrite insert_insert_eq, unlock_after_lock by assumption. now apply insert_id.
  - now rewrite <- app_assoc.
Qed.

(** C4.  [eventHandlerStart] on a handler whose worker thread is recorded
    returns with every handler record as it was (types, event size, queue,
    timeout registration, alarm id, thread handle, lock), creates no thread
    and arms no alarm; [eventHandlerStop] on a handler without a recorded
    worker thread returns with every handler record, the threads and the
    alarm clock as they were. *)
Theorem start_stop_idempotent h r w sched :
  handlers w !! h = Some r -> lock r = false ->
  (thread r <> PTHREAD_NULL ->
   exists w', eventHandlerStart h w = Ok tt w'
              /\ handlers w' !! h = Some r
              /\ handlers w' = handlers w
              /\ threads w' = threads w
              /\ armedAlarms w' = armedAlarms w)
  /\ (thread r = PTHREAD_NULL ->
      exists w', eventHandlerStop h sched w = Ok tt w'
                 /\ handlers w' !! h = Some r
                 /\ handlers w' = handlers w
                 /\ threads w' = threads w
                 /\ alarmClock w' = alarmClock w).
Proof.
  intros H Hl.
  assert (Hback : <[h := set_lock false (set_lock true r)]>
                    (<[h := set_lock true r]> (handlers w)) = handlers w).
  { rewrite insert_insert_eq, unlock_after_lock by assumption. now apply insert_id. }
  split; intros Ht.
  - unfold eventHandlerStart, alarmClockCreateIfNecessary.
    unfold bind at 1.
    set (w1 := match alarmClock w with
               | Some _ => w
               | None => set_alarmClock (Some {| alarms := []; nextAlarmId := 1 |}) w
               end).
    assert (Hw1 : handlers w1 = handlers w /\ threads w1 = threads w
                  /\ armedAlarms w1 = armedAlarms w /\ trace w1 = trace w).
    { subst w1. unfold armedAlarms. destruct (alarmClock w) eqn:E; cbn; rewrite ?E; auto. }
    destruct Hw1 as (Hh1 & Ht1 & Ha1 & Htr1).
    replace (match alarmClock w with
             | Some _ => Ok tt w
             | None => Ok tt (set_alarmClock (Some {| alarms := []; nextAlarmId := 1 |}) w)
             end) with (Ok tt w1) by (subst w1; now destruct (alarmClock w)).
    assert (H1 : handlers w1 !! h = Some r) by now rewrite Hh1.
    call lock_Ok.
    erewrite bind_Ok.
    2:{ call load_Ok. cbn [thread set_lock].
        destruct (Z.eqb_spec PTHREAD_NULL (thread r)) as [E|_]; [exfalso; congruence|].
        reflexivity. }
    last_call unlock_Ok.
    eexists. split; [reflexivity|]. cbn.
    rewrite Hh1, Hback. auto.
  - rewrite (stop_stopped h r w sched H Hl Ht).
    eexists. split; [reflexivity|]. cbn. auto.
Qed.

Lemma start_stop_idempotent_witness :
  (exists w', eventHandlerStart 1 startedWorld = Ok tt w'
              /\ handlers w' !! 1 = Some (recordAt 1 startedWorld)
              /\ handlers w' = handlers startedWorld
              /\ threads w' = threads startedWorld
              /\ armedAlarms w' = armedAlarms startedWorld)
  /\ (exists w', eventHandlerStop 1 [false] createdWorld = Ok tt w'
                 /\ handlers w' !! 1 = Some (recordAt 1 createdWorld)
                 /\ handlers w' = handlers createdWorld
                 /\ threads w' = threads createdWorld
                 /\ alarmClock w' = alarmClock createdWorld).
Proof.
  split.
  - apply (start_stop_idempotent 1 (recordAt 1 startedWorld) startedWorld []).
    + reflexivity.
    + reflexivity.
    + vm_compute. discriminate.
  - apply (start_stop_idempotent 1 (recordAt 1 createdWorld) createdWorld [false]).
    + reflexivity.
    + reflexivity.
    + reflexivity.
Defined.

Lemma createIfNecessary_Ok n w :
  alarmClockCreateIfNecessary n w = Ok tt (set_alarmClock (Some (clockOf w)) w).
Proof.
  unfold alarmClockCreateIfNecessary, clockOf.
  destruct (alarmClock w) eqn:E; f_equal.
  apply world_ext; cbn; auto.
Qed.

Lemma addAlarm_Ok ctx cb p c w :
  alarmClock w = Some c ->
  alarmClockAddAlarmPeriodic ctx cb p w =
  Ok (Z.pos (nextAlarmId c))
     (set_trace (trace w ++ [Call_alarmClockAddAlarmPeriodic (Z.pos (nextAlarmId c))])
        (set_alarmClock
           (Some {| alarms := alarms c ++
                      [{| alarmId := Z.pos (nextAlarmId c); alarmContext := ctx;
                          alarmCallback := cb; alarmPeriod := p |}];
                    nextAlarmId := Pos.succ (nextAlarmId c) |}) w)).
Proof. intros E. unfold alarmClockAddAlarmPeriodic. now rewrite E. Qed.

Lemma remAlarm_Ok id c w :
  alarmClock w = Some c ->
  alarmClockRemAlarm id w =
  Ok tt (set_trace (trace w ++ [Call_alarmClockRemAlarm id])
           (set_alarmClock
              (Some {| alarms := List.filter (fun a => negb (alarmId a =? id)) (alarms c);
                       nextAlarmId := nextAlarmId c |}) w)).
Proof. intros E. unfold alarmClockRemAlarm. now rewrite E. Qed.

Lemma pthread_create_Ok h r w :
  handlers w !! h = Some r ->
  pthread_create h w =
  Ok tt {| handlers := <[h := set_thread (Z.pos (nextThread w)) r]> (handlers w);
           threads := <[Z.pos (nextThread w) := AtEntry h]> (threads w);
           alarmClock := alarmClock w; nextAddress := nextAddress w;
           nextThread := Pos.succ (nextThread w);
           trace := trace w ++ [Call_pthread_create (Z.pos (nextThread w)) h] |}.
Proof.
  intros H. unfold pthread_create.
  call modify_Ok. reflexivity.
Qed.

(** ** Starting a stopped handler *)

Lemma find_new_alarm (l : list BREventAlarm) (a : BREventAlarm) :
  forallb (fun b => alarmId b <? alarmId a) l = true ->
  List.find (fun b => alarmId b =? alarmId a) (l ++ [a]) = Some a.
Proof.
  induction l as [|b l IH]; cbn.
  - now rewrite Z.eqb_refl.
  - intros H. apply andb_prop in H as [Hb Hl].
    apply Z.ltb_lt in Hb. destruct (Z.eqb_spec (alarmId b) (alarmId a)); [lia|].
    now apply IH.
Qed.

Lemma clockOf_wellFormed w :
  clockWellFormed w = true ->
  forallb (fun a => alarmId a <? Z.pos (nextAlarmId (clockOf w))) (alarms (clockOf w)) = true.
Proof.
  unfold clockWellFormed, clockOf. now destruct (alarmClock w).
Qed.

Lemma armedAlarms_clockOf w : alarms (clockOf w) = armedAlarms w.
Proof. unfold clockOf, armedAlarms. now destruct (alarmClock w). Qed.

(** What [eventHandlerStart] does to a stopped handler. *)
Lemma start_stopped h r w :
  stopped w h r ->
  let tid := Z.pos (nextThread w) in
  let id := Z.pos (nextAlarmId (clockOf w)) in
  let registered := negb (NULL =? eventDispatcher (timeoutEventType r)) in
  exists w',
    eventHandlerStart h w = Ok tt w'
    /\ handlers w' =
       <[h := set_thread tid (if registered then set_timeoutAlarmId id r else r)]> (handlers w)
    /\ threads w' = <[tid := AtEntry h]> (threads w)
    /\ alarmClock w' =
       Some (if registered
             then {| alarms := armedAlarms w ++ [timeoutAlarm id h (timeout r)];
                     nextAlarmId := Pos.succ (nextAlarmId (clockOf w)) |}
             else clockOf w)
    /\ trace w' =
       trace w ++ [Call_pthread_mutex_lock h]
               ++ (if registered then [Call_alarmClockAddAlarmPeriodic id] else [])
               ++ [Call_pthread_create tid h; Call_pthread_mutex_unlock h].
Proof.
  intros (H & Hl & Ht) tid id registered.
  unfold eventHandlerStart.
  rewrite (bind_Ok _ _ _ _ _ (createIfNecessary_Ok 1 w)).
  call lock_Ok.
  destruct registered eqn:Hreg; subst registered.
  - erewrite bind_Ok.
    2:{ call load_Ok. cbn [thread set_lock timeoutEventType timeout]. rewrite Ht, Hreg.
        cbn [Z.eqb PTHREAD_NULL NULL].
        erewrite bind_Ok.
        2:{ erewrite bind_Ok by (apply addAlarm_Ok; reflexivity).
            eapply modify_Ok. solve_lookup. }
        eapply pthread_create_Ok. solve_lookup. }
    last_call unlock_Ok.
    eexists. split; [reflexivity|]. cbn.
    rewrite !insert_insert_eq, <- !app_assoc, armedAlarms_clockOf.
    repeat split. f_equal. destruct r; cbn in *; now subst.
  - erewrite bind_Ok.
    2:{ call load_Ok. cbn [thread set_lock timeoutEventType timeout]. rewrite Ht, Hreg.
        cbn [Z.eqb PTHREAD_NULL NULL].
        unfold bind at 1, ret at 1.
        eapply pthread_create_Ok. solve_lookup. }
    last_call unlock_Ok.
    eexists. split; [reflexivity|]. cbn.
    rewrite !insert_insert_eq, <- !app_assoc.
    repeat split. f_equal. destruct r; cbn in *; now subst.
Qed.

(** What a firing of the timeout alarm of the handler at [h] does. *)
Lemma fire_timeout_alarm id h p expiration r w :
  armed w id = Some (timeoutAlarm id h p) ->
  handlers w !! h = Some r ->
  alarmClockFire id expiration w =
  Ok tt (set_trace (trace w ++ [Call_eventQueueEnqueueHeadSignal h (timeoutEvent h r expiration)])
           (set_handlers
              (<[h := set_queue (eventQueueEnqueueHeadSignal (queue r)
                                   (timeoutEvent h r expiration)) r]> (handlers w)) w)).
Proof.
  unfold armed, alarmClockFire. intros Ha H.
  destruct (alarmClock w) as [c|]; [|discriminate]. rewrite Ha. cbn.
  unfold eventHandlerAlarmCallback.
  call load_Ok. unfold eventHandlerSignalEventOOB.
  erewrite bind_Ok.
  2:{ call modify_Ok. unfold bind, emit, ret. reflexivity. }
  reflexivity.
Qed.

(** C8.  On a handler without a recorded worker thread,
    [eventHandlerStart] arms a periodic alarm exactly when the timeout
    type has a dispatcher: with one, a new alarm is armed whose context is
    the handler, whose callback is [eventHandlerAlarmCallback] and whose
    period is the registered one, and its id (not [ALARM_ID_NONE]) is kept
    in [timeoutAlarmId]; without one, the armed alarms and the alarm id are
    as before.  Whenever the alarm clock fires such an alarm, a timeout
    event whose type is the handler's own timeout type and whose context is
    the handler's timeout context is put at the end of the head lane of
    that handler's queue, through [eventHandlerSignalEventOOB]; the tail
    lane and all other handlers are left alone. *)
Theorem start_arms_timeout_alarm h r w :
  stopped w h r -> clockWellFormed w = true ->
  exists w' r',
    eventHandlerStart h w = Ok tt w'
    /\ handlers w' !! h = Some r'
    /\ (eventDispatcher (timeoutEventType r) <> NULL ->
        exists id,
          id <> ALARM_ID_NONE
          /\ timeoutAlarmId r' = id
          /\ armedAlarms w' = armedAlarms w ++ [timeoutAlarm id h (timeout r)]
          /\ armed w' id = Some (timeoutAlarm id h (timeout r)))
    /\ (eventDispatcher (timeoutEventType r) = NULL ->
        armedAlarms w' = armedAlarms w /\ timeoutAlarmId r' = timeoutAlarmId r)
    /\ (forall w2 r2 id p expiration,
          armed w2 id = Some (timeoutAlarm id h p) ->
          handlers w2 !! h = Some r2 ->
          exists w3,
            alarmClockFire id expiration w2 = Ok tt w3
            /\ handlers w3 =
               <[h := set_queue
                        {| slotSize := slotSize (queue r2);
                           headLane := headLane (queue r2) ++ [timeoutEvent h r2 expiration];
                           tailLane := tailLane (queue r2);
                           abort := abort (queue r2) |} r2]> (handlers w2)
            /\ type (timeoutEvent h r2 expiration) = TypeTimeoutOf h
            /\ payload (timeoutEvent h r2 expiration)
               = PayloadTimeout (timeoutContext r2) expiration
            /\ trace w3 =
               trace w2 ++ [Call_eventQueueEnqueueHeadSignal h (timeoutEvent h r2 expiration)]).
Proof.
  intros Hs Hwf.
  destruct (start_stopped h r w Hs) as (w' & Hstart & Hh & _ & Hc & _).
  cbv zeta in *.
  eexists w', _. split; [exact Hstart|].
  split; [rewrite Hh; apply lookup_insert_eq|].
  split; [|split].
  - intros Hd.
    destruct (Z.eqb_spec NULL (eventDispatcher (timeoutEventType r))) as [E|_];
      [exfalso; congruence|].
    cbn [negb] in *.
    exists (Z.pos (nextAlarmId (clockOf w))).
    split; [discriminate|]. split; [reflexivity|].
    unfold armedAlarms at 1, armed. rewrite Hc. cbn [alarms]. split; [reflexivity|].
    unfold findAlarm. cbn [alarms].
    apply (find_new_alarm (armedAlarms w)
             (timeoutAlarm (Z.pos (nextAlarmId (clockOf w))) h (timeout r))).
    rewrite <- armedAlarms_clockOf. now apply clockOf_wellFormed.
  - intros Hd. rewrite Hd in *. cbn [Z.eqb NULL negb] in *.
    unfold armedAlarms at 1. rewrite Hc. split; [apply armedAlarms_clockOf|reflexivity].
  - intros w2 r2 id p expiration Ha H2.
    eexists. split; [exact (fire_timeout_alarm id h p expiration r2 w2 Ha H2)|].
    cbn. auto.
Qed.

Lemma start_arms_timeout_alarm_witness :
  exists w' r',
    eventHandlerStart 1 registeredWorld = Ok tt w'
    /\ handlers w' !! 1 = Some r'
    /\ timeoutAlarmId r' = 1
    /\ armedAlarms w' = [timeoutAlarm 1 1 {| tv_sec := 1; tv_nsec := 500000000 |}]
    /\ exists w3,
         alarmClockFire 1 {| tv_sec := 10; tv_nsec := 0 |} w' = Ok tt w3
         /\ trace w3 =
            trace w' ++ [Call_eventQueueEnqueueHeadSignal 1
                           {| next := NULL; type := TypeTimeoutOf 1;
                              payload := PayloadTimeout 1234 {| tv_sec := 10; tv_nsec := 0 |} |}].
Proof.
  destruct (start_arms_timeout_alarm 1 (recordAt 1 registeredWorld) registeredWorld)
    as (w' & r' & E & Hr' & Harm & _ & Hfire).
  - repeat split; reflexivity.
  - reflexivity.
  - assert (Hw : w' = startedWorld).
    { assert (E' : Ok tt w' = Ok tt startedWorld) by (rewrite <- E; reflexivity).
      now injection E'. }
    subst w'.
    assert (Hr : r' = recordAt 1 startedWorld).
    { assert (E' : Some r' = Some (recordAt 1 startedWorld)) by (rewrite <- Hr'; reflexivity).
      now injection E'. }
    subst r'.
    destruct Harm as (id & _ & Hid & Hal & Ha); [vm_compute; discriminate|].
    vm_compute in Hid. subst id.
    exists startedWorld, (recordAt 1 startedWorld).
    split; [exact E|]. split; [exact Hr'|]. split; [reflexivity|].
    split; [exact Hal|].
    destruct (Hfire startedWorld (recordAt 1 startedWorld) 1 _
                {| tv_sec := 10; tv_nsec := 0 |} Ha Hr')
      as (w3 & E3 & _ & _ & _ & Htr).
    exists w3. split; [exact E3|exact Htr].
Defined.

(** ** Stopping a running handler *)

(** With the abort flag set the loop is left at once, and nothing has
    changed. *)
Lemma loop_abort h r w i sched :
  handlers w !! h = Some r -> abort (queue r) = true ->
  eventHandlerThread_loop h (i :: sched) w = Ok 1 w.
Proof.
  intros H Ha. cbn [eventHandlerThread_loop].
  unfold eventHandlerThread_body, dequeueWait.
  erewrite bind_Ok.
  2:{ call load_Ok. unfold eventQueueDequeueWait. rewrite Ha.
      call modify_Ok. reflexivity. }
  cbn. f_equal. apply world_ext; cbn; auto.
  rewrite set_queue_same. now apply insert_id.
Qed.

Lemma prologue_Ok self h r w :
  handlers w !! h = Some r -> lock r = false -> thread r <> PTHREAD_NULL ->
  eventHandlerThread_prologue self h w =
  Ok tt (set_trace (trace w ++ [Call_pthread_mutex_lock h; Call_pthread_mutex_unlock h]) w).
Proof.
  intros H Hl Ht. unfold eventHandlerThread_prologue.
  call lock_Ok.
  erewrite bind_Ok.
  2:{ call load_Ok. cbn [thread set_lock].
      destruct (Z.eqb_spec PTHREAD_NULL (thread r)) as [E|_]; [exfalso; congruence|].
      reflexivity. }
  last_call unlock_Ok. f_equal. apply world_ext; cbn; auto.
  - rewrite insert_insert_eq, unlock_after_lock by assumption. now apply insert_id.
  - now rewrite <- app_assoc.
Qed.

Lemma epilogue_Ok h r w :
  handlers w !! h = Some r -> lock r = false -> thread r <> PTHREAD_NULL ->
  eventHandlerThread_epilogue h w =
  Ok tt (set_trace (trace w ++ [Call_pthread_mutex_lock h; Call_pthread_cond_signal h;
                                Call_pthread_mutex_unlock h])
           (set_handlers (<[h := set_thread PTHREAD_NULL r]> (handlers w)) w)).
Proof.
  intros H Hl Ht. unfold eventHandlerThread_epilogue.
  call lock_Ok.
  erewrite bind_Ok.
  2:{ call load_Ok. cbn [thread set_lock].
      destruct (Z.eqb_spec PTHREAD_NULL (thread r)) as [E|_]; [exfalso; congruence|].
      cbn [negb]. eapply modify_Ok. solve_lookup. }
  erewrite bind_Ok by reflexivity.
  last_call unlock_Ok. f_equal. apply world_ext; cbn; auto.
  - rewrite !insert_insert_eq. f_equal. destruct r; cbn in *; now subst.
  - now rewrite <- !app_assoc.
Qed.

(** The worker of a running handler, let run once the wait is aborted,
    returns: it clears the thread handle and signals [threadExit]. *)
Lemma worker_exits h r w s i sched :
  handlers w !! h = Some r -> lock r = false -> thread r <> PTHREAD_NULL ->
  abort (queue r) = true ->
  threads w !! thread r = Some s -> (s = AtEntry h \/ s = InLoop h) ->
  exists w',
    runThread (thread r) (i :: sched) w = Ok true w'
    /\ handlers w' = <[h := set_thread PTHREAD_NULL r]> (handlers w)
    /\ threads w' = delete (thread r) (threads w)
    /\ alarmClock w' = alarmClock w
    /\ trace w' = trace w ++ threadExitCalls s h.
Proof.
  intros H Hl Ht Ha Hs Hcase. unfold runThread. rewrite Hs.
  assert (Hresume : forall w1, handlers w1 = handlers w ->
            eventHandlerThread_resume (thread r) h (i :: sched) w1 =
            Ok true (set_threads (delete (thread r) (threads w1))
                       (set_trace (trace w1 ++ [Call_pthread_mutex_lock h;
                                                Call_pthread_cond_signal h;
                                                Call_pthread_mutex_unlock h])
                          (set_handlers (<[h := set_thread PTHREAD_NULL r]> (handlers w1)) w1)))).
  { intros w1 Hw1. unfold eventHandlerThread_resume.
    assert (H1 : handlers w1 !! h = Some r) by now rewrite Hw1.
    rewrite (bind_Ok _ _ _ _ _ (loop_abort h r w1 i sched H1 Ha)).
    cbn [Z.eqb].
    rewrite (bind_Ok _ _ _ _ _ (epilogue_Ok h r w1 H1 Hl Ht)).
    reflexivity. }
  destruct Hcase as [-> | ->].
  - unfold eventHandlerThread.
    rewrite (bind_Ok _ _ _ _ _ (prologue_Ok (thread r) h r w H Hl Ht)).
    rewrite Hresume by reflexivity.
    eexists. split; [reflexivity|]. cbn. rewrite <- app_assoc. auto.
  - rewrite Hresume by reflexivity.
    eexists. split; [reflexivity|]. cbn. auto.
Qed.

(** While the lock is held the worker cannot exit: it stops at the lock of
    its prologue or of its epilogue. *)
Lemma worker_waits_for_lock h r w s i sched :
  handlers w !! h = Some r -> lock r = true -> abort (queue r) = true ->
  threads w !! thread r = Some s -> (s = AtEntry h \/ s = InLoop h) ->
  runThread (thread r) (i :: sched) w = Blocked.
Proof.
  intros H Hl Ha Hs Hcase. unfold runThread. rewrite Hs.
  assert (Hlock : forall A (k : unit -> M A), bind (pthread_mutex_lock h) k w = Blocked).
  { intros A k. unfold bind at 1, pthread_mutex_lock.
    rewrite (bind_Ok _ _ _ _ _ (load_Ok _ _ _ H)), Hl. reflexivity. }
  assert (Hresume : eventHandlerThread_resume (thread r) h (i :: sched) w = Blocked).
  { unfold eventHandlerThread_resume.
    rewrite (bind_Ok _ _ _ _ _ (loop_abort h r w i sched H Ha)). cbn [Z.eqb].
    unfold bind at 1, eventHandlerThread_epilogue. now rewrite Hlock. }
  destruct Hcase as [-> | ->]; [|exact Hresume].
  unfold eventHandlerThread, bind at 1, eventHandlerThread_prologue. now rewrite Hlock.
Qed.

(** The removal of the timeout alarm at the start of [eventHandlerStop]. *)
Lemma stop_removes_alarm h r0 r w :
  handlers w !! h = Some r ->
  timeoutAlarmId r = timeoutAlarmId r0 ->
  (timeoutAlarmId r0 = ALARM_ID_NONE \/ alarmClock w <> None) ->
  exists w',
    (if negb (ALARM_ID_NONE =? timeoutAlarmId r)
     then alarmClockRemAlarm (timeoutAlarmId r);; modify h (set_timeoutAlarmId ALARM_ID_NONE)
     else ret tt) w = Ok tt w'
    /\ handlers w' = <[h := set_timeoutAlarmId ALARM_ID_NONE r]> (handlers w)
    /\ threads w' = threads w
    /\ armedAlarms w' = alarmsAfterStop r0 w
    /\ trace w' = trace w ++ (if negb (ALARM_ID_NONE =? timeoutAlarmId r0)
                              then [Call_alarmClockRemAlarm (timeoutAlarmId r0)] else []).
Proof.
  intros H Hid Hclock. unfold alarmsAfterStop. rewrite Hid.
  destruct (Z.eqb_spec ALARM_ID_NONE (timeoutAlarmId r0)) as [E|E]; cbn [negb].
  - eexists. split; [reflexivity|]. rewrite app_nil_r. repeat split.
    symmetry. apply insert_id. rewrite H. f_equal.
    destruct r; cbn in *. unfold set_timeoutAlarmId; cbn. f_equal. congruence.
  - destruct Hclock as [Hn|Hc]; [exfalso; congruence|].
    destruct (alarmClock w) as [c|] eqn:Ec; [|contradiction].
    rewrite (bind_Ok _ _ _ _ _ (remAlarm_Ok _ c w Ec)).
    last_call modify_Ok.
    eexists. split; [reflexivity|]. cbn. unfold armedAlarms. cbn. rewrite Ec. auto.
Qed.

(** What [eventHandlerStop] does to a running handler, provided the worker
    thread gets to run at least one turn. *)
Lemma stop_running h r w s i sched :
  running w h r -> threads w !! thread r = Some s ->
  exists w',
    eventHandlerStop h (i :: sched) w = Ok tt w'
    /\ handlers w' = <[h := stoppedRecord r]> (handlers w)
    /\ threads w' = delete (thread r) (threads w)
    /\ armedAlarms w' = alarmsAfterStop r w
    /\ trace w' = trace w ++ stopCalls h r s.
Proof.
  intros (H & Hl & Ht & Hth & Hclock) Hs.
  assert (Hcase : s = AtEntry h \/ s = InLoop h)
    by (destruct Hth as [E|E]; rewrite E in Hs; injection Hs as <-; auto).
  unfold eventHandlerStop.
  call lock_Ok.
  set (w1 := set_trace _ _).
  assert (Hh1 : handlers w1 !! h = Some (set_lock true r)) by (subst w1; solve_lookup).
  destruct (stop_removes_alarm h r (set_lock true r) w1 Hh1 eq_refl)
    as (w2 & E2 & Hh2 & Ht2 & Ha2 & Htr2).
  { destruct Hclock; auto. }
  set (r3 := set_lock false
               (set_queue (eventQueueDequeueWaitAbort (queue r))
                  (set_timeoutAlarmId ALARM_ID_NONE r))).
  set (w3 := set_trace (trace w2 ++ [Call_eventQueueDequeueWaitAbort h;
                                     Call_pthread_cond_wait h])
               (set_handlers (<[h := r3]> (handlers w2)) w2)).
  assert (Hr3 : handlers w3 !! h = Some r3) by (subst w3; solve_lookup).
  destruct (worker_exits h r3 w3 s i sched)
    as (w4 & E4 & Hh4 & Ht4 & Hc4 & Htr4); try solve [subst r3; cbn; auto].
  { subst w3. cbn. now rewrite Ht2. }
  erewrite bind_Ok.
  2:{ call load_Ok. cbn [thread set_lock].
      destruct (Z.eqb_spec PTHREAD_NULL (thread r)) as [E|_]; [exfalso; congruence|].
      cbn [negb timeoutAlarmId set_lock] in *.
      rewrite (bind_Ok _ _ _ _ _ E2).
      call modify_Ok. erewrite bind_Ok by reflexivity.
      erewrite bind_Ok.
      2:{ unfold pthread_cond_wait_threadExit.
          erewrite bind_Ok by reflexivity.
          call modify_Ok. call load_Ok.
          cbn [thread set_lock set_queue set_timeoutAlarmId].
          replace (thread r) with (thread r3) by reflexivity.
          match goal with
          | |- bind (runThread _ _) _ ?w0 = _ => replace w0 with w3
          end.
          2:{ subst w3. apply world_ext; cbn; auto.
              - rewrite Hh2, !insert_insert_eq. reflexivity.
              - now rewrite <- app_assoc. }
          rewrite (bind_Ok _ _ _ _ _ E4).
          call load_Ok. cbn [lock set_thread r3 set_lock].
          eapply modify_Ok. solve_lookup. }
      call modify_Ok. erewrite bind_Ok by reflexivity.
      unfold eventHandlerClear.
      call modify_Ok. reflexivity. }
  last_call unlock_Ok.
  eexists. split; [reflexivity|]. cbn.
  rewrite Hh4, Ht4, Htr4. subst w3. cbn. rewrite Hh2, Ht2, Htr2. subst w1. cbn.
  rewrite !insert_insert_eq.
  split; [|split; [reflexivity|split]].
  - f_equal. unfold stoppedRecord. destruct r; cbn in *. now subst.
  - unfold armedAlarms in *. cbn. rewrite Hc4. cbn. rewrite Ha2. reflexivity.
  - unfold stopCalls. rewrite <- !app_assoc. reflexivity.
Qed.

(** The worker of a running handler, let run up to the wait of its loop:
    it is still there, and the handler's record is as it was. *)
Lemma worker_parks h r w s :
  handlers w !! h = Some r -> lock r = false -> thread r <> PTHREAD_NULL ->
  threads w !! thread r = Some s -> (s = AtEntry h \/ s = InLoop h) ->
  exists w',
    runThread (thread r) [] w = Ok false w'
    /\ handlers w' = handlers w
    /\ threads w' = <[thread r := InLoop h]> (threads w)
    /\ alarmClock w' = alarmClock w
    /\ trace w' = trace w ++ threadEntryCalls s h.
Proof.
  intros H Hl Ht Hs Hcase. unfold runThread. rewrite Hs.
  destruct Hcase as [-> | ->].
  - unfold eventHandlerThread.
    rewrite (bind_Ok _ _ _ _ _ (prologue_Ok (thread r) h r w H Hl Ht)).
    eexists. split; [reflexivity|]. cbn. auto.
  - eexists. split; [reflexivity|]. cbn. rewrite app_nil_r. auto.
Qed.

(** What [eventHandlerStop] does to a running handler when its wait ends
    before the worker has taken a turn of its loop: the call returns with
    the worker thread alive and recorded. *)
Lemma stop_woken h r w s :
  running w h r -> threads w !! thread r = Some s ->
  exists w',
    eventHandlerStop h [] w = Ok tt w'
    /\ handlers w' = <[h := wokenRecord r]> (handlers w)
    /\ threads w' = <[thread r := InLoop h]> (threads w)
    /\ armedAlarms w' = alarmsAfterStop r w
    /\ trace w' = trace w ++ wokenStopCalls h r s.
Proof.
  intros (H & Hl & Ht & Hth & Hclock) Hs.
  assert (Hcase : s = AtEntry h \/ s = InLoop h)
    by (destruct Hth as [E|E]; rewrite E in Hs; injection Hs as <-; auto).
  unfold eventHandlerStop.
  call lock_Ok.
  set (w1 := set_trace _ _).
  assert (Hh1 : handlers w1 !! h = Some (set_lock true r)) by (subst w1; solve_lookup).
  destruct (stop_removes_alarm h r (set_lock true r) w1 Hh1 eq_refl)
    as (w2 & E2 & Hh2 & Ht2 & Ha2 & Htr2).
  { destruct Hclock; auto. }
  set (r3 := set_lock false
               (set_queue (eventQueueDequeueWaitAbort (queue r))
                  (set_timeoutAlarmId ALARM_ID_NONE r))).
  set (w3 := set_trace (trace w2 ++ [Call_eventQueueDequeueWaitAbort h;
                                     Call_pthread_cond_wait h])
               (set_handlers (<[h := r3]> (handlers w2)) w2)).
  assert (Hr3 : handlers w3 !! h = Some r3) by (subst w3; solve_lookup).
  destruct (worker_parks h r3 w3 s)
    as (w4 & E4 & Hh4 & Ht4 & Hc4 & Htr4); try solve [subst r3; cbn; auto].
  { subst w3. cbn. now rewrite Ht2. }
  assert (Hr4 : handlers w4 !! h = Some r3) by now rewrite Hh4.
  erewrite bind_Ok.
  2:{ call load_Ok. cbn [thread set_lock].
      destruct (Z.eqb_spec PTHREAD_NULL (thread r)) as [E|_]; [exfalso; congruence|].
      cbn [negb timeoutAlarmId set_lock] in *.
      rewrite (bind_Ok _ _ _ _ _ E2).
      call modify_Ok. erewrite bind_Ok by reflexivity.
      erewrite bind_Ok.
      2:{ unfold pthread_cond_wait_threadExit.
          erewrite bind_Ok by reflexivity.
          call modify_Ok. call load_Ok.
          cbn [thread set_lock set_queue set_timeoutAlarmId].
          replace (thread r) with (thread r3) by reflexivity.
          match goal with
          | |- bind (runThread _ _) _ ?w0 = _ => replace w0 with w3
          end.
          2:{ subst w3. apply world_ext; cbn; auto.
              - rewrite Hh2, !insert_insert_eq. reflexivity.
              - now rewrite <- app_assoc. }
          rewrite (bind_Ok _ _ _ _ _ E4).
          rewrite (bind_Ok _ _ _ _ _ (load_Ok _ _ _ Hr4)).
          cbn [lock r3 set_lock].
          eapply modify_Ok. exact Hr4. }
      call modify_Ok. erewrite bind_Ok by reflexivity.
      unfold eventHandlerClear.
      call modify_Ok. reflexivity. }
  last_call unlock_Ok.
  eexists. split; [reflexivity|]. cbn.
  rewrite Hh4, Ht4, Htr4. subst w3. cbn. rewrite Hh2, Ht2, Htr2. subst w1. cbn.
  rewrite !insert_insert_eq.
  split; [|split; [reflexivity|split]].
  - f_equal. unfold wokenRecord. destruct r; cbn in *. now subst.
  - unfold armedAlarms in *. cbn. rewrite Hc4. cbn. rewrite Ha2. reflexivity.
  - unfold wokenStopCalls. rewrite <- !app_assoc. reflexivity.
Qed.

Lemma isRunning_Ok h r w :
  handlers w !! h = Some r -> lock r = false ->
  eventHandlerIsRunning h w =
  Ok (if negb (PTHREAD_NULL =? thread r) then 1 else 0)
     (set_trace (trace w ++ [Call_pthread_mutex_lock h; Call_pthread_mutex_unlock h]) w).
Proof.
  intros H Hl. unfold eventHandlerIsRunning.
  call lock_Ok. call load_Ok. call unlock_Ok.
  unfold ret. cbn [thread set_lock]. f_equal.
  apply world_ext; cbn; auto.
  - rewrite insert_insert_eq, unlock_after_lock by assumption. now apply insert_id.
  - now rewrite <- app_assoc.
Qed.


(** C2.  [eventHandlerStop] makes its calls in the order the specification
    gives, and when the worker has exited during the wait the handler is
    stopped (first part, on the started handler of [startedWorld]).  But
    the wait on [threadExit] is a single [pthread_cond_wait], which may end
    before the worker's exit, and then the stated result does not hold: on
    the same handler such a stop returns after the lock, the removal of
    the alarm, the wait abort, the wait (in which the worker has run its
    prologue), the abort reset, the clear and the unlock; the alarm is
    removed and the queue is empty, but the worker thread is still
    recorded and alive, so [eventHandlerIsRunning] answers 1; an event
    signalled afterwards is dispatched by that worker though no
    [eventHandlerStart] has followed; and an [eventHandlerStart] then finds
    a thread recorded, so it creates no thread and arms no alarm. *)
Theorem stop_woken_early_leaves_the_handler_running :
  running startedWorld 1 (recordAt 1 startedWorld)
  /\ (exists w' w'',
        eventHandlerStop 1 [false] startedWorld = Ok tt w'
        /\ thread (recordAt 1 w') = PTHREAD_NULL
        /\ threads w' !! 1 = None
        /\ eventHandlerIsRunning 1 w' = Ok 0 w'')
  /\ eventHandlerStop 1 [] startedWorld = Ok tt wokenWorld
  /\ trace wokenWorld =
     trace startedWorld
     ++ [Call_pthread_mutex_lock 1; Call_alarmClockRemAlarm 1;
         Call_eventQueueDequeueWaitAbort 1; Call_pthread_cond_wait 1;
         Call_pthread_mutex_lock 1; Call_pthread_mutex_unlock 1;
         Call_eventQueueDequeueWaitAbortReset 1; Call_eventQueueClear 1;
         Call_pthread_mutex_unlock 1]
  /\ handlers wokenWorld !! 1 = Some (wokenRecord (recordAt 1 startedWorld))
  /\ thread (recordAt 1 wokenWorld) = 1
  /\ thread (recordAt 1 wokenWorld) <> PTHREAD_NULL
  /\ threads wokenWorld !! 1 = Some (InLoop 1)
  /\ timeoutAlarmId (recordAt 1 wokenWorld) = ALARM_ID_NONE
  /\ armedAlarms wokenWorld = []
  /\ pending (queue (recordAt 1 wokenWorld)) = []
  /\ abort (queue (recordAt 1 wokenWorld)) = false
  /\ (exists w', eventHandlerIsRunning 1 wokenWorld = Ok 1 w')
  /\ (exists w',
        (eventHandlerSignalEvent 1 (sampleEvent 5);; runThread 1 [false]) wokenWorld
        = Ok false w'
        /\ dispatched 1 (trace wokenWorld) = []
        /\ dispatched 1 (trace w') = [sampleEvent 5])
  /\ (exists w',
        eventHandlerStart 1 wokenWorld = Ok tt w'
        /\ handlers w' = handlers wokenWorld
        /\ threads w' = threads wokenWorld
        /\ armedAlarms w' = []).
Proof.
  split.
  { repeat split; try reflexivity.
    - vm_compute. discriminate.
    - left. reflexivity.
    - right. discriminate. }
  split.
  { do 2 eexists. split; [vm_compute; reflexivity|].
    split; [reflexivity|]. split; [reflexivity|]. vm_compute. reflexivity. }
  split; [vm_compute; reflexivity|].
  do 3 (split; [reflexivity|]).
  split; [vm_compute; discriminate|].
  do 5 (split; [reflexivity|]).
  split; [eexists; vm_compute; reflexivity|].
  split.
  - eexists. split; [vm_compute; reflexivity|]. split; reflexivity.
  - eexists. split; [vm_compute; reflexivity|]. repeat split; reflexivity.
Qed.

(** ** C3: destroying a handler *)

Lemma kill_stopped h r w :
  handlers w !! h = Some r -> lock r = false -> thread r = PTHREAD_NULL ->
  eventHandlerDestroy_kill h w =
  Ok tt (set_trace (trace w ++ killCalls h) (set_handlers (delete h (handlers w)) w)).
Proof.
  intros H Hl Ht. unfold eventHandlerDestroy_kill.
  call lock_Ok.
  erewrite bind_Ok.
  2:{ call load_Ok. cbn [thread set_lock]. rewrite Ht. reflexivity. }
  call unlock_Ok.
  do 3 (erewrite bind_Ok by reflexivity).
  unfold free. cbn. rewrite lookup_insert_eq. f_equal.
  apply world_ext; cbn; auto.
  - now rewrite !delete_insert_eq.
  - now rewrite <- !app_assoc.
Qed.

Lemma kill_running h r w :
  handlers w !! h = Some r -> lock r = false -> thread r <> PTHREAD_NULL ->
  eventHandlerDestroy_kill h w = AssertFailed.
Proof.
  intros H Hl Ht. unfold eventHandlerDestroy_kill.
  call lock_Ok.
  unfold bind at 1.
  erewrite bind_Ok by (eapply load_Ok; solve_lookup).
  cbn [thread set_lock].
  destruct (Z.eqb_spec PTHREAD_NULL (thread r)) as [E|_]; [exfalso; congruence|].
  reflexivity.
Qed.

(** C3, as the code has it.  [eventHandlerDestroy] first calls
    [eventHandlerStop] and only then asserts that no worker thread is
    recorded.  The assertion is there: the part after the stop, run on a
    handler whose thread is still recorded, fails it (first part).  A
    handler that was already stopped passes it, and the mutex is destroyed
    and the queue, the scratch buffer and the handler record are released
    (second part).  A running handler whose worker has exited during the
    wait of the stop passes it as well: the stop has cleared the thread
    handle, and the handler is released in the same way (third part), so
    destroying a running handler is not in itself an assertion failure.
    The assertion fails on a running handler when the wait of the stop has
    ended before the worker's exit, the thread being still recorded (last
    part). *)
Theorem destroy_stops_then_releases h r w :
  handlers w !! h = Some r -> lock r = false ->
  (thread r <> PTHREAD_NULL -> eventHandlerDestroy_kill h w = AssertFailed)
  /\ (thread r = PTHREAD_NULL ->
      forall sched,
      exists w',
        eventHandlerDestroy h sched w = Ok tt w'
        /\ handlers w' = delete h (handlers w)
        /\ trace w' =
           trace w
           ++ [Call_pthread_mutex_lock h; Call_pthread_mutex_unlock h]
           ++ [Call_pthread_mutex_lock h; Call_pthread_mutex_unlock h;
               Call_pthread_mutex_destroy h; Call_eventQueueDestroy h;
               Call_free_scratch h; Call_free_handler h])
  /\ (forall s i sched,
        running w h r -> threads w !! thread r = Some s ->
        exists w',
          eventHandlerDestroy h (i :: sched) w = Ok tt w'
          /\ handlers w' = delete h (handlers w)
          /\ threads w' = delete (thread r) (threads w)
          /\ trace w' =
             trace w
             ++ stopCalls h r s
             ++ [Call_pthread_mutex_lock h; Call_pthread_mutex_unlock h;
                 Call_pthread_mutex_destroy h; Call_eventQueueDestroy h;
                 Call_free_scratch h; Call_free_handler h])
  /\ (forall s,
        running w h r -> threads w !! thread r = Some s ->
        eventHandlerDestroy h [] w = AssertFailed).
Proof.
  intros H Hl. split; [|split; [|split]].
  - intros Ht. now apply kill_running with r.
  - intros Ht sched.
    unfold eventHandlerDestroy.
    rewrite (bind_Ok _ _ _ _ _ (stop_stopped h r w sched H Hl Ht)).
    rewrite (kill_stopped h r
               (set_trace (trace w ++ [Call_pthread_mutex_lock h;
                                       Call_pthread_mutex_unlock h]) w) H Hl Ht).
    eexists. split; [reflexivity|]. cbn. now rewrite <- app_assoc.
  - intros s i sched Hrun Hs.
    destruct (stop_running h r w s i sched Hrun Hs) as (w1 & E1 & Hh1 & Ht1 & _ & Htr1).
    unfold eventHandlerDestroy. rewrite (bind_Ok _ _ _ _ _ E1).
    assert (Hr1 : handlers w1 !! h = Some (stoppedRecord r))
      by (rewrite Hh1; apply lookup_insert_eq).
    rewrite (kill_stopped h (stoppedRecord r) w1 Hr1 Hl eq_refl).
    eexists. split; [reflexivity|]. cbn.
    rewrite Hh1, Ht1, Htr1, delete_insert_eq, <- app_assoc. auto.
  - intros s Hrun Hs.
    destruct (stop_woken h r w s Hrun Hs) as (w1 & E1 & Hh1 & _).
    unfold eventHandlerDestroy. rewrite (bind_Ok _ _ _ _ _ E1).
    assert (Hr1 : handlers w1 !! h = Some (wokenRecord r))
      by (rewrite Hh1; apply lookup_insert_eq).
    destruct Hrun as (_ & _ & Ht & _).
    exact (kill_running h (wokenRecord r) w1 Hr1 Hl Ht).
Qed.

Lemma destroy_stops_then_releases_witness :
  eventHandlerDestroy_kill 1 startedWorld = AssertFailed
  /\ (exists w',
        eventHandlerDestroy 1 [false] createdWorld = Ok tt w'
        /\ handlers w' = delete 1 (handlers createdWorld))
  /\ (exists w',
        eventHandlerDestroy 1 [false] startedWorld = Ok tt w'
        /\ handlers w' = delete 1 (handlers startedWorld)
        /\ threads w' = delete 1 (threads startedWorld))
  /\ eventHandlerDestroy 1 [] startedWorld = AssertFailed.
Proof.
  assert (Hrun : running startedWorld 1 (recordAt 1 startedWorld)).
  { repeat split; try reflexivity.
    - vm_compute. discriminate.
    - left. reflexivity.
    - right. discriminate. }
  split; [|split; [|split]].
  - apply (destroy_stops_then_releases 1 (recordAt 1 startedWorld) startedWorld).
    + reflexivity.
    + reflexivity.
    + vm_compute. discriminate.
  - destruct (destroy_stops_then_releases 1 (recordAt 1 createdWorld) createdWorld)
      as (_ & H & _).
    + reflexivity.
    + reflexivity.
    + destruct (H eq_refl [false]) as (w' & E & Hh & _).
      exists w'. split; assumption.
  - destruct (destroy_stops_then_releases 1 (recordAt 1 startedWorld) startedWorld)
      as (_ & _ & H & _).
    + reflexivity.
    + reflexivity.
    + destruct (H (AtEntry 1) false [] Hrun eq_refl) as (w' & E & Hh & Ht & _).
      exists w'. repeat split; assumption.
  - destruct (destroy_stops_then_releases 1 (recordAt 1 startedWorld) startedWorld)
      as (_ & _ & _ & H).
    + reflexivity.
    + reflexivity.
    + exact (H (AtEntry 1) Hrun eq_refl).
Defined.

(** A running handler on which [eventHandlerDestroy] is no assertion
    failure: the handler of [startedWorld] is running, and the call, its
    worker exiting during the wait of the stop, returns, the handler being
    stopped and released. *)
Lemma destroy_running_is_no_assertion_failure :
  running startedWorld 1 (recordAt 1 startedWorld)
  /\ (exists w', eventHandlerIsRunning 1 startedWorld = Ok 1 w')
  /\ eventHandlerDestroy 1 [false] startedWorld <> AssertFailed
  /\ exists w', eventHandlerDestroy 1 [false] startedWorld = Ok tt w'
                /\ handlers w' !! 1 = None
                /\ threads w' !! 1 = None.
Proof.
  split; [|split; [|split]].
  - repeat split; try reflexivity.
    + vm_compute. discriminate.
    + left. reflexivity.
    + right. discriminate.
  - eexists. vm_compute. reflexivity.
  - vm_compute. discriminate.
  - eexists. split; [vm_compute; reflexivity|]. split; reflexivity.
Qed.

(** ** C1: the order of dispatch *)

Lemma dispatched_app h t1 t2 :
  dispatched h (t1 ++ t2) = dispatched h t1 ++ dispatched h t2.
Proof. unfold dispatched. apply flat_map_app. Qed.

Lemma dispatchable_typesOf w w' e :
  typesOf w' = typesOf w -> dispatchable w' e = dispatchable w e.
Proof.
  intros E. unfold dispatchable. destruct (type e) as [|t|h']; try reflexivity.
  assert (E' : typesOf w' !! h' = typesOf w !! h') by now rewrite E.
  unfold typesOf in E'. rewrite !lookup_fmap in E'.
  destruct (handlers w' !! h'), (handlers w !! h'); cbn in E'; congruence.
Qed.

Lemma forallb_dispatchable_typesOf w w' l :
  typesOf w' = typesOf w ->
  forallb (dispatchable w') l = forallb (dispatchable w) l.
Proof.
  intros E. induction l as [|e l IH]; cbn; [reflexivity|].
  now rewrite IH, (dispatchable_typesOf w w' e E).
Qed.

Lemma dispatcherOf_dispatchable w e :
  dispatchable w e = true ->
  exists f, dispatcherOf (type e) w = Ok f w /\ f <> NULL.
Proof.
  unfold dispatchable, dispatcherOf. destruct (type e) as [|t|h']; [discriminate| |].
  - intros H. exists (eventDispatcher t). split; [reflexivity|].
    destruct (Z.eqb_spec (eventDispatcher t) NULL); [discriminate|assumption].
  - destruct (handlers w !! h') as [r'|] eqn:E; [|discriminate].
    intros H. exists (eventDispatcher (timeoutEventType r')).
    split; [now rewrite (bind_Ok _ _ _ _ _ (load_Ok _ _ _ E))|].
    destruct (Z.eqb_spec (eventDispatcher (timeoutEventType r')) NULL);
      [discriminate|assumption].
Qed.

Lemma signalEvent_Ok h e r w :
  handlers w !! h = Some r ->
  eventHandlerSignalEvent h e w =
  Ok EVENT_STATUS_SUCCESS
     (set_trace (trace w ++ [Call_eventQueueEnqueueTailSignal h e])
        (set_handlers
           (<[h := set_queue (eventQueueEnqueueTailSignal (queue r) e) r]> (handlers w)) w)).
Proof.
  intros H. unfold eventHandlerSignalEvent. call modify_Ok. reflexivity.
Qed.

Lemma signalEventOOB_Ok h e r w :
  handlers w !! h = Some r ->
  eventHandlerSignalEventOOB h e w =
  Ok EVENT_STATUS_SUCCESS
     (set_trace (trace w ++ [Call_eventQueueEnqueueHeadSignal h e])
        (set_handlers
           (<[h := set_queue (eventQueueEnqueueHeadSignal (queue r) e) r]> (handlers w)) w)).
Proof.
  intros H. unfold eventHandlerSignalEventOOB. call modify_Ok. reflexivity.
Qed.

Lemma signalAll_spec h sigs : forall r w,
  handlers w !! h = Some r ->
  exists w',
    signalAll h sigs w = Ok tt w'
    /\ handlers w' = <[h := set_queue (queueAfter sigs r) r]> (handlers w)
    /\ dispatched h (trace w') = dispatched h (trace w).
Proof.
  induction sigs as [|s sigs IH]; intros r w H.
  - exists w. split; [reflexivity|]. split; [|reflexivity].
    symmetry. apply insert_id. rewrite H. f_equal.
    unfold queueAfter. cbn. rewrite !app_nil_r. now destruct r as [? ? ? ? [] ? ? ? ? ? ? ? ?].
  - cbn [signalAll].
    assert (Hs : exists w1 r1,
               signal h s w = Ok EVENT_STATUS_SUCCESS w1
               /\ handlers w1 = <[h := r1]> (handlers w)
               /\ queueAfter sigs r1 = queueAfter (s :: sigs) r
               /\ set_queue (queueAfter (s :: sigs) r) r1 = set_queue (queueAfter (s :: sigs) r) r
               /\ dispatched h (trace w1) = dispatched h (trace w)).
    { destruct s as [e|e]; cbn [signal].
      - rewrite (signalEvent_Ok h e r w H). eexists _, _. split; [reflexivity|].
        split; [reflexivity|]. unfold queueAfter.
        cbn [queue set_queue eventQueueEnqueueTailSignal headLane tailLane slotSize abort
             oobSignals tailSignals flat_map app trace set_trace].
        rewrite <- !app_assoc.
        split; [reflexivity|]. split; [reflexivity|].
        now rewrite dispatched_app, app_nil_r.
      - rewrite (signalEventOOB_Ok h e r w H). eexists _, _. split; [reflexivity|].
        split; [reflexivity|]. unfold queueAfter.
        cbn [queue set_queue eventQueueEnqueueHeadSignal headLane tailLane slotSize abort
             oobSignals tailSignals flat_map app trace set_trace].
        rewrite <- !app_assoc.
        split; [reflexivity|]. split; [reflexivity|].
        now rewrite dispatched_app, app_nil_r. }
    destruct Hs as (w1 & r1 & E1 & Hh1 & Hq & Hr & Hd1).
    rewrite (bind_Ok _ _ _ _ _ E1).
    destruct (IH r1 w1) as (w' & E' & Hh' & Hd'); [rewrite Hh1; apply lookup_insert_eq|].
    exists w'. split; [exact E'|]. split.
    + rewrite Hh', Hh1, insert_insert_eq, Hq, Hr. reflexivity.
    + now rewrite Hd', Hd1.
Qed.

Lemma dispatched_lockOnDispatchCalls h r (f : Z -> Action) :
  (forall m, dispatched h [f m] = []) ->
  dispatched h (lockOnDispatchCalls r f) = [].
Proof.
  intros Hf. unfold lockOnDispatchCalls. destruct (negb _); [apply Hf|reflexivity].
Qed.

(** A turn of the loop on a queue that is neither aborted nor empty
    dispatches the first pending event. *)
Lemma body_dispatches h r w i e rest :
  handlers w !! h = Some r -> abort (queue r) = false ->
  pending (queue r) = e :: rest -> dispatchable w e = true ->
  exists w' r',
    eventHandlerThread_body h i w = Ok 0 w'
    /\ handlers w' !! h = Some r'
    /\ pending (queue r') = rest
    /\ headLane (queue r') = skipn 1 (headLane (queue r))
    /\ tailLane (queue r') = skipn (1 - length (headLane (queue r))) (tailLane (queue r))
    /\ abort (queue r') = false
    /\ dispatched h (trace w') = dispatched h (trace w) ++ [e]
    /\ typesOf w' = typesOf w.
Proof.
  intros H Ha Hp Hd.
  assert (Hdeq : exists q',
            eventQueueDequeueWait (queue r) i = Some (EVENT_STATUS_SUCCESS, q', Some e)
            /\ pending q' = rest
            /\ headLane q' = skipn 1 (headLane (queue r))
            /\ tailLane q' = skipn (1 - length (headLane (queue r))) (tailLane (queue r))
            /\ abort q' = false).
  { unfold eventQueueDequeueWait, pending in *. rewrite Ha.
    destruct (headLane (queue r)) as [|e0 hl]; cbn in Hp.
    - destruct (tailLane (queue r)) as [|e0 tl]; [discriminate|].
      injection Hp as -> ->. eexists. split; [reflexivity|]. now cbn.
    - injection Hp as -> <-. eexists. split; [reflexivity|]. now cbn. }
  destruct Hdeq as (q' & Hq & Hp' & Hhl' & Htl' & Ha').
  set (r1 := set_scratch e (set_queue q' r)).
  set (w1 := set_handlers (<[h := r1]> (handlers w)) w).
  assert (E1 : dequeueWait h i w = Ok EVENT_STATUS_SUCCESS w1).
  { unfold dequeueWait. call load_Ok. rewrite Hq. call modify_Ok. reflexivity. }
  assert (T1 : typesOf w1 = typesOf w) by exact (constTypes_dequeueWait h i _ _ _ E1).
  assert (H1 : handlers w1 !! h = Some r1) by (subst w1; solve_lookup).
  destruct (dispatcherOf_dispatchable w1 e) as (f & Hf & Hnull).
  { now rewrite (dispatchable_typesOf w w1 e T1). }
  pose proof (switch_success h r1 w1 f H1 Hf Hnull) as E2.
  exists (afterDispatch h r1 f w1), r1.
  split; [unfold eventHandlerThread_body; now rewrite (bind_Ok _ _ _ _ _ E1)|].
  split; [exact H1|]. split; [exact Hp'|]. split; [exact Hhl'|]. split; [exact Htl'|].
  split; [exact Ha'|]. split; [|exact T1].
  unfold afterDispatch. cbn [trace set_trace]. rewrite !dispatched_app.
  rewrite !dispatched_lockOnDispatchCalls by reflexivity.
  cbn. now rewrite Z.eqb_refl, app_nil_r.
Qed.

(** A turn of the loop on an empty queue that is not aborted: an
    interrupted wait changes nothing, otherwise the thread stays in the
    wait. *)
Lemma body_idle h r w :
  handlers w !! h = Some r -> abort (queue r) = false -> pending (queue r) = [] ->
  eventHandlerThread_body h true w = Ok 0 w
  /\ eventHandlerThread_body h false w = Blocked.
Proof.
  intros H Ha Hp. unfold pending in Hp. apply app_eq_nil in Hp as [Hh Ht].
  unfold eventHandlerThread_body, dequeueWait. split.
  - erewrite bind_Ok.
    2:{ call load_Ok. unfold eventQueueDequeueWait. rewrite Ha, Hh, Ht.
        call modify_Ok. reflexivity. }
    cbn. f_equal. apply world_ext; cbn; auto.
    rewrite set_queue_same. now apply insert_id.
  - unfold bind at 1.
    erewrite bind_Ok by (eapply load_Ok; eassumption).
    unfold eventQueueDequeueWait. now rewrite Ha, Hh, Ht.
Qed.

(** The loop, given [sched], dispatches the first [length sched] pending
    events, in their order in the queue: the head lane first. *)
Lemma loop_drains h sched : forall r w,
  handlers w !! h = Some r -> abort (queue r) = false ->
  forallb (dispatchable w) (pending (queue r)) = true ->
  exists w' r',
    eventHandlerThread_loop h sched w = Ok 0 w'
    /\ handlers w' !! h = Some r'
    /\ abort (queue r') = false
    /\ pending (queue r') = skipn (length sched) (pending (queue r))
    /\ headLane (queue r') = skipn (length sched) (headLane (queue r))
    /\ tailLane (queue r')
       = skipn (length sched - length (headLane (queue r))) (tailLane (queue r))
    /\ dispatched h (trace w')
       = dispatched h (trace w) ++ firstn (length sched) (pending (queue r))
    /\ typesOf w' = typesOf w.
Proof.
  induction sched as [|i sched IH]; intros r w H Ha Hd.
  - exists w, r. cbn. rewrite app_nil_r. repeat split; auto.
  - cbn [eventHandlerThread_loop length].
    destruct (pending (queue r)) as [|e rest] eqn:Hp.
    + destruct (body_idle h r w H Ha Hp) as [Ht Hf].
      unfold pending in Hp. apply app_eq_nil in Hp as [Hhl Htl].
      destruct i.
      * rewrite Ht. cbn [Z.eqb].
        destruct (IH r w H Ha) as (w' & r' & E & H' & Ha' & Hp' & Hhl' & Htl' & Hd' & T');
          [unfold pending; now rewrite Hhl, Htl|].
        exists w', r'. unfold pending in *. rewrite Hhl, Htl in *. cbn [app] in *.
        rewrite skipn_nil in *. rewrite firstn_nil in *.
        repeat split; auto.
      * rewrite Hf. exists w, r. unfold pending. rewrite Hhl, Htl. cbn [app].
        rewrite !skipn_nil, firstn_nil, app_nil_r. repeat split; auto.
    + cbn [forallb] in Hd. apply andb_prop in Hd as [Hde Hdr].
      destruct (body_dispatches h r w i e rest H Ha Hp Hde)
        as (w1 & r1 & E1 & H1 & Hp1 & Hhl1 & Htl1 & Ha1 & Hd1 & T1).
      rewrite E1. cbn [Z.eqb].
      destruct (IH r1 w1 H1 Ha1) as (w' & r' & E & H' & Ha' & Hp' & Hhl' & Htl' & Hd' & T').
      { now rewrite Hp1, (forallb_dispatchable_typesOf w w1 rest T1). }
      exists w', r'. split; [exact E|]. split; [exact H'|]. split; [exact Ha'|].
      split; [now rewrite Hp', Hp1|].
      split; [rewrite Hhl', Hhl1, skipn_skipn; f_equal; lia|].
      split.
      { rewrite Htl', Htl1, Hhl1, skipn_skipn, length_skipn. f_equal. lia. }
      split; [|now rewrite T', T1].
      rewrite Hd', Hd1, Hp1, <- app_assoc. reflexivity.
Qed.

(** Tail signals and turns of the worker, in any interleaving: what has
    been dispatched, followed by what is pending, is what was pending
    followed by the signals. *)
Lemma steps_fifo h l : forall r w,
  handlers w !! h = Some r -> abort (queue r) = false ->
  oobSignals (signalsOf l) = [] ->
  forallb (dispatchable w) (pending (queue r) ++ tailSignals (signalsOf l)) = true ->
  exists w' r',
    steps h l w = Ok tt w'
    /\ handlers w' !! h = Some r'
    /\ dispatched h (trace w') ++ pending (queue r')
       = dispatched h (trace w) ++ pending (queue r) ++ tailSignals (signalsOf l).
Proof.
  induction l as [|s l IH]; intros r w H Ha Hoob Hd.
  - exists w, r. cbn. rewrite app_nil_r. auto.
  - cbn [steps]. destruct s as [[e|e]|i]; cbn [step signal].
    + change (signalsOf (Signalled (Tail e) :: l)) with (Tail e :: signalsOf l) in *.
      change (tailSignals (Tail e :: signalsOf l)) with (e :: tailSignals (signalsOf l)) in *.
      change (oobSignals (Tail e :: signalsOf l)) with (oobSignals (signalsOf l)) in *.
      erewrite bind_Ok.
      2:{ erewrite bind_Ok by (apply signalEvent_Ok; eassumption). reflexivity. }
      set (r1 := set_queue (eventQueueEnqueueTailSignal (queue r) e) r).
      set (w1 := set_trace _ _).
      assert (T1 : typesOf w1 = typesOf w).
      { exact (constTypes_signalEvent h e _ _ _ (signalEvent_Ok h e r w H)). }
      assert (Hp1 : pending (queue r1) = pending (queue r) ++ [e]).
      { subst r1. unfold pending. cbn. now rewrite app_assoc. }
      destruct (IH r1 w1) as (w' & r' & E & H' & Hd'); try assumption.
      { subst w1. solve_lookup. }
      { rewrite (forallb_dispatchable_typesOf w w1 _ T1), Hp1, <- app_assoc. exact Hd. }
      exists w', r'. split; [exact E|]. split; [exact H'|].
      rewrite Hd', Hp1. subst w1. cbn [trace set_trace].
      rewrite dispatched_app. cbn [dispatched flat_map]. rewrite app_nil_r, <- !app_assoc.
      reflexivity.
    + discriminate.
    + change (signalsOf (Worker i :: l)) with (signalsOf l) in *.
      destruct (loop_drains h [i] r w H Ha)
        as (w1 & r1 & E1 & H1 & Ha1 & Hp1 & _ & _ & Hd1 & T1).
      { rewrite forallb_app in Hd. now apply andb_prop in Hd as [? _]. }
      erewrite bind_Ok.
      2:{ erewrite bind_Ok by exact E1. reflexivity. }
      cbn [length] in *.
      destruct (IH r1 w1 H1 Ha1 Hoob) as (w' & r' & E & H' & Hd').
      { rewrite (forallb_dispatchable_typesOf w w1 _ T1), Hp1.
        rewrite forallb_app in *. apply andb_prop in Hd as [Hd1' Hd2'].
        rewrite Hd2', andb_true_r.
        rewrite <- (firstn_skipn 1 (pending (queue r))), forallb_app in Hd1'.
        now apply andb_prop in Hd1' as [_ ?]. }
      exists w', r'. split; [exact E|]. split; [exact H'|].
      rewrite Hd', Hd1, Hp1.
      rewrite <- (firstn_skipn 1 (pending (queue r))) at 3.
      now rewrite <- !app_assoc.
Qed.

Lemma typesOf_insert_same w w' h r r' :
  handlers w !! h = Some r -> timeoutEventType r' = timeoutEventType r ->
  handlers w' = <[h := r']> (handlers w) -> typesOf w' = typesOf w.
Proof.
  intros H Ht Hw. unfold typesOf. rewrite Hw, fmap_insert, Ht.
  apply insert_id. now rewrite lookup_fmap, H.
Qed.

Lemma oobSignals_signalled sigs e : In e (oobSignals sigs) -> In e (map signalled sigs).
Proof.
  induction sigs as [|[e'|e'] sigs IH]; cbn; [tauto| |]; intros H.
  - right. now apply IH.
  - destruct H; [now left|right; now apply IH].
Qed.

Lemma tailSignals_signalled sigs e : In e (tailSignals sigs) -> In e (map signalled sigs).
Proof.
  induction sigs as [|[e'|e'] sigs IH]; cbn; [tauto| |]; intros H.
  - destruct H; [now left|right; now apply IH].
  - right. now apply IH.
Qed.

Lemma oobSignals_Tail es : oobSignals (map Tail es) = [].
Proof. induction es; cbn; auto. Qed.

Lemma tailSignals_Tail es : tailSignals (map Tail es) = es.
Proof. induction es as [|e es IH]; cbn; [reflexivity|]. f_equal. exact IH. Qed.

(** Signals, then turns of the worker: the head lane goes first, each lane
    in the order of its signals. *)
Lemma signals_then_loop h r w sigs sched :
  handlers w !! h = Some r -> abort (queue r) = false ->
  forallb (dispatchable w) (pending (queue r) ++ map signalled sigs) = true ->
  exists w' r',
    (signalAll h sigs;; eventHandlerThread_loop h sched) w = Ok 0 w'
    /\ dispatched h (trace w')
       = dispatched h (trace w)
         ++ firstn (length sched)
              (headLane (queue r) ++ oobSignals sigs
               ++ tailLane (queue r) ++ tailSignals sigs)
    /\ handlers w' !! h = Some r'
    /\ abort (queue r') = false
    /\ headLane (queue r')
       = skipn (length sched) (headLane (queue r) ++ oobSignals sigs)
    /\ tailLane (queue r')
       = skipn (length sched - length (headLane (queue r) ++ oobSignals sigs))
           (tailLane (queue r) ++ tailSignals sigs)
    /\ (forall e, dispatchable w' e = dispatchable w e).
Proof.
  intros H Ha Hd.
  destruct (signalAll_spec h sigs r w H) as (w1 & E1 & Hh1 & Hd1).
  set (r1 := set_queue (queueAfter sigs r) r) in *.
  assert (H1 : handlers w1 !! h = Some r1) by (rewrite Hh1; apply lookup_insert_eq).
  assert (T1 : typesOf w1 = typesOf w)
    by (apply (typesOf_insert_same w w1 h r r1 H eq_refl Hh1)).
  assert (Hp1 : pending (queue r1)
                = headLane (queue r) ++ oobSignals sigs
                  ++ tailLane (queue r) ++ tailSignals sigs).
  { subst r1. unfold pending, queueAfter. cbn. now rewrite <- app_assoc. }
  destruct (loop_drains h sched r1 w1 H1 Ha)
    as (w' & r' & E & H' & Ha' & _ & Hhl' & Htl' & Hd' & T').
  { rewrite (forallb_dispatchable_typesOf w w1 _ T1), Hp1.
    rewrite forallb_forall in *. intros e He. apply Hd.
    unfold pending. rewrite !in_app_iff in *.
    destruct He as [He|[He|[He|He]]]; auto using oobSignals_signalled, tailSignals_signalled. }
  exists w', r'. split; [now rewrite (bind_Ok _ _ _ _ _ E1)|].
  split; [now rewrite Hd', Hd1, Hp1|].
  split; [exact H'|]. split; [exact Ha'|]. split; [exact Hhl'|]. split; [exact Htl'|].
  intros e. apply dispatchable_typesOf. now rewrite T', T1.
Qed.

(** C1.  Dispatch order, for a handler whose queue is not aborted.
    (1) Tail signals to an idle handler, interleaved in any way with turns
    of the worker: the events dispatched, followed by those still pending,
    are the signalled events in signal order; so dispatch order is signal
    order.  (2) In particular, tail signals [es] followed by as many turns
    of the worker dispatch exactly [es].  (3) Any signals followed by [n]
    turns of the worker dispatch the first [n] of: the OOB events pending
    before, the OOB events signalled, the tail events pending before, the
    tail events signalled -- each group in signal order; so an OOB event
    goes before every tail event signalled earlier and not yet dispatched,
    and pending OOB events go in their own signal order.  What is left of
    the two lanes is given too, so that the statement applies again from
    the world reached, whatever signals and turns follow.  (4) After
    [signalEvent (e5); signalEvent (e6); signalEventOOB (e7)] on an idle
    handler the worker dispatches [e7], [e5], [e6]. *)
Theorem dispatch_order h r w :
  handlers w !! h = Some r -> abort (queue r) = false ->
  (forall l,
     pending (queue r) = [] -> oobSignals (signalsOf l) = [] ->
     forallb (dispatchable w) (tailSignals (signalsOf l)) = true ->
     exists w' r',
       steps h l w = Ok tt w'
       /\ handlers w' !! h = Some r'
       /\ dispatched h (trace w') ++ pending (queue r')
          = dispatched h (trace w) ++ tailSignals (signalsOf l))
  /\ (forall es sched,
        pending (queue r) = [] -> forallb (dispatchable w) es = true ->
        length sched = length es ->
        exists w',
          (signalAll h (map Tail es);; eventHandlerThread_loop h sched) w = Ok 0 w'
          /\ dispatched h (trace w') = dispatched h (trace w) ++ es)
  /\ (forall sigs sched,
        forallb (dispatchable w) (pending (queue r) ++ map signalled sigs) = true ->
        exists w' r',
          (signalAll h sigs;; eventHandlerThread_loop h sched) w = Ok 0 w'
          /\ dispatched h (trace w')
             = dispatched h (trace w)
               ++ firstn (length sched)
                    (headLane (queue r) ++ oobSignals sigs
                     ++ tailLane (queue r) ++ tailSignals sigs)
          /\ handlers w' !! h = Some r'
          /\ abort (queue r') = false
          /\ headLane (queue r')
             = skipn (length sched) (headLane (queue r) ++ oobSignals sigs)
          /\ tailLane (queue r')
             = skipn (length sched - length (headLane (queue r) ++ oobSignals sigs))
                 (tailLane (queue r) ++ tailSignals sigs)
          /\ (forall e, dispatchable w' e = dispatchable w e))
  /\ (forall e5 e6 e7 i1 i2 i3,
        pending (queue r) = [] ->
        dispatchable w e5 = true -> dispatchable w e6 = true ->
        dispatchable w e7 = true ->
        exists w',
          (eventHandlerSignalEvent h e5;;
           eventHandlerSignalEvent h e6;;
           eventHandlerSignalEventOOB h e7;;
           eventHandlerThread_loop h [i1; i2; i3]) w = Ok 0 w'
          /\ dispatched h (trace w') = dispatched h (trace w) ++ [e7; e5; e6]).
Proof.
  intros H Ha. split; [|split; [|split]].
  - intros l Hp Hoob Hd.
    destruct (steps_fifo h l r w H Ha Hoob) as (w' & r' & E & H' & Hd').
    { now rewrite Hp. }
    exists w', r'. rewrite Hp in Hd'. auto.
  - intros es sched Hp Hd Hlen.
    destruct (signals_then_loop h r w (map Tail es) sched H Ha) as (w' & _ & E & Hd' & _).
    { rewrite Hp. cbn [app]. rewrite map_map. cbn [signalled]. now rewrite map_id. }
    exists w'. split; [exact E|].
    unfold pending in Hp. apply app_eq_nil in Hp as [Hh Ht].
    rewrite Hd', Hh, Ht, oobSignals_Tail, tailSignals_Tail, Hlen. cbn [app].
    now rewrite firstn_all.
  - intros sigs sched Hd. now apply signals_then_loop.
  - intros e5 e6 e7 i1 i2 i3 Hp H5 H6 H7.
    destruct (signals_then_loop h r w [Tail e5; Tail e6; OOB e7] [i1; i2; i3] H Ha)
      as (w' & _ & E & Hd' & _).
    { rewrite Hp. cbn. now rewrite H5, H6, H7. }
    exists w'. unfold pending in Hp. apply app_eq_nil in Hp as [Hh Ht].
    rewrite Hh, Ht in Hd'. cbn in Hd'. split; [|exact Hd'].
    rewrite <- E. cbn [signalAll signal]. unfold bind.
    destruct (eventHandlerSignalEvent h e5 w) as [? w1| | |]; try reflexivity.
    destruct (eventHandlerSignalEvent h e6 w1) as [? w2| | |]; try reflexivity.
    destruct (eventHandlerSignalEventOOB h e7 w2) as [? w3| | |]; reflexivity.
Qed.

Lemma dispatch_order_witness :
  (exists w' r',
     steps 1 [Signalled (Tail (sampleEvent 5)); Worker false;
              Signalled (Tail (sampleEvent 6)); Worker true; Worker false] startedWorld
     = Ok tt w'
     /\ handlers w' !! 1 = Some r'
     /\ dispatched 1 (trace w') ++ pending (queue r')
        = dispatched 1 (trace startedWorld) ++ [sampleEvent 5; sampleEvent 6])
  /\ (exists w',
        (signalAll 1 (map Tail [sampleEvent 5; sampleEvent 6]);;
         eventHandlerThread_loop 1 [false; false]) startedWorld = Ok 0 w'
        /\ dispatched 1 (trace w')
           = dispatched 1 (trace startedWorld) ++ [sampleEvent 5; sampleEvent 6])
  /\ (exists w' r',
        (signalAll 1 [Tail (sampleEvent 5); OOB (sampleEvent 7);
                      Tail (sampleEvent 6); OOB (sampleEvent 8)];;
         eventHandlerThread_loop 1 [false; false; false]) startedWorld = Ok 0 w'
        /\ dispatched 1 (trace w')
           = dispatched 1 (trace startedWorld)
             ++ [sampleEvent 7; sampleEvent 8; sampleEvent 5]
        /\ handlers w' !! 1 = Some r'
        /\ headLane (queue r') = []
        /\ tailLane (queue r') = [sampleEvent 6])
  /\ (exists w',
        (eventHandlerSignalEvent 1 (sampleEvent 5);;
         eventHandlerSignalEvent 1 (sampleEvent 6);;
         eventHandlerSignalEventOOB 1 (sampleEvent 7);;
         eventHandlerThread_loop 1 [false; false; false]) startedWorld = Ok 0 w'
        /\ dispatched 1 (trace w')
           = dispatched 1 (trace startedWorld)
             ++ [sampleEvent 7; sampleEvent 5; sampleEvent 6]).
Proof.
  destruct (dispatch_order 1 (recordAt 1 startedWorld) startedWorld)
    as (H1 & H2 & H3 & H4).
  - reflexivity.
  - reflexivity.
  - split; [|split; [|split]].
    + exact (H1 [Signalled (Tail (sampleEvent 5)); Worker false;
                 Signalled (Tail (sampleEvent 6)); Worker true; Worker false]
               eq_refl eq_refl eq_refl).
    + exact (H2 [sampleEvent 5; sampleEvent 6] [false; false] eq_refl eq_refl eq_refl).
    + destruct (H3 [Tail (sampleEvent 5); OOB (sampleEvent 7);
                    Tail (sampleEvent 6); OOB (sampleEvent 8)] [false; false; false] eq_refl)
        as (w' & r' & E & Hd & Hr & _ & Hhl & Htl & _).
      exists w', r'. repeat split; assumption.
    + exact (H4 (sampleEvent 5) (sampleEvent 6) (sampleEvent 7) false false false
               eq_refl eq_refl eq_refl eq_refl).
Defined.

(** ** Further properties of the event handler *)

(** *** The worker's loop and the rest of the world *)

Ltac conjs := repeat match goal with |- _ /\ _ => split end.

Ltac stopped_ok := split; [reflexivity|split; reflexivity].
Ltac running_ok :=
  split; [reflexivity|split; [reflexivity|split; [vm_compute; discriminate|
    split; [left; reflexivity|right; discriminate]]]].

Lemma queueOnly_ret h {A} (a : A) : queueOnly h (ret a).
Proof. intros w a' w'. inv_Ok. repeat split. Qed.

Lemma queueOnly_bind h {A B} (m : M A) (k : A -> M B) :
  queueOnly h m -> (forall a, queueOnly h (k a)) -> queueOnly h (bind m k).
Proof.
  intros Hm Hk w b w' E. apply bind_inv in E as (a & w1 & E1 & E2).
  destruct (Hm _ _ _ E1) as (F1 & M1 & T1 & C1 & D1).
  destruct (Hk a _ _ _ E2) as (F2 & M2 & T2 & C2 & D2).
  split; [|split; [|split; [|split]]]; try congruence.
  - intros h' Hh'. now rewrite F2, F1.
  - intros h' Hh'. now rewrite D2, D1.
Qed.

Lemma queueOnly_emit h a :
  (forall h', h' <> h -> dispatched h' [a] = []) -> queueOnly h (emit a).
Proof.
  intros Ha w u w'. unfold emit. inv_Ok.
  cbn [handlers threads alarmClock trace set_trace]. repeat split.
  intros h' Hh'. now rewrite dispatched_app, Ha, app_nil_r.
Qed.

Lemma queueOnly_load h h0 : queueOnly h (load h0).
Proof. intros w r w' E. apply load_inv in E as [-> _]. repeat split. Qed.

Lemma queueOnly_assert h b : queueOnly h (assert b).
Proof. intros w u w'. unfold assert. destruct b; [|discriminate]. inv_Ok. repeat split. Qed.

Lemma queueOnly_modify h f :
  (forall r, metadata (f r) = metadata r) -> queueOnly h (modify h f).
Proof.
  intros Hf w u w'. unfold modify. destruct (handlers w !! h) as [r|] eqn:E; [|discriminate].
  inv_Ok. cbn [handlers threads alarmClock trace set_handlers]. repeat split.
  - intros h' Hh'. now rewrite lookup_insert_ne by congruence.
  - rewrite lookup_insert_eq. cbn. now rewrite Hf.
Qed.

Lemma queueOnly_dequeueWait h i : queueOnly h (dequeueWait h i).
Proof.
  unfold dequeueWait. apply queueOnly_bind; [apply queueOnly_load|]. intros r.
  destruct (eventQueueDequeueWait (queue r) i) as [[[status q] [e|]]|].
  - apply queueOnly_bind; [|intros; apply queueOnly_ret].
    apply queueOnly_modify. reflexivity.
  - apply queueOnly_bind; [|intros; apply queueOnly_ret].
    apply queueOnly_modify. reflexivity.
  - intros w a w'. discriminate.
Qed.

Lemma queueOnly_switch h status : queueOnly h (eventHandlerThread_switch h status).
Proof.
  assert (Hopt : forall r (f : Z -> Action),
            (forall m h', dispatched h' [f m] = []) ->
            queueOnly h (if negb (lockOnDispatch r =? NULL)
                         then emit (f (lockOnDispatch r)) else ret tt)).
  { intros r f Hf. destruct (negb _); [|apply queueOnly_ret].
    apply queueOnly_emit. intros; apply Hf. }
  destruct status; cbn [eventHandlerThread_switch];
    try apply queueOnly_ret;
    try (apply queueOnly_bind; [apply queueOnly_assert|intros; apply queueOnly_ret]).
  apply queueOnly_bind; [apply queueOnly_load|]. intros r.
  apply queueOnly_bind; [apply Hopt; reflexivity|]. intros _.
  apply queueOnly_bind.
  { apply queueOnly_bind.
    - unfold dispatcherOf. destruct (type (scratch r)) as [|t|h'].
      + intros w a w'. discriminate.
      + apply queueOnly_ret.
      + apply queueOnly_bind; [apply queueOnly_load|intros; apply queueOnly_ret].
    - intros f. unfold callDispatcher. destruct (f =? NULL); [intros w a w'; discriminate|].
      apply queueOnly_emit. intros h' Hh'. cbn.
      destruct (Z.eqb_spec h h'); [congruence|reflexivity]. }
  intros _. apply queueOnly_bind; [apply Hopt; reflexivity|]. intros _. apply queueOnly_ret.
Qed.

Lemma queueOnly_body h i : queueOnly h (eventHandlerThread_body h i).
Proof.
  unfold eventHandlerThread_body.
  apply queueOnly_bind; [apply queueOnly_dequeueWait|]. intros; apply queueOnly_switch.
Qed.

Lemma queueOnly_loop h sched : queueOnly h (eventHandlerThread_loop h sched).
Proof.
  induction sched as [|i sched IH]; [apply queueOnly_ret|].
  intros w a w' E. cbn [eventHandlerThread_loop] in E.
  destruct (eventHandlerThread_body h i w) as [q w1| | |] eqn:Eb; try discriminate.
  - destruct (queueOnly_body h i _ _ _ Eb) as (F1 & M1 & T1 & C1 & D1).
    destruct (q =? 0).
    + destruct (IH _ _ _ E) as (F2 & M2 & T2 & C2 & D2).
      split; [|split; [|split; [|split]]]; try congruence.
      * intros h' Hh'. now rewrite F2, F1.
      * intros h' Hh'. now rewrite D2, D1.
    + injection E as <- <-. repeat split; assumption.
  - injection E as <- <-. repeat split.
Qed.

(** The same for the loop over any dispatchers that keep to the queue of
    the handler they are called for. *)
Lemma queueOnly_switch_with body h status :
  (forall f e, queueOnly h (body f h e)) ->
  queueOnly h (eventHandlerThread_switch_with body h status).
Proof.
  intros Hbody.
  assert (Hopt : forall r (f : Z -> Action),
            (forall m h', dispatched h' [f m] = []) ->
            queueOnly h (if negb (lockOnDispatch r =? NULL)
                         then emit (f (lockOnDispatch r)) else ret tt)).
  { intros r f Hf. destruct (negb _); [|apply queueOnly_ret].
    apply queueOnly_emit. intros; apply Hf. }
  destruct status; cbn [eventHandlerThread_switch_with];
    try apply queueOnly_ret;
    try (apply queueOnly_bind; [apply queueOnly_assert|intros; apply queueOnly_ret]).
  apply queueOnly_bind.
  { apply queueOnly_bind; [apply queueOnly_load|]. intros r.
    apply queueOnly_bind; [apply Hopt; reflexivity|]. intros _.
    apply queueOnly_bind.
    - unfold dispatcherOf. destruct (type (scratch r)) as [|t|h'].
      + intros w a w'. discriminate.
      + apply queueOnly_ret.
      + apply queueOnly_bind; [apply queueOnly_load|intros; apply queueOnly_ret].
    - intros f. unfold callDispatcher_with.
      destruct (f =? NULL); [intros w a w'; discriminate|].
      apply queueOnly_bind; [|intros _; apply Hbody].
      apply queueOnly_emit. intros h' Hh'. cbn.
      destruct (Z.eqb_spec h h'); [congruence|reflexivity]. }
  intros _. apply queueOnly_bind; [|intros; apply queueOnly_ret].
  apply queueOnly_bind; [apply queueOnly_load|]. intros r. apply Hopt; reflexivity.
Qed.

Lemma queueOnly_loop_with body h sched :
  (forall f e, queueOnly h (body f h e)) ->
  queueOnly h (eventHandlerThread_loop_with dequeueWait body h sched).
Proof.
  intros Hbody.
  induction sched as [|i sched IH]; [apply queueOnly_ret|].
  intros w a w' E. cbn [eventHandlerThread_loop_with] in E.
  destruct (eventHandlerThread_body_with dequeueWait body h i w) as [q w1| | |] eqn:Eb;
    try discriminate.
  - assert (Hb : queueOnly h (eventHandlerThread_body_with dequeueWait body h i)).
    { unfold eventHandlerThread_body_with.
      apply queueOnly_bind; [apply queueOnly_dequeueWait|].
      intros; now apply queueOnly_switch_with. }
    destruct (Hb _ _ _ Eb) as (F1 & M1 & T1 & C1 & D1).
    destruct (q =? 0).
    + destruct (IH _ _ _ E) as (F2 & M2 & T2 & C2 & D2).
      split; [|split; [|split; [|split]]]; try congruence.
      * intros h' Hh'. now rewrite F2, F1.
      * intros h' Hh'. now rewrite D2, D1.
    + injection E as <- <-. repeat split; assumption.
  - injection E as <- <-. repeat split.
Qed.

Lemma queueOnly_answeringDispatcher h f e : queueOnly h (answeringDispatcher f h e).
Proof.
  unfold answeringDispatcher, eventHandlerSignalEvent.
  apply queueOnly_bind; [|intros; apply queueOnly_ret].
  apply queueOnly_bind; [apply queueOnly_modify; reflexivity|]. intros _.
  apply queueOnly_bind; [|intros; apply queueOnly_ret].
  apply queueOnly_emit. reflexivity.
Qed.

Lemma metadata_fields r r' :
  metadata r' = metadata r ->
  lock r' = lock r /\ thread r' = thread r /\ timeoutAlarmId r' = timeoutAlarmId r
  /\ timeoutEventType r' = timeoutEventType r /\ timeoutContext r' = timeoutContext r
  /\ timeout r' = timeout r /\ lockOnDispatch r' = lockOnDispatch r
  /\ name r' = name r /\ types r' = types r /\ typesCount r' = typesCount r
  /\ handlerEventSize r' = handlerEventSize r.
Proof.
  intros H. conjs.
  - exact (f_equal lock H).
  - exact (f_equal thread H).
  - exact (f_equal timeoutAlarmId H).
  - exact (f_equal timeoutEventType H).
  - exact (f_equal timeoutContext H).
  - exact (f_equal timeout H).
  - exact (f_equal lockOnDispatch H).
  - exact (f_equal name H).
  - exact (f_equal types H).
  - exact (f_equal typesCount H).
  - exact (f_equal handlerEventSize H).
Qed.

(** *** Start, turns of the worker, stop *)

(** The loop and what follows it, on a queue that is not aborted: the first
    [length sched] pending events are dispatched and the thread stays in
    its loop. *)
Lemma resume_turns tid h r w sched :
  handlers w !! h = Some r ->
  abort (queue r) = false -> forallb (dispatchable w) (pending (queue r)) = true ->
  exists w' r',
    eventHandlerThread_resume tid h sched w = Ok false w'
    /\ handlers w' !! h = Some r'
    /\ metadata r' = metadata r
    /\ abort (queue r') = false
    /\ pending (queue r') = skipn (length sched) (pending (queue r))
    /\ headLane (queue r') = skipn (length sched) (headLane (queue r))
    /\ tailLane (queue r')
       = skipn (length sched - length (headLane (queue r))) (tailLane (queue r))
    /\ dispatched h (trace w')
       = dispatched h (trace w) ++ firstn (length sched) (pending (queue r))
    /\ threads w' = <[tid := InLoop h]> (threads w)
    /\ alarmClock w' = alarmClock w
    /\ typesOf w' = typesOf w
    /\ (forall h', h' <> h -> handlers w' !! h' = handlers w !! h')
    /\ (forall h', h' <> h -> dispatched h' (trace w') = dispatched h' (trace w)).
Proof.
  intros H Ha Hd.
  destruct (loop_drains h sched r w H Ha Hd)
    as (w2 & r2 & E2 & H2 & Ha2 & Hp2 & Hhl2 & Htl2 & Hd2 & T2).
  destruct (queueOnly_loop h sched _ _ _ E2) as (F2 & M2 & Th2 & C2 & D2).
  rewrite H, H2 in M2.
  change (Some (metadata r2) = Some (metadata r)) in M2. apply (inj Some) in M2.
  unfold eventHandlerThread_resume. rewrite (bind_Ok _ _ _ _ _ E2). cbn [Z.eqb].
  eexists _, r2. split; [reflexivity|].
  unfold typesOf in *. cbn [handlers threads alarmClock trace set_threads].
  split; [exact H2|]. split; [exact M2|]. split; [exact Ha2|]. split; [exact Hp2|].
  split; [exact Hhl2|]. split; [exact Htl2|]. split; [exact Hd2|].
  split; [now rewrite Th2|]. split; [exact C2|]. split; [exact T2|].
  split; [exact F2|exact D2].
Qed.

(** The worker of a running handler, given [sched], dispatches the first
    [length sched] pending events and stays in its loop. *)
Lemma worker_turns h r w s sched :
  running w h r -> threads w !! thread r = Some s ->
  abort (queue r) = false -> forallb (dispatchable w) (pending (queue r)) = true ->
  exists w' r',
    runThread (thread r) sched w = Ok false w'
    /\ running w' h r'
    /\ metadata r' = metadata r
    /\ abort (queue r') = false
    /\ pending (queue r') = skipn (length sched) (pending (queue r))
    /\ headLane (queue r') = skipn (length sched) (headLane (queue r))
    /\ tailLane (queue r')
       = skipn (length sched - length (headLane (queue r))) (tailLane (queue r))
    /\ dispatched h (trace w')
       = dispatched h (trace w) ++ firstn (length sched) (pending (queue r))
    /\ threads w' = <[thread r := InLoop h]> (threads w)
    /\ alarmClock w' = alarmClock w
    /\ typesOf w' = typesOf w
    /\ (forall h', h' <> h -> handlers w' !! h' = handlers w !! h')
    /\ (forall h', h' <> h -> dispatched h' (trace w') = dispatched h' (trace w)).
Proof.
  intros (H & Hl & Ht & Hth & Hclock) Hs Ha Hd.
  assert (Hcase : s = AtEntry h \/ s = InLoop h)
    by (destruct Hth as [E|E]; rewrite E in Hs; injection Hs as <-; auto).
  assert (Hresume : forall w1,
            handlers w1 = handlers w -> threads w1 = threads w ->
            alarmClock w1 = alarmClock w ->
            (forall h', dispatched h' (trace w1) = dispatched h' (trace w)) ->
            exists w' r',
              eventHandlerThread_resume (thread r) h sched w1 = Ok false w'
              /\ running w' h r'
              /\ metadata r' = metadata r
              /\ abort (queue r') = false
              /\ pending (queue r') = skipn (length sched) (pending (queue r))
              /\ headLane (queue r') = skipn (length sched) (headLane (queue r))
              /\ tailLane (queue r')
                 = skipn (length sched - length (headLane (queue r))) (tailLane (queue r))
              /\ dispatched h (trace w')
                 = dispatched h (trace w) ++ firstn (length sched) (pending (queue r))
              /\ threads w' = <[thread r := InLoop h]> (threads w)
              /\ alarmClock w' = alarmClock w
              /\ typesOf w' = typesOf w
              /\ (forall h', h' <> h -> handlers w' !! h' = handlers w !! h')
              /\ (forall h', h' <> h ->
                    dispatched h' (trace w') = dispatched h' (trace w))).
  { intros w1 Hh1 Ht1 Hc1 Hd1.
    assert (H1 : handlers w1 !! h = Some r) by now rewrite Hh1.
    assert (T1 : typesOf w1 = typesOf w) by (unfold typesOf; now rewrite Hh1).
    destruct (resume_turns (thread r) h r w1 sched H1 Ha)
      as (w2 & r2 & E2 & H2 & M2 & Ha2 & Hp2 & Hhl2 & Htl2 & Hd2 & Th2 & C2 & T2 & F2 & D2).
    { now rewrite (forallb_dispatchable_typesOf w w1 _ T1). }
    destruct (metadata_fields _ _ M2) as (Hl2 & Htid2 & Hid2 & _).
    exists w2, r2. split; [exact E2|]. split.
    { split; [exact H2|]. split; [congruence|]. split; [congruence|]. split.
      - right. rewrite Htid2, Th2. apply lookup_insert_eq.
      - destruct Hclock as [E|E]; [left; congruence|right].
        rewrite C2, Hc1. exact E. }
    split; [exact M2|]. split; [exact Ha2|]. split; [exact Hp2|].
    split; [exact Hhl2|]. split; [exact Htl2|].
    split; [now rewrite Hd2, Hd1|].
    split; [now rewrite Th2, Ht1|]. split; [now rewrite C2, Hc1|].
    split; [now rewrite T2|]. split.
    - intros h' Hh'. rewrite F2 by exact Hh'. now rewrite Hh1.
    - intros h' Hh'. rewrite D2 by exact Hh'. apply Hd1. }
  unfold runThread. rewrite Hs. destruct Hcase as [-> | ->].
  - unfold eventHandlerThread.
    rewrite (bind_Ok _ _ _ _ _ (prologue_Ok (thread r) h r w H Hl Ht)).
    apply Hresume; try reflexivity.
    intros h'. cbn [trace set_trace]. rewrite dispatched_app. cbn. now rewrite app_nil_r.
  - apply Hresume; reflexivity.
Qed.

Lemma start_runs h r w :
  stopped w h r ->
  exists w1,
    eventHandlerStart h w = Ok tt w1
    /\ running w1 h (startedRecord w r)
    /\ handlers w1 = <[h := startedRecord w r]> (handlers w)
    /\ threads w1 = <[Z.pos (nextThread w) := AtEntry h]> (threads w)
    /\ alarmClock w1 <> None
    /\ armedAlarms w1
       = armedAlarms w
         ++ (if negb (NULL =? eventDispatcher (timeoutEventType r))
             then [timeoutAlarm (Z.pos (nextAlarmId (clockOf w))) h (timeout r)] else [])
    /\ (forall h', dispatched h' (trace w1) = dispatched h' (trace w))
    /\ typesOf w1 = typesOf w.
Proof.
  intros Hs. pose proof Hs as (H & Hl & Ht).
  destruct (start_stopped h r w Hs) as (w1 & E1 & Hh1 & Ht1 & Hc1 & Htr1).
  cbn zeta in *. exists w1. split; [exact E1|].
  assert (Hr1 : handlers w1 !! h = Some (startedRecord w r))
    by (rewrite Hh1; apply lookup_insert_eq).
  conjs.
  - split; [exact Hr1|]. unfold startedRecord.
    split; [destruct (negb _); cbn; exact Hl|].
    split; [destruct (negb _); cbn; discriminate|].
    split.
    + left. replace (thread _) with (Z.pos (nextThread w)) by (destruct (negb _); reflexivity).
      rewrite Ht1. apply lookup_insert_eq.
    + right. rewrite Hc1. discriminate.
  - exact Hh1.
  - exact Ht1.
  - rewrite Hc1. discriminate.
  - unfold armedAlarms at 1. rewrite Hc1. destruct (negb _); cbn [alarms].
    + reflexivity.
    + now rewrite armedAlarms_clockOf, app_nil_r.
  - intros h'. rewrite Htr1, !dispatched_app. destruct (negb _); cbn; now rewrite app_nil_r.
  - eapply typesOf_insert_same; [exact H| |exact Hh1].
    unfold startedRecord. destruct (negb _); reflexivity.
Qed.

Lemma start_then_worker_turns h r w sched :
  stopped w h r -> abort (queue r) = false ->
  forallb (dispatchable w) (pending (queue r)) = true ->
  exists w1 w2 r2,
    eventHandlerStart h w = Ok tt w1
    /\ runThread (Z.pos (nextThread w)) sched w1 = Ok false w2
    /\ running w2 h r2
    /\ metadata r2 = metadata (startedRecord w r)
    /\ abort (queue r2) = false
    /\ pending (queue r2) = skipn (length sched) (pending (queue r))
    /\ dispatched h (trace w1) = dispatched h (trace w)
    /\ dispatched h (trace w2)
       = dispatched h (trace w) ++ firstn (length sched) (pending (queue r))
    /\ threads w2 = <[Z.pos (nextThread w) := InLoop h]> (threads w)
    /\ alarmClock w2 = alarmClock w1
    /\ typesOf w2 = typesOf w.
Proof.
  intros Hs Ha Hd.
  destruct (start_runs h r w Hs) as (w1 & E1 & Hrun & Hh1 & Ht1 & Hc1 & Ha1 & Hd1 & T1).
  assert (Hq : queue (startedRecord w r) = queue r)
    by (unfold startedRecord; destruct (negb _); reflexivity).
  assert (Htid : thread (startedRecord w r) = Z.pos (nextThread w))
    by (unfold startedRecord; destruct (negb _); reflexivity).
  destruct (worker_turns h (startedRecord w r) w1 (AtEntry h) sched Hrun)
    as (w2 & r2 & E2 & Hrun2 & M2 & Ha2 & Hp2 & _ & _ & Hd2 & Ht2 & Hc2 & T2 & _ & _).
  { rewrite Htid, Ht1. apply lookup_insert_eq. }
  { now rewrite Hq. }
  { now rewrite Hq, (forallb_dispatchable_typesOf w w1 _ T1). }
  rewrite Htid, Hq in *.
  exists w1, w2, r2.
  split; [exact E1|]. split; [exact E2|]. split; [exact Hrun2|]. split; [exact M2|].
  split; [exact Ha2|]. split; [exact Hp2|]. split; [apply Hd1|].
  split; [now rewrite Hd2, Hd1|].
  split; [now rewrite Ht2, Ht1, insert_insert_eq|].
  split; [exact Hc2|]. now rewrite T2.
Qed.

(** X1.  Events that are queued when a stopped handler is started are not
    lost: [eventHandlerStart] itself dispatches nothing, and the new worker
    thread, given [length sched] turns of its loop, has dispatched the first
    [length sched] of them in the order of the queue (head lane first) and
    left the rest pending; with enough turns all of them are dispatched.
    The worker then stands in its loop. *)
Theorem start_dispatches_what_is_queued h r w sched :
  stopped w h r -> abort (queue r) = false ->
  forallb (dispatchable w) (pending (queue r)) = true ->
  exists w1 w2 r2,
    eventHandlerStart h w = Ok tt w1
    /\ dispatched h (trace w1) = dispatched h (trace w)
    /\ runThread (Z.pos (nextThread w)) sched w1 = Ok false w2
    /\ handlers w2 !! h = Some r2
    /\ dispatched h (trace w2)
       = dispatched h (trace w) ++ firstn (length sched) (pending (queue r))
    /\ pending (queue r2) = skipn (length sched) (pending (queue r))
    /\ ((length (pending (queue r)) <= length sched)%nat ->
        dispatched h (trace w2) = dispatched h (trace w) ++ pending (queue r)
        /\ pending (queue r2) = [])
    /\ threads w2 !! Z.pos (nextThread w) = Some (InLoop h).
Proof.
  intros Hs Ha Hd.
  destruct (start_then_worker_turns h r w sched Hs Ha Hd)
    as (w1 & w2 & r2 & E1 & E2 & Hrun2 & _ & _ & Hp2 & Hd1 & Hd2 & Ht2 & _).
  exists w1, w2, r2.
  split; [exact E1|]. split; [exact Hd1|]. split; [exact E2|]. split; [apply Hrun2|].
  split; [exact Hd2|]. split; [exact Hp2|]. split.
  - intros Hlen. split.
    + rewrite Hd2. now rewrite firstn_all2.
    + rewrite Hp2. now apply skipn_all2.
  - rewrite Ht2. apply lookup_insert_eq.
Qed.

Lemma start_dispatches_what_is_queued_witness :
  exists w1 w2 r2,
    eventHandlerStart 1 queuedWorld = Ok tt w1
    /\ dispatched 1 (trace w1) = dispatched 1 (trace queuedWorld)
    /\ runThread 1 [false; false] w1 = Ok false w2
    /\ handlers w2 !! 1 = Some r2
    /\ dispatched 1 (trace w2)
       = dispatched 1 (trace queuedWorld) ++ [sampleEvent 7; sampleEvent 5]
    /\ pending (queue r2) = [sampleEvent 6]
    /\ ((3 <= 2)%nat ->
        dispatched 1 (trace w2)
        = dispatched 1 (trace queuedWorld) ++ [sampleEvent 7; sampleEvent 5; sampleEvent 6]
        /\ pending (queue r2) = [])
    /\ threads w2 !! 1 = Some (InLoop 1).
Proof.
  apply (start_dispatches_what_is_queued 1 (recordAt 1 queuedWorld) queuedWorld
           [false; false]).
  - stopped_ok.
  - reflexivity.
  - reflexivity.
Defined.

Lemma dispatched_stopCalls h' h r s : dispatched h' (stopCalls h r s) = [].
Proof.
  unfold stopCalls, threadExitCalls. rewrite !dispatched_app.
  destruct (negb _); destruct s; reflexivity.
Qed.

Lemma forallb_sub {A} (f : A -> bool) (l l' : list A) :
  (forall x, In x l' -> In x l) -> forallb f l = true -> forallb f l' = true.
Proof.
  intros Hsub H. rewrite forallb_forall in *. auto.
Qed.

(** X2.  A stop of a running handler whose wait ends with the worker's exit
    drops the events that are then pending, for good.  The worker has
    dispatched the events it got to in the turns it had before the stop;
    after the stop the queue is empty, and the handler can be started
    again: what is signalled after the stop is dispatched by the worker of
    the next start, out-of-band signals first, each lane in the order of
    the signals, and the dropped events never are. *)
Theorem stop_discards_pending_events_and_allows_restart
    h r w s sched0 i sched sigs sched' :
  running w h r -> threads w !! thread r = Some s ->
  abort (queue r) = false ->
  forallb (dispatchable w) (pending (queue r)) = true ->
  forallb (dispatchable w) (map signalled sigs) = true ->
  exists w0 w1 w2 w3 w4 r1,
    runThread (thread r) sched0 w = Ok false w0
    /\ eventHandlerStop h (i :: sched) w0 = Ok tt w1
    /\ handlers w1 !! h = Some r1
    /\ pending (queue r1) = []
    /\ dispatched h (trace w1)
       = dispatched h (trace w) ++ firstn (length sched0) (pending (queue r))
    /\ signalAll h sigs w1 = Ok tt w2
    /\ eventHandlerStart h w2 = Ok tt w3
    /\ runThread (Z.pos (nextThread w2)) sched' w3 = Ok false w4
    /\ dispatched h (trace w4)
       = dispatched h (trace w)
         ++ firstn (length sched0) (pending (queue r))
         ++ firstn (length sched') (oobSignals sigs ++ tailSignals sigs).
Proof.
  intros Hrun Hs Ha Hd Hdsig. pose proof Hrun as (H & Hl & Ht & Hth & Hclock).
  destruct (worker_turns h r w s sched0 Hrun Hs Ha Hd)
    as (w0 & r0 & E0 & Hrun0 & M0 & _ & _ & _ & _ & Hd0 & Ht0 & _ & T0 & _ & _).
  destruct (metadata_fields _ _ M0) as (Hl0 & Htid0 & _).
  assert (Hs0 : threads w0 !! thread r0 = Some (InLoop h)).
  { rewrite Htid0, Ht0. apply lookup_insert_eq. }
  destruct (stop_running h r0 w0 (InLoop h) i sched Hrun0 Hs0)
    as (w1 & E1 & Hh1 & Ht1 & Ha1 & Htr1).
  assert (T1 : typesOf w1 = typesOf w)
    by (rewrite <- T0; exact (constTypes_stop h _ _ _ _ E1)).
  assert (Hr1 : handlers w1 !! h = Some (stoppedRecord r0))
    by (rewrite Hh1; apply lookup_insert_eq).
  destruct (signalAll_spec h sigs (stoppedRecord r0) w1 Hr1) as (w2 & E2 & Hh2 & Hd2).
  set (r2 := set_queue (queueAfter sigs (stoppedRecord r0)) (stoppedRecord r0)) in *.
  assert (Hr2 : handlers w2 !! h = Some r2) by (rewrite Hh2; apply lookup_insert_eq).
  assert (T2 : typesOf w2 = typesOf w).
  { rewrite <- T1. eapply typesOf_insert_same; [exact Hr1| |exact Hh2]. reflexivity. }
  assert (Hp2 : pending (queue r2) = oobSignals sigs ++ tailSignals sigs) by reflexivity.
  destruct (start_then_worker_turns h r2 w2 sched')
    as (w3 & w4 & r4 & E3 & E4 & _ & _ & _ & _ & _ & Hd4 & _).
  { split; [exact Hr2|]. split; [exact (eq_trans Hl0 Hl)|reflexivity]. }
  { reflexivity. }
  { rewrite Hp2, (forallb_dispatchable_typesOf w w2 _ T2).
    eapply forallb_sub; [|exact Hdsig].
    intros e He. apply in_app_or in He as [He|He];
      [now apply oobSignals_signalled|now apply tailSignals_signalled]. }
  assert (Hd1 : dispatched h (trace w1)
                = dispatched h (trace w) ++ firstn (length sched0) (pending (queue r))).
  { now rewrite Htr1, dispatched_app, dispatched_stopCalls, app_nil_r. }
  exists w0, w1, w2, w3, w4, (stoppedRecord r0).
  split; [exact E0|]. split; [exact E1|]. split; [exact Hr1|]. split; [reflexivity|].
  split; [exact Hd1|]. split; [exact E2|]. split; [exact E3|]. split; [exact E4|].
  now rewrite Hd4, Hd2, Hp2, Hd1, <- app_assoc.
Qed.

Lemma stop_discards_pending_events_and_allows_restart_witness :
  exists w0 w1 w2 w3 w4 r1,
    runThread 1 [false] queuedStartedWorld = Ok false w0
    /\ eventHandlerStop 1 [false] w0 = Ok tt w1
    /\ handlers w1 !! 1 = Some r1
    /\ pending (queue r1) = []
    /\ dispatched 1 (trace w1) = dispatched 1 (trace queuedStartedWorld) ++ [sampleEvent 7]
    /\ signalAll 1 [Tail (sampleEvent 8); OOB (sampleEvent 9)] w1 = Ok tt w2
    /\ eventHandlerStart 1 w2 = Ok tt w3
    /\ runThread (Z.pos (nextThread w2)) [false; false; true] w3 = Ok false w4
    /\ dispatched 1 (trace w4)
       = dispatched 1 (trace queuedStartedWorld)
         ++ [sampleEvent 7] ++ [sampleEvent 9; sampleEvent 8].
Proof.
  apply (stop_discards_pending_events_and_allows_restart 1 (recordAt 1 queuedStartedWorld)
           queuedStartedWorld (AtEntry 1) [false] false []
           [Tail (sampleEvent 8); OOB (sampleEvent 9)] [false; false; true]).
  - running_ok.
  - reflexivity.
  - reflexivity.
  - reflexivity.
  - reflexivity.
Defined.




Lemma isCurrentThread_Ok self h r w :
  handlers w !! h = Some r -> lock r = false ->
  eventHandlerIsCurrentThread self h w =
  Ok (if self =? thread r then 1 else 0)
     (set_trace (trace w ++ [Call_pthread_mutex_lock h; Call_pthread_mutex_unlock h]) w).
Proof.
  intros H Hl. unfold eventHandlerIsCurrentThread.
  call lock_Ok. call load_Ok. call unlock_Ok.
  unfold ret. cbn [thread set_lock]. f_equal.
  apply world_ext; cbn; auto.
  - rewrite insert_insert_eq, unlock_after_lock by assumption. now apply insert_id.
  - now rewrite <- app_assoc.
Qed.

(** X4.  Before the start [eventHandlerIsRunning] answers 0; after it, and
    after any number of turns of the worker, it answers 1, and
    [eventHandlerIsCurrentThread] answers 1 for the worker thread that the
    start created and 0 for every other thread.  Neither call finds the
    lock held. *)
Theorem running_handler_names_its_worker h r w sched self :
  stopped w h r -> abort (queue r) = false ->
  forallb (dispatchable w) (pending (queue r)) = true ->
  let tid := Z.pos (nextThread w) in
  exists w1 w2,
    eventHandlerStart h w = Ok tt w1
    /\ runThread tid sched w1 = Ok false w2
    /\ tid <> PTHREAD_NULL
    /\ (exists w', eventHandlerIsRunning h w = Ok 0 w')
    /\ (exists w', eventHandlerIsRunning h w1 = Ok 1 w')
    /\ (exists w', eventHandlerIsRunning h w2 = Ok 1 w')
    /\ (exists w', eventHandlerIsCurrentThread self h w1
                   = Ok (if self =? tid then 1 else 0) w')
    /\ (exists w', eventHandlerIsCurrentThread self h w2
                   = Ok (if self =? tid then 1 else 0) w').
Proof.
  intros Hs Ha Hd tid. pose proof Hs as (H & Hl & Ht).
  destruct (start_runs h r w Hs) as (w1' & E1' & Hrun1 & _).
  destruct (start_then_worker_turns h r w sched Hs Ha Hd)
    as (w1 & w2 & r2 & E1 & E2 & Hrun2 & M2 & _).
  assert (w1' = w1) by congruence. subst w1'.
  assert (Htid : thread (startedRecord w r) = tid)
    by (unfold startedRecord; destruct (negb _); reflexivity).
  destruct (metadata_fields _ _ M2) as (_ & Htid2 & _).
  destruct Hrun1 as (H1 & Hl1 & Ht1 & _). destruct Hrun2 as (H2 & Hl2 & Ht2 & _).
  exists w1, w2. split; [exact E1|]. split; [exact E2|]. split; [discriminate|].
  split.
  { rewrite (isRunning_Ok h r w H Hl), Ht. eexists. reflexivity. }
  split.
  { rewrite (isRunning_Ok h _ w1 H1 Hl1), Htid. eexists. reflexivity. }
  split.
  { rewrite (isRunning_Ok h _ w2 H2 Hl2), Htid2, Htid. eexists. reflexivity. }
  split.
  { rewrite (isCurrentThread_Ok self h _ w1 H1 Hl1), Htid. eexists. reflexivity. }
  rewrite (isCurrentThread_Ok self h _ w2 H2 Hl2), Htid2, Htid. eexists. reflexivity.
Qed.

Lemma running_handler_names_its_worker_witness :
  exists w1 w2,
    eventHandlerStart 1 queuedWorld = Ok tt w1
    /\ runThread 1 [false] w1 = Ok false w2
    /\ 1 <> PTHREAD_NULL
    /\ (exists w', eventHandlerIsRunning 1 queuedWorld = Ok 0 w')
    /\ (exists w', eventHandlerIsRunning 1 w1 = Ok 1 w')
    /\ (exists w', eventHandlerIsRunning 1 w2 = Ok 1 w')
    /\ (exists w', eventHandlerIsCurrentThread 2 1 w1 = Ok 0 w')
    /\ (exists w', eventHandlerIsCurrentThread 2 1 w2 = Ok 0 w').
Proof.
  apply (running_handler_names_its_worker 1 (recordAt 1 queuedWorld) queuedWorld
           [false] 2).
  - stopped_ok.
  - reflexivity.
  - reflexivity.
Defined.

(** X5.  The loop of [eventHandlerThread], run over dispatchers that
    themselves change at most the queue and the scratch slot of the handler
    they are called for, changes nothing of its handler but the queue and
    the scratch slot: lock, thread handle, alarm id and timeout
    registration are as before.  Every other handler, the threads and the
    alarm clock are untouched, and no dispatcher is called on behalf of
    another handler.  What a dispatcher does beyond that is no part of the
    statement. *)
Theorem worker_loop_touches_only_its_queue dispatcherBody h sched w timeToQuit w' :
  (forall f e, queueOnly h (dispatcherBody f h e)) ->
  eventHandlerThread_loop_with dequeueWait dispatcherBody h sched w = Ok timeToQuit w' ->
  (forall h', h' <> h -> handlers w' !! h' = handlers w !! h')
  /\ (forall r, handlers w !! h = Some r ->
        exists r', handlers w' !! h = Some r'
                   /\ lock r' = lock r /\ thread r' = thread r
                   /\ timeoutAlarmId r' = timeoutAlarmId r
                   /\ timeoutEventType r' = timeoutEventType r
                   /\ timeoutContext r' = timeoutContext r
                   /\ timeout r' = timeout r
                   /\ r' = set_queue (queue r') (set_scratch (scratch r') r))
  /\ threads w' = threads w
  /\ alarmClock w' = alarmClock w
  /\ (forall h', h' <> h -> dispatched h' (trace w') = dispatched h' (trace w)).
Proof.
  intros Hbody E.
  destruct (queueOnly_loop_with dispatcherBody h sched Hbody _ _ _ E) as (F & M & T & C & D).
  split; [exact F|]. split; [|auto].
  intros r Hr. rewrite Hr in M. destruct (handlers w' !! h) as [r'|]; [|discriminate].
  change (Some (metadata r') = Some (metadata r)) in M. apply (inj Some) in M.
  destruct (metadata_fields _ _ M) as (Hl & Ht & Hid & Hty & Hctx & Hto & _).
  exists r'. split; [reflexivity|]. conjs; try assumption.
  destruct r, r'. unfold metadata, set_scratch, set_queue in *. cbn in *. congruence.
Qed.

Lemma worker_loop_touches_only_its_queue_witness :
  (forall f e, queueOnly 1 (answeringDispatcher f 1 e))
  /\ eventHandlerThread_loop_with dequeueWait answeringDispatcher 1 [false; false]
       signalledWorld = Ok 0 answeredWorld
  /\ dispatched 1 (trace answeredWorld) = [sampleEvent 5; sampleEvent 9]
  /\ pending (queue (recordAt 1 answeredWorld)) = [sampleEvent 9]
  /\ (forall h', h' <> 1 -> handlers answeredWorld !! h' = handlers signalledWorld !! h')
  /\ (forall r, handlers signalledWorld !! 1 = Some r ->
        exists r', handlers answeredWorld !! 1 = Some r'
                   /\ lock r' = lock r /\ thread r' = thread r
                   /\ timeoutAlarmId r' = timeoutAlarmId r
                   /\ timeoutEventType r' = timeoutEventType r
                   /\ timeoutContext r' = timeoutContext r
                   /\ timeout r' = timeout r
                   /\ r' = set_queue (queue r') (set_scratch (scratch r') r))
  /\ threads answeredWorld = threads signalledWorld
  /\ alarmClock answeredWorld = alarmClock signalledWorld
  /\ (forall h', h' <> 1 ->
        dispatched h' (trace answeredWorld) = dispatched h' (trace signalledWorld)).
Proof.
  split; [intros f e; apply queueOnly_answeringDispatcher|].
  split; [reflexivity|]. split; [reflexivity|]. split; [reflexivity|].
  apply (worker_loop_touches_only_its_queue answeringDispatcher 1 [false; false]
           signalledWorld 0 answeredWorld).
  - intros f e. apply queueOnly_answeringDispatcher.
  - reflexivity.
Defined.

(** *** The timeout *)

Lemma setTimeoutDispatcher_Ok h r w m dispatcher context :
  handlers w !! h = Some r -> lock r = false ->
  eventHandlerSetTimeoutDispatcher h m dispatcher context w =
  Ok tt (set_trace (trace w ++ [Call_pthread_mutex_lock h; Call_pthread_mutex_unlock h])
           (set_handlers
              (<[h := set_timeoutRegistration
                        {| eventName := eventName (timeoutEventType r);
                           eventSize := eventSize (timeoutEventType r);
                           eventDispatcher := dispatcher |}
                        context
                        {| tv_sec := long (uint (uint m / 1000));
                           tv_nsec := long (uint (1000000 * (uint m mod 1000))) |}
                        r]> (handlers w)) w)).
Proof.
  intros H Hl. unfold eventHandlerSetTimeoutDispatcher.
  call lock_Ok. call modify_Ok. last_call unlock_Ok.
  f_equal. apply world_ext; cbn; auto.
  - rewrite !insert_insert_eq. f_equal. destruct r; cbn in *. now subst.
  - now rewrite <- app_assoc.
Qed.

(** X6.  [eventHandlerSetTimeoutDispatcher] on a handler whose timeout alarm
    is armed does not touch the alarm: it stays armed with its old period.
    The new context and the new dispatcher are in force at once: the next
    firing queues an event with the new context, and timeout events are
    dispatched through the new dispatcher.  If the new dispatcher is [NULL],
    the worker's next turn on such an event calls through a null
    pointer. *)
Theorem setTimeoutDispatcher_while_armed h r w id p m dispatcher context expiration i :
  handlers w !! h = Some r -> lock r = false ->
  armed w id = Some (timeoutAlarm id h p) ->
  exists w1 r1 w2 r2,
    eventHandlerSetTimeoutDispatcher h m dispatcher context w = Ok tt w1
    /\ handlers w1 !! h = Some r1
    /\ armedAlarms w1 = armedAlarms w
    /\ armed w1 id = Some (timeoutAlarm id h p)
    /\ thread r1 = thread r
    /\ timeoutAlarmId r1 = timeoutAlarmId r
    /\ queue r1 = queue r
    /\ alarmClockFire id expiration w1 = Ok tt w2
    /\ handlers w2 !! h = Some r2
    /\ headLane (queue r2)
       = headLane (queue r)
         ++ [{| next := NULL; type := TypeTimeoutOf h;
                payload := PayloadTimeout context expiration |}]
    /\ dispatcherOf (TypeTimeoutOf h) w2 = Ok dispatcher w2
    /\ (dispatcher = NULL -> abort (queue r) = false -> headLane (queue r) = [] ->
        eventHandlerThread_body h i w2 = Fault).
Proof.
  intros H Hl Harmed.
  pose proof (setTimeoutDispatcher_Ok h r w m dispatcher context H Hl) as E1.
  set (r1 := set_timeoutRegistration _ _ _ r) in E1.
  set (w1 := set_trace _ _) in E1.
  assert (H1 : handlers w1 !! h = Some r1) by (subst w1; solve_lookup).
  assert (Ha1 : armed w1 id = Some (timeoutAlarm id h p)) by exact Harmed.
  pose proof (fire_timeout_alarm id h p expiration r1 w1 Ha1 H1) as E2.
  set (r2 := set_queue _ r1) in E2. set (w2 := set_trace _ _) in E2.
  assert (H2 : handlers w2 !! h = Some r2) by (subst w2; solve_lookup).
  assert (Hdisp : dispatcherOf (TypeTimeoutOf h) w2 = Ok dispatcher w2).
  { unfold dispatcherOf. now rewrite (bind_Ok _ _ _ _ _ (load_Ok _ _ _ H2)). }
  exists w1, r1, w2, r2. conjs; try reflexivity; try assumption.
  intros -> Ha Hh. unfold eventHandlerThread_body, dequeueWait.
  unfold bind at 1. erewrite bind_Ok by (eapply load_Ok; exact H2).
  unfold eventQueueDequeueWait.
  cbn [queue r2 set_queue eventQueueEnqueueHeadSignal abort headLane r1
       set_timeoutRegistration].
  rewrite Ha, Hh. cbn [app].
  erewrite bind_Ok by (eapply modify_Ok; exact H2).
  unfold ret. cbn [eventHandlerThread_switch].
  erewrite bind_Ok by (eapply load_Ok; solve_lookup).
  unfold bind at 1.
  match goal with
  | |- match (if ?b then _ else _) ?w0 with _ => _ end = _ =>
      assert (Hopt : exists w', (if b then emit (Call_lockOnDispatch_lock (lockOnDispatch r))
                                 else ret tt) w0 = Ok tt w'
                                /\ handlers w' = handlers w0)
  end.
  { destruct (negb _); eexists; split; reflexivity. }
  destruct Hopt as (w3 & E3 & Hh3).
  cbn [lockOnDispatch set_scratch set_queue r2 r1 set_timeoutRegistration] in *.
  rewrite E3.
  unfold bind at 1. unfold bind at 1.
  cbn [scratch set_scratch type timeoutEvent dispatcherOf].
  erewrite bind_Ok.
  2:{ eapply load_Ok. rewrite Hh3. solve_lookup. }
  reflexivity.
Qed.

Lemma setTimeoutDispatcher_while_armed_witness :
  exists w1 r1 w2 r2,
    eventHandlerSetTimeoutDispatcher 1 250 88 4321 startedWorld = Ok tt w1
    /\ handlers w1 !! 1 = Some r1
    /\ armedAlarms w1 = armedAlarms startedWorld
    /\ armed w1 1 = Some (timeoutAlarm 1 1 {| tv_sec := 1; tv_nsec := 500000000 |})
    /\ thread r1 = thread (recordAt 1 startedWorld)
    /\ timeoutAlarmId r1 = timeoutAlarmId (recordAt 1 startedWorld)
    /\ queue r1 = queue (recordAt 1 startedWorld)
    /\ alarmClockFire 1 {| tv_sec := 10; tv_nsec := 0 |} w1 = Ok tt w2
    /\ handlers w2 !! 1 = Some r2
    /\ headLane (queue r2)
       = [{| next := NULL; type := TypeTimeoutOf 1;
             payload := PayloadTimeout 4321 {| tv_sec := 10; tv_nsec := 0 |} |}]
    /\ dispatcherOf (TypeTimeoutOf 1) w2 = Ok 88 w2
    /\ (88 = NULL -> abort (queue (recordAt 1 startedWorld)) = false ->
        headLane (queue (recordAt 1 startedWorld)) = [] ->
        eventHandlerThread_body 1 false w2 = Fault).
Proof.
  apply (setTimeoutDispatcher_while_armed 1 (recordAt 1 startedWorld) startedWorld 1
           {| tv_sec := 1; tv_nsec := 500000000 |} 250 88 4321
           {| tv_sec := 10; tv_nsec := 0 |} false).
  - reflexivity.
  - reflexivity.
  - reflexivity.
Defined.

(** X7.  When the armed timeout alarm of a handler fires and the worker
    then takes a turn, the event dispatched is the timeout event, through
    the registered timeout dispatcher and inside the dispatch lock if there
    is one, although the events signalled before are still pending in the
    tail lane. *)
Theorem timeout_is_dispatched_ahead_of_pending_events h r w id p expiration i :
  handlers w !! h = Some r -> abort (queue r) = false -> headLane (queue r) = [] ->
  armed w id = Some (timeoutAlarm id h p) ->
  eventDispatcher (timeoutEventType r) <> NULL ->
  exists w1 w2 r2,
    alarmClockFire id expiration w = Ok tt w1
    /\ eventHandlerThread_loop h [i] w1 = Ok 0 w2
    /\ trace w2
       = trace w
         ++ [Call_eventQueueEnqueueHeadSignal h (timeoutEvent h r expiration)]
         ++ lockOnDispatchCalls r Call_lockOnDispatch_lock
         ++ [Call_eventDispatcher (eventDispatcher (timeoutEventType r)) h
               (timeoutEvent h r expiration)]
         ++ lockOnDispatchCalls r Call_lockOnDispatch_unlock
    /\ handlers w2 !! h = Some r2
    /\ headLane (queue r2) = []
    /\ tailLane (queue r2) = tailLane (queue r)
    /\ dispatched h (trace w2) = dispatched h (trace w) ++ [timeoutEvent h r expiration].
Proof.
  intros H Ha Hh Harmed Hf.
  pose proof (fire_timeout_alarm id h p expiration r w Harmed H) as E1.
  set (ev := timeoutEvent h r expiration) in *.
  set (r1 := set_queue _ r) in E1. set (w1 := set_trace _ _) in E1.
  assert (H1 : handlers w1 !! h = Some r1) by (subst w1; solve_lookup).
  set (q' := {| slotSize := slotSize (queue r); headLane := [];
                tailLane := tailLane (queue r); abort := false |}).
  set (r2 := set_scratch ev (set_queue q' r1)).
  set (w2 := set_handlers (<[h := r2]> (handlers w1)) w1).
  assert (E2 : dequeueWait h i w1 = Ok EVENT_STATUS_SUCCESS w2).
  { unfold dequeueWait. call load_Ok. unfold eventQueueDequeueWait.
    cbn [queue r1 set_queue eventQueueEnqueueHeadSignal abort headLane tailLane slotSize].
    rewrite Ha, Hh. cbn [app]. call modify_Ok. reflexivity. }
  assert (H2 : handlers w2 !! h = Some r2) by (subst w2; solve_lookup).
  assert (Hd : dispatcherOf (type (scratch r2)) w2
               = Ok (eventDispatcher (timeoutEventType r)) w2).
  { cbn [scratch r2 set_scratch type ev timeoutEvent dispatcherOf].
    now rewrite (bind_Ok _ _ _ _ _ (load_Ok _ _ _ H2)). }
  pose proof (switch_success h r2 w2 _ H2 Hd Hf) as E3.
  exists w1, (afterDispatch h r2 (eventDispatcher (timeoutEventType r)) w2), r2.
  split; [exact E1|]. split.
  { cbn [eventHandlerThread_loop]. unfold eventHandlerThread_body.
    rewrite (bind_Ok _ _ _ _ _ E2), E3. reflexivity. }
  assert (Htr : trace (afterDispatch h r2 (eventDispatcher (timeoutEventType r)) w2)
                = trace w
                  ++ [Call_eventQueueEnqueueHeadSignal h ev]
                  ++ lockOnDispatchCalls r Call_lockOnDispatch_lock
                  ++ [Call_eventDispatcher (eventDispatcher (timeoutEventType r)) h ev]
                  ++ lockOnDispatchCalls r Call_lockOnDispatch_unlock).
  { unfold afterDispatch. cbn [trace set_trace w2 set_handlers w1].
    rewrite <- !app_assoc. reflexivity. }
  split; [exact Htr|]. split; [exact H2|]. split; [reflexivity|]. split; [reflexivity|].
  rewrite Htr, !dispatched_app, !dispatched_lockOnDispatchCalls by reflexivity.
  cbn. now rewrite Z.eqb_refl.
Qed.

Lemma timeout_is_dispatched_ahead_of_pending_events_witness :
  exists w1 w2 r2,
    alarmClockFire 1 {| tv_sec := 10; tv_nsec := 0 |} signalledWorld = Ok tt w1
    /\ eventHandlerThread_loop 1 [false] w1 = Ok 0 w2
    /\ trace w2
       = trace signalledWorld
         ++ [Call_eventQueueEnqueueHeadSignal 1
               (timeoutEvent 1 (recordAt 1 signalledWorld) {| tv_sec := 10; tv_nsec := 0 |});
             Call_eventDispatcher 99 1
               (timeoutEvent 1 (recordAt 1 signalledWorld) {| tv_sec := 10; tv_nsec := 0 |})]
    /\ handlers w2 !! 1 = Some r2
    /\ headLane (queue r2) = []
    /\ tailLane (queue r2) = [sampleEvent 5]
    /\ dispatched 1 (trace w2)
       = dispatched 1 (trace signalledWorld)
         ++ [timeoutEvent 1 (recordAt 1 signalledWorld) {| tv_sec := 10; tv_nsec := 0 |}].
Proof.
  apply (timeout_is_dispatched_ahead_of_pending_events 1 (recordAt 1 signalledWorld)
           signalledWorld 1 {| tv_sec := 1; tv_nsec := 500000000 |}
           {| tv_sec := 10; tv_nsec := 0 |} false).
  - reflexivity.
  - reflexivity.
  - reflexivity.
  - reflexivity.
  - vm_compute. discriminate.
Defined.

(** *** The lock *)

(** X8.  While a thread holds the handler's lock, start, stop, destroy,
    the two queries and the timeout setter do not go on.  The signal
    functions and [eventHandlerClear] never take that lock and return; so
    does a turn of the worker's loop, which dispatches the next pending
    event. *)
Theorem held_lock_stops_control_calls_not_signals h r w sched self m dispatcher context e i :
  handlers w !! h = Some r -> lock r = true ->
  eventHandlerStart h w = Blocked
  /\ eventHandlerStop h sched w = Blocked
  /\ eventHandlerDestroy h sched w = Blocked
  /\ eventHandlerIsRunning h w = Blocked
  /\ eventHandlerIsCurrentThread self h w = Blocked
  /\ eventHandlerSetTimeoutDispatcher h m dispatcher context w = Blocked
  /\ (exists w', eventHandlerSignalEvent h e w = Ok EVENT_STATUS_SUCCESS w')
  /\ (exists w', eventHandlerSignalEventOOB h e w = Ok EVENT_STATUS_SUCCESS w')
  /\ (exists w', eventHandlerClear h w = Ok tt w')
  /\ (forall e0 rest,
        abort (queue r) = false -> pending (queue r) = e0 :: rest ->
        dispatchable w e0 = true ->
        exists w', eventHandlerThread_body h i w = Ok 0 w'
                   /\ dispatched h (trace w') = dispatched h (trace w) ++ [e0]).
Proof.
  intros H Hl.
  assert (Hlock : forall w0, handlers w0 = handlers w -> pthread_mutex_lock h w0 = Blocked).
  { intros w0 Hw0. unfold pthread_mutex_lock.
    erewrite bind_Ok by (eapply load_Ok; rewrite Hw0; exact H). now rewrite Hl. }
  assert (Hb : forall A (k : unit -> M A), bind (pthread_mutex_lock h) k w = Blocked).
  { intros A k. unfold bind. now rewrite Hlock. }
  conjs.
  - unfold eventHandlerStart. rewrite (bind_Ok _ _ _ _ _ (createIfNecessary_Ok 1 w)).
    unfold bind at 1. now rewrite Hlock.
  - apply Hb.
  - unfold eventHandlerDestroy, bind at 1. unfold eventHandlerStop. now rewrite Hb.
  - apply Hb.
  - apply Hb.
  - apply Hb.
  - rewrite (signalEvent_Ok h e r w H). eexists; reflexivity.
  - rewrite (signalEventOOB_Ok h e r w H). eexists; reflexivity.
  - unfold eventHandlerClear. call modify_Ok. eexists; reflexivity.
  - intros e0 rest Ha Hp Hd.
    destruct (body_dispatches h r w i e0 rest H Ha Hp Hd) as (w' & r' & E & _ & _ & _ & _ & _ & D & _).
    exists w'. split; assumption.
Qed.

Lemma held_lock_stops_control_calls_not_signals_witness :
  eventHandlerStart 1 lockedWorld = Blocked
  /\ eventHandlerStop 1 [false] lockedWorld = Blocked
  /\ eventHandlerDestroy 1 [false] lockedWorld = Blocked
  /\ eventHandlerIsRunning 1 lockedWorld = Blocked
  /\ eventHandlerIsCurrentThread 1 1 lockedWorld = Blocked
  /\ eventHandlerSetTimeoutDispatcher 1 250 88 4321 lockedWorld = Blocked
  /\ (exists w', eventHandlerSignalEvent 1 (sampleEvent 6) lockedWorld
                 = Ok EVENT_STATUS_SUCCESS w')
  /\ (exists w', eventHandlerSignalEventOOB 1 (sampleEvent 6) lockedWorld
                 = Ok EVENT_STATUS_SUCCESS w')
  /\ (exists w', eventHandlerClear 1 lockedWorld = Ok tt w')
  /\ (forall e0 rest,
        abort (queue (recordAt 1 lockedWorld)) = false ->
        pending (queue (recordAt 1 lockedWorld)) = e0 :: rest ->
        dispatchable lockedWorld e0 = true ->
        exists w', eventHandlerThread_body 1 false lockedWorld = Ok 0 w'
                   /\ dispatched 1 (trace w') = dispatched 1 (trace lockedWorld) ++ [e0]).
Proof.
  apply (held_lock_stops_control_calls_not_signals 1 (recordAt 1 lockedWorld) lockedWorld
           [false] 1 250 88 4321 (sampleEvent 6) false).
  - reflexivity.
  - reflexivity.
Defined.

(** *** Creating a handler *)

Lemma create_loop_prefix mid : forall pre post acc,
  eventHandlerCreate_loop (pre ++ mid ++ post) (length pre) (length mid) acc
  = Some (largestSize mid acc).
Proof.
  induction mid as [|t mid IH]; intros pre post acc; cbn [length eventHandlerCreate_loop].
  - reflexivity.
  - rewrite nth_error_app2, Nat.sub_diag by lia. cbn [app nth_error].
    replace (pre ++ t :: mid ++ post) with ((pre ++ [t]) ++ mid ++ post)
      by now rewrite <- app_assoc.
    replace (S (length pre)) with (length (pre ++ [t]))
      by (rewrite length_app; cbn; lia).
    rewrite IH. cbn [largestSize fold_left]. do 2 f_equal.
    destruct (Z.ltb_spec acc (eventSize t)); lia.
Qed.

Lemma create_loop_overrun n : forall types i acc,
  (i <= length types < i + n)%nat -> eventHandlerCreate_loop types i n acc = None.
Proof.
  induction n as [|n IH]; intros types i acc Hi; [lia|].
  cbn [eventHandlerCreate_loop].
  destruct (nth_error types i) as [t|] eqn:E; [|reflexivity].
  assert (i < length types)%nat by (apply nth_error_Some; congruence).
  apply IH. lia.
Qed.

Lemma substring_prefix n : forall s,
  String.length (String.substring 0 n s) = Nat.min n (String.length s)
  /\ exists rest, s = (String.substring 0 n s ++ rest)%string.
Proof.
  induction n as [|n IH]; intros s.
  - destruct s; cbn; (split; [reflexivity|]); eexists; reflexivity.
  - destruct s as [|c s]; cbn [String.substring String.length Nat.min].
    + split; [reflexivity|]. exists EmptyString. reflexivity.
    + destruct (IH s) as (Hlen & rest & Hrest). split; [now rewrite Hlen|].
      exists rest.
      change (String c s = String c (String.substring 0 n s ++ rest)%string).
      f_equal. exact Hrest.
Qed.

Lemma substring_all n : forall s,
  (String.length s <= n)%nat -> String.substring 0 n s = s.
Proof.
  induction n as [|n IH]; intros [|c s] H; cbn in *; try reflexivity; try lia.
  now rewrite IH by lia.
Qed.

(** X9.  [eventHandlerCreate] with a count that does not exceed the array of
    types, in a world whose addresses in use lie below the allocator's
    counter, returns a new handler, never [NULL], beside the handlers that
    exist: its address was not in use, every handler that was there keeps
    its record, and the addresses in use lie below the counter again.  The
    new handler is stopped (no thread, the lock free,
    [eventHandlerIsRunning] answers 0), its queue is empty and not aborted,
    no alarm id and no timeout dispatcher are recorded, the event size is
    the largest among [sizeof (BREventTimeout)] and the first [typesCount]
    types, and the name is the given one cut after 32 characters.  Threads,
    alarm clock and trace are as before.  With a count beyond the array the
    loop reads past its end. *)
Theorem create_makes_a_stopped_handler sizeof name types typesCount lockOnDispatch w :
  (0 <= typesCount <= Z.of_nat (length types) ->
   heapWellFormed w ->
   exists w' r,
     eventHandlerCreate sizeof name types typesCount lockOnDispatch w
     = Ok (Z.pos (nextAddress w)) w'
     /\ Z.pos (nextAddress w) <> NULL
     /\ handlers w !! Z.pos (nextAddress w) = None
     /\ handlers w' = <[Z.pos (nextAddress w) := r]> (handlers w)
     /\ (forall a r0, handlers w !! a = Some r0 -> handlers w' !! a = Some r0)
     /\ heapWellFormed w'
     /\ stopped w' (Z.pos (nextAddress w)) r
     /\ pending (queue r) = []
     /\ abort (queue r) = false
     /\ timeoutAlarmId r = ALARM_ID_NONE
     /\ eventDispatcher (timeoutEventType r) = NULL
     /\ handlerEventSize r = largestSize (firstn (Z.to_nat typesCount) types) sizeof
     /\ slotSize (queue r) = handlerEventSize r
     /\ (String.length (Event.name r) <= 32)%nat
     /\ (exists rest, name = (Event.name r ++ rest)%string)
     /\ ((String.length name <= 32)%nat -> Event.name r = name)
     /\ threads w' = threads w
     /\ alarmClock w' = alarmClock w
     /\ trace w' = trace w
     /\ (exists w'', eventHandlerIsRunning (Z.pos (nextAddress w)) w' = Ok 0 w''))
  /\ (Z.of_nat (length types) < typesCount ->
      eventHandlerCreate sizeof name types typesCount lockOnDispatch w = Fault).
Proof.
  split.
  - intros Hc Hwf. unfold eventHandlerCreate. cbn [eventSize].
    pose proof (create_loop_prefix (firstn (Z.to_nat typesCount) types) []
                  (skipn (Z.to_nat typesCount) types) sizeof) as Hloop.
    cbn [app length] in Hloop. rewrite firstn_skipn, length_firstn, Nat.min_l in Hloop by lia.
    rewrite Hloop. unfold calloc.
    destruct (substring_prefix 32 name) as (Hlen & rest & Hrest).
    assert (Hnew : handlers w !! Z.pos (nextAddress w) = None).
    { destruct (handlers w !! Z.pos (nextAddress w)) as [r0|] eqn:E0; [|reflexivity].
      specialize (Hwf _ _ E0). cbn in Hwf. lia. }
    eexists _, _. split; [reflexivity|].
    cbn [handlers threads alarmClock trace]. split; [discriminate|].
    split; [exact Hnew|]. split; [reflexivity|].
    split.
    { intros a r0 Ha. rewrite lookup_insert_ne; [exact Ha|]. congruence. }
    split.
    { unfold heapWellFormed. cbn [handlers nextAddress].
      apply map_Forall_insert; [exact Hnew|]. split; [lia|].
      intros a r0 Ha. specialize (Hwf _ _ Ha). cbn in Hwf. lia. }
    split.
    { split; [apply lookup_insert_eq|]. split; reflexivity. }
    change (strlcpy name PTHREAD_NAME_SIZE) with (String.substring 0 32 name).
    conjs; try reflexivity.
    all: cbn [Event.name].
    + rewrite Hlen. lia.
    + exists rest. exact Hrest.
    + intros Hshort. now apply substring_all.
    + erewrite isRunning_Ok; [|apply lookup_insert_eq|reflexivity].
      eexists. reflexivity.
  - intros Hc. unfold eventHandlerCreate. cbn [eventSize].
    rewrite create_loop_overrun; [reflexivity|lia].
Qed.

Lemma create_makes_a_stopped_handler_witness :
  heapWellFormed startedWorld
  /\ (exists w' r,
        eventHandlerCreate 40 "a name that is longer than the thirty-two characters kept"
          [sampleType; sampleType] 1 NULL startedWorld = Ok 2 w'
        /\ handlers startedWorld !! 2 = None
        /\ handlers w' = <[2 := r]> (handlers startedWorld)
        /\ handlers w' !! 1 = handlers startedWorld !! 1
        /\ heapWellFormed w'
        /\ stopped w' 2 r
        /\ handlerEventSize r = 40
        /\ (String.length (Event.name r) <= 32)%nat
        /\ (exists w'', eventHandlerIsRunning 2 w' = Ok 0 w''))
  /\ eventHandlerCreate 40 "wallet" [sampleType] 2 NULL startedWorld = Fault.
Proof.
  assert (Hwf : heapWellFormed startedWorld).
  { intros a r Ha. cbn [nextAddress startedWorld].
    destruct (decide (a = 1)) as [->|Hne]; [lia|].
    exfalso. revert Ha.
    change (handlers startedWorld) with (<[1 := recordAt 1 startedWorld]> (∅ : gmap Z _)).
    rewrite lookup_insert_ne by congruence. now rewrite lookup_empty. }
  destruct (create_makes_a_stopped_handler 40
              "a name that is longer than the thirty-two characters kept"
              [sampleType; sampleType] 1 NULL startedWorld) as [H1 _].
  destruct (create_makes_a_stopped_handler 40 "wallet" [sampleType] 2 NULL startedWorld)
    as [_ H2].
  split; [exact Hwf|]. split.
  - destruct H1 as (w' & r & E & _ & Hnew & Hh & Hkeep & Hwf' & Hs & _ & _ & _ & _ & Hsz & _
                    & Hn & _ & _ & _ & _ & _ & Hrun);
      [cbn; lia|exact Hwf|].
    exists w', r. split; [exact E|]. split; [exact Hnew|]. split; [exact Hh|].
    split; [exact (Hkeep 1 (recordAt 1 startedWorld) eq_refl)|].
    split; [exact Hwf'|]. split; [exact Hs|].
    split; [exact Hsz|]. split; [exact Hn|exact Hrun].
  - apply H2. cbn. lia.
Defined.

(** *** Several handlers *)

Lemma dispatched_wokenStopCalls h' h r s : dispatched h' (wokenStopCalls h r s) = [].
Proof.
  unfold wokenStopCalls, threadEntryCalls. rewrite !dispatched_app.
  destruct (negb _); destruct s; reflexivity.
Qed.

(** X10.  The control operations on one handler leave every other handler
    as it is, record and dispatches: the two signal functions, clear, the
    timeout setter, the start of a stopped handler and the stop of a
    running one, whether its wait ends with the worker's exit or before. *)
Theorem handlers_do_not_interfere h h' r w :
  h' <> h -> handlers w !! h = Some r -> lock r = false ->
  (forall e, exists w',
      eventHandlerSignalEvent h e w = Ok EVENT_STATUS_SUCCESS w' /\ untouched h' w w')
  /\ (forall e, exists w',
        eventHandlerSignalEventOOB h e w = Ok EVENT_STATUS_SUCCESS w' /\ untouched h' w w')
  /\ (exists w', eventHandlerClear h w = Ok tt w' /\ untouched h' w w')
  /\ (forall m dispatcher context, exists w',
        eventHandlerSetTimeoutDispatcher h m dispatcher context w = Ok tt w'
        /\ untouched h' w w')
  /\ (thread r = PTHREAD_NULL ->
      exists w', eventHandlerStart h w = Ok tt w' /\ untouched h' w w')
  /\ (forall s sched,
        running w h r -> threads w !! thread r = Some s ->
        exists w', eventHandlerStop h sched w = Ok tt w' /\ untouched h' w w').
Proof.
  intros Hne H Hl. unfold untouched.
  assert (Hins : forall w' r', handlers w' = <[h := r']> (handlers w) ->
                               handlers w' !! h' = handlers w !! h').
  { intros w' r' ->. now apply lookup_insert_ne. }
  conjs.
  - intros e. rewrite (signalEvent_Ok h e r w H). eexists. split; [reflexivity|].
    cbn [handlers trace set_trace set_handlers].
    split; [now apply lookup_insert_ne|]. now rewrite dispatched_app, app_nil_r.
  - intros e. rewrite (signalEventOOB_Ok h e r w H). eexists. split; [reflexivity|].
    cbn [handlers trace set_trace set_handlers].
    split; [now apply lookup_insert_ne|]. now rewrite dispatched_app, app_nil_r.
  - unfold eventHandlerClear. call modify_Ok. eexists. split; [reflexivity|].
    cbn [emit handlers trace set_trace set_handlers].
    split; [now apply lookup_insert_ne|]. now rewrite dispatched_app, app_nil_r.
  - intros m dispatcher context.
    rewrite (setTimeoutDispatcher_Ok h r w m dispatcher context H Hl).
    eexists. split; [reflexivity|]. cbn [handlers trace set_trace set_handlers].
    split; [now apply lookup_insert_ne|]. now rewrite dispatched_app, app_nil_r.
  - intros Ht.
    destruct (start_runs h r w (conj H (conj Hl Ht))) as (w1 & E1 & _ & Hh1 & _ & _ & _ & Hd1 & _).
    exists w1. split; [exact E1|]. split; [now apply (Hins _ _ Hh1)|apply Hd1].
  - intros s [|i sched] Hrun Hs.
    + destruct (stop_woken h r w s Hrun Hs) as (w1 & E1 & Hh1 & _ & _ & Htr1).
      exists w1. split; [exact E1|]. split; [now apply (Hins _ _ Hh1)|].
      now rewrite Htr1, dispatched_app, dispatched_wokenStopCalls, app_nil_r.
    + destruct (stop_running h r w s i sched Hrun Hs) as (w1 & E1 & Hh1 & _ & _ & Htr1).
      exists w1. split; [exact E1|]. split; [now apply (Hins _ _ Hh1)|].
      now rewrite Htr1, dispatched_app, dispatched_stopCalls, app_nil_r.
Qed.

Lemma handlers_do_not_interfere_witness :
  (forall e, exists w',
      eventHandlerSignalEvent 1 e twoHandlersWorld = Ok EVENT_STATUS_SUCCESS w'
      /\ untouched 2 twoHandlersWorld w')
  /\ (forall sched,
        exists w', eventHandlerStop 1 sched twoHandlersWorld = Ok tt w'
                   /\ untouched 2 twoHandlersWorld w').
Proof.
  destruct (handlers_do_not_interfere 1 2 (recordAt 1 twoHandlersWorld) twoHandlersWorld)
    as (H1 & _ & _ & _ & _ & H6).
  - discriminate.
  - reflexivity.
  - reflexivity.
  - split; [exact H1|]. intros sched. apply (H6 (AtEntry 1) sched).
    + running_ok.
    + reflexivity.
Defined.

(** *** The thread handle, clearing, destroying *)

Lemma prologue_first self h r w :
  handlers w !! h = Some r -> lock r = false -> thread r = PTHREAD_NULL ->
  eventHandlerThread_prologue self h w =
  Ok tt (set_trace (trace w ++ [Call_pthread_mutex_lock h; Call_pthread_mutex_unlock h])
           (set_handlers (<[h := set_thread self r]> (handlers w)) w)).
Proof.
  intros H Hl Ht. unfold eventHandlerThread_prologue.
  call lock_Ok.
  erewrite bind_Ok.
  2:{ call load_Ok. cbn [thread set_lock]. rewrite Ht. cbn [PTHREAD_NULL NULL Z.eqb].
      eapply modify_Ok. solve_lookup. }
  last_call unlock_Ok. f_equal. apply world_ext; cbn; auto.
  - rewrite !insert_insert_eq. f_equal. destruct r; cbn in *; now subst.
  - now rewrite <- app_assoc.
Qed.

(** X11.  [eventHandlerThread] stores the id of the thread that runs it in
    [handler->thread] if no id is there yet and leaves an id that is there
    alone; it releases the lock before its loop, dispatches the first
    [length sched] pending events, and a dispatcher that then asks
    [eventHandlerIsCurrentThread] is not kept waiting. *)
Theorem worker_keeps_or_stores_its_thread_id self h r w sched :
  handlers w !! h = Some r -> lock r = false ->
  abort (queue r) = false -> forallb (dispatchable w) (pending (queue r)) = true ->
  exists w' r',
    eventHandlerThread self h sched w = Ok false w'
    /\ handlers w' !! h = Some r'
    /\ thread r' = (if PTHREAD_NULL =? thread r then self else thread r)
    /\ lock r' = false
    /\ dispatched h (trace w')
       = dispatched h (trace w) ++ firstn (length sched) (pending (queue r))
    /\ threads w' = <[self := InLoop h]> (threads w)
    /\ (exists w'', eventHandlerIsCurrentThread self h w'
                    = Ok (if PTHREAD_NULL =? thread r then 1
                          else if self =? thread r then 1 else 0) w'').
Proof.
  intros H Hl Ha Hd.
  assert (Hpro : exists w1 r1,
            eventHandlerThread_prologue self h w = Ok tt w1
            /\ handlers w1 = <[h := r1]> (handlers w)
            /\ r1 = set_thread (if PTHREAD_NULL =? thread r then self else thread r) r
            /\ threads w1 = threads w
            /\ dispatched h (trace w1) = dispatched h (trace w)).
  { destruct (Z.eqb_spec PTHREAD_NULL (thread r)) as [E|E].
    - rewrite (prologue_first self h r w H Hl (eq_sym E)).
      eexists _, _. split; [reflexivity|]. cbn [handlers threads trace set_trace set_handlers].
      split; [reflexivity|]. split; [reflexivity|]. split; [reflexivity|].
      rewrite dispatched_app. cbn. now rewrite app_nil_r.
    - rewrite (prologue_Ok self h r w H Hl (not_eq_sym E)).
      exists (set_trace (trace w ++ [Call_pthread_mutex_lock h; Call_pthread_mutex_unlock h]) w), r.
      split; [reflexivity|]. cbn [handlers threads trace set_trace].
      split; [symmetry; now apply insert_id|]. split; [now rewrite set_thread_same|].
      split; [reflexivity|]. rewrite dispatched_app. cbn. now rewrite app_nil_r. }
  destruct Hpro as (w1 & r1 & E1 & Hh1 & Hr1 & Ht1 & Hd1).
  assert (H1 : handlers w1 !! h = Some r1) by (rewrite Hh1; apply lookup_insert_eq).
  assert (T1 : typesOf w1 = typesOf w).
  { eapply typesOf_insert_same; [exact H| |exact Hh1]. now rewrite Hr1. }
  assert (Hq1 : queue r1 = queue r) by now rewrite Hr1.
  destruct (resume_turns self h r1 w1 sched H1)
    as (w2 & r2 & E2 & H2 & M2 & _ & _ & _ & _ & Hd2 & Th2 & _).
  { now rewrite Hq1. }
  { now rewrite Hq1, (forallb_dispatchable_typesOf w w1 _ T1). }
  destruct (metadata_fields _ _ M2) as (Hl2 & Htid2 & _).
  assert (Hthr : thread r2 = (if PTHREAD_NULL =? thread r then self else thread r))
    by (rewrite Htid2, Hr1; reflexivity).
  assert (Hlk : lock r2 = false) by (rewrite Hl2, Hr1; exact Hl).
  exists w2, r2. split.
  { unfold eventHandlerThread. now rewrite (bind_Ok _ _ _ _ _ E1). }
  split; [exact H2|]. split; [exact Hthr|]. split; [exact Hlk|].
  split; [now rewrite Hd2, Hq1, Hd1|]. split; [now rewrite Th2, Ht1|].
  rewrite (isCurrentThread_Ok self h r2 w2 H2 Hlk), Hthr.
  destruct (PTHREAD_NULL =? thread r); [rewrite Z.eqb_refl|]; eexists; reflexivity.
Qed.

Lemma worker_keeps_or_stores_its_thread_id_witness :
  exists w' r',
    eventHandlerThread 9 1 [false; false] queuedWorld = Ok false w'
    /\ handlers w' !! 1 = Some r'
    /\ thread r' = 9
    /\ lock r' = false
    /\ dispatched 1 (trace w')
       = dispatched 1 (trace queuedWorld) ++ [sampleEvent 7; sampleEvent 5]
    /\ threads w' = <[9 := InLoop 1]> (threads queuedWorld)
    /\ (exists w'', eventHandlerIsCurrentThread 9 1 w' = Ok 1 w'').
Proof.
  apply (worker_keeps_or_stores_its_thread_id 9 1 (recordAt 1 queuedWorld) queuedWorld
           [false; false]).
  - reflexivity.
  - reflexivity.
  - reflexivity.
  - reflexivity.
Defined.

(** X12.  [eventHandlerClear] empties the queue and changes nothing else of
    the handler; its only call is [eventQueueClear].  A turn of the worker
    right after it dispatches nothing, and what is signalled afterwards is
    dispatched as usual. *)
Theorem clear_drops_pending_events h r w sigs sched :
  handlers w !! h = Some r -> abort (queue r) = false ->
  forallb (dispatchable w) (map signalled sigs) = true ->
  exists w1 w2 w3 r1,
    eventHandlerClear h w = Ok tt w1
    /\ handlers w1 = <[h := r1]> (handlers w)
    /\ pending (queue r1) = []
    /\ metadata r1 = metadata r
    /\ trace w1 = trace w ++ [Call_eventQueueClear h]
    /\ eventHandlerThread_loop h [false] w1 = Ok 0 w1
    /\ eventHandlerThread_loop h [true] w1 = Ok 0 w1
    /\ signalAll h sigs w1 = Ok tt w2
    /\ eventHandlerThread_loop h sched w2 = Ok 0 w3
    /\ dispatched h (trace w3)
       = dispatched h (trace w) ++ firstn (length sched) (oobSignals sigs ++ tailSignals sigs).
Proof.
  intros H Ha Hd.
  set (r1 := set_queue (eventQueueClear (queue r)) r).
  set (w1 := set_trace (trace w ++ [Call_eventQueueClear h])
               (set_handlers (<[h := r1]> (handlers w)) w)).
  assert (E1 : eventHandlerClear h w = Ok tt w1).
  { unfold eventHandlerClear. call modify_Ok. reflexivity. }
  assert (H1 : handlers w1 !! h = Some r1) by (subst w1; solve_lookup).
  assert (T1 : typesOf w1 = typesOf w).
  { eapply (typesOf_insert_same w w1 h r r1); [exact H|reflexivity|reflexivity]. }
  destruct (body_idle h r1 w1 H1 Ha eq_refl) as [Ht Hf].
  destruct (signalAll_spec h sigs r1 w1 H1) as (w2 & E2 & Hh2 & Hd2).
  set (r2 := set_queue (queueAfter sigs r1) r1) in *.
  assert (H2 : handlers w2 !! h = Some r2) by (rewrite Hh2; apply lookup_insert_eq).
  assert (T2 : typesOf w2 = typesOf w).
  { rewrite <- T1. eapply typesOf_insert_same; [exact H1| |exact Hh2]. reflexivity. }
  destruct (loop_drains h sched r2 w2 H2 Ha) as (w3 & r3 & E3 & _ & _ & _ & _ & _ & Hd3 & _).
  { change (pending (queue r2)) with (oobSignals sigs ++ tailSignals sigs).
    rewrite (forallb_dispatchable_typesOf w w2 _ T2).
    eapply forallb_sub; [|exact Hd].
    intros e He. apply in_app_or in He as [He|He];
      [now apply oobSignals_signalled|now apply tailSignals_signalled]. }
  exists w1, w2, w3, r1.
  split; [exact E1|]. split; [reflexivity|]. split; [reflexivity|]. split; [reflexivity|].
  split; [reflexivity|]. split.
  { cbn [eventHandlerThread_loop]. now rewrite Hf. }
  split.
  { cbn [eventHandlerThread_loop]. now rewrite Ht. }
  split; [exact E2|]. split; [exact E3|].
  rewrite Hd3, Hd2. subst w1. cbn [trace set_trace].
  rewrite dispatched_app. cbn [dispatched flat_map app]. now rewrite app_nil_r.
Qed.

Lemma clear_drops_pending_events_witness :
  exists w1 w2 w3 r1,
    eventHandlerClear 1 signalledWorld = Ok tt w1
    /\ handlers w1 = <[1 := r1]> (handlers signalledWorld)
    /\ pending (queue r1) = []
    /\ metadata r1 = metadata (recordAt 1 signalledWorld)
    /\ trace w1 = trace signalledWorld ++ [Call_eventQueueClear 1]
    /\ eventHandlerThread_loop 1 [false] w1 = Ok 0 w1
    /\ eventHandlerThread_loop 1 [true] w1 = Ok 0 w1
    /\ signalAll 1 [Tail (sampleEvent 6)] w1 = Ok tt w2
    /\ eventHandlerThread_loop 1 [false; false] w2 = Ok 0 w3
    /\ dispatched 1 (trace w3) = dispatched 1 (trace signalledWorld) ++ [sampleEvent 6].
Proof.
  apply (clear_drops_pending_events 1 (recordAt 1 signalledWorld) signalledWorld
           [Tail (sampleEvent 6)] [false; false]).
  - reflexivity.
  - reflexivity.
  - reflexivity.
Defined.



End EventFacts.

(** * Properties of the Ripple account *)

Module RippleFacts.

Import Ripple.

(** C10.  The key that [rippleAccountGetPublicKey] returns has the secret
    [UINT256_ZERO] (whatever value that macro has), whatever the account's
    key held; the public key bytes
    and the compression flag are those of the account.  The account's own
    copy of the key has lost its secret too, and nothing else in the
    account has changed. *)
Theorem getPublicKey_carries_no_secret
    (UINT256_ZERO : UInt256) (account : BRRippleAccountRecord) :
  let (key, account') := rippleAccountGetPublicKey UINT256_ZERO account in
  secret key = UINT256_ZERO
  /\ pubKey key = pubKey (publicKey account)
  /\ compressed key = compressed (publicKey account)
  /\ publicKey account' = key
  /\ raw account' = raw account
  /\ index account' = index account
  /\ sequence account' = sequence account
  /\ lastLedgerSequence account' = lastLedgerSequence account.
Proof. cbn. repeat split. Qed.

Section SigningFacts.

Variable DEBUG : bool.
Variable BIP32_HARD : Z.
Variable BRBIP39DeriveKey : string -> UInt512.
Variable BRBIP32PrivKeyPath : UInt512 -> list Z -> BRKey.
Variable BRKeySetPrivKey : string -> BRKey.
Variables Transaction Serialized : Type.
Variable rippleTransactionSerializeAndSign :
  Transaction -> BRKey -> BRKey -> Z -> Z -> Signing Transaction Serialized.

(** The signer reads the public key it is given a pointer to; it does not
    write through that pointer. *)
Hypothesis signer_reads_publicKey :
  forall t k pk s l, publicKeyAfter (rippleTransactionSerializeAndSign t k pk s l) = pk.

(** C9.  Provided the signer only reads the public key it is pointed to:
    [rippleAccountSignTransaction] returns what
    [rippleTransactionSerializeAndSign] returns.  When that is not [NULL]
    the sequence number has been incremented: it is [sequence + 1] as a
    [uint32_t], that is [sequence + 1] unless the counter stood at its
    highest value, and in any case it differs from the old one; all other
    fields are as before.  When it is [NULL] the account is as before.  So
    the sequence number changes exactly when signing succeeds. *)
Theorem signTransaction_advances_sequence_iff_signed
    (account : BRRippleAccountRecord) (transaction : Transaction) (paperKey : string) :
  0 <= sequence account < 4294967296 ->
  let s := rippleTransactionSerializeAndSign transaction
             (getKey DEBUG BIP32_HARD BRBIP39DeriveKey BRBIP32PrivKeyPath BRKeySetPrivKey
                paperKey)
             (publicKey account) (sequence account) (lastLedgerSequence account) in
  exists account',
    rippleAccountSignTransaction DEBUG BIP32_HARD BRBIP39DeriveKey BRBIP32PrivKeyPath
      BRKeySetPrivKey Transaction Serialized rippleTransactionSerializeAndSign
      (Some account) (Some transaction) (Some paperKey)
    = Returned (signedBytes s, account', transactionAfter s)
    /\ (signedBytes s <> None ->
        sequence account' = uint32 (sequence account + 1)
        /\ (sequence account < 4294967295 -> sequence account' = sequence account + 1)
        /\ raw account' = raw account
        /\ publicKey account' = publicKey account
        /\ index account' = index account
        /\ lastLedgerSequence account' = lastLedgerSequence account)
    /\ (signedBytes s = None -> account' = account)
    /\ (sequence account' <> sequence account <-> signedBytes s <> None).
Proof.
  intros Hseq s. unfold rippleAccountSignTransaction. fold s.
  assert (Hpk : publicKeyAfter s = publicKey account) by apply signer_reads_publicKey.
  assert (Hwrap : uint32 (sequence account + 1) <> sequence account).
  { unfold uint32.
    destruct (Z.eq_dec (sequence account) 4294967295) as [E|E].
    - rewrite E. intros Hc. vm_compute in Hc. discriminate.
    - rewrite Z.mod_small by lia. lia. }
  destruct (signedBytes s) as [b|] eqn:Hb.
  - eexists. split; [reflexivity|]. cbn. rewrite Hpk.
    split; [|split; [discriminate|]].
    + intros _. repeat split. intros Hlt. unfold uint32. apply Z.mod_small. lia.
    + split; [discriminate|]. intros _. exact Hwrap.
  - eexists. split; [reflexivity|]. rewrite Hpk.
    split; [now intros []|]. split.
    + intros _. now destruct account.
    + cbn. split; [now intros []|now intros []].
Qed.

End SigningFacts.

Lemma signTransaction_advances_sequence_iff_signed_witness :
  exists account',
    rippleAccountSignTransaction true 2147483648 (fun _ => 0) (fun _ _ => sampleKey)
      (fun _ => sampleKey) unit (list Z) sampleSigner
      (Some sampleAccount) (Some tt) (Some "snoPBrXtMeMyMHUVTgbuqAfg1SUTb"%string)
    = Returned (Some [41; 100], account', tt)
    /\ sequence account' = 42
    /\ publicKey account' = sampleKey
    /\ lastLedgerSequence account' = 100.
Proof.
  destruct (signTransaction_advances_sequence_iff_signed true 2147483648 (fun _ => 0)
              (fun _ _ => sampleKey) (fun _ => sampleKey) unit (list Z) sampleSigner
              (fun _ _ _ _ _ => eq_refl) sampleAccount tt
              "snoPBrXtMeMyMHUVTgbuqAfg1SUTb"%string)
    as (account' & E & Hs & _).
  - cbn. lia.
  - exists account'. split; [exact E|].
    destruct Hs as (_ & Hseq & _ & Hpk & _ & Hl); [discriminate|].
    split; [|split; assumption].
    apply Hseq. cbn. lia.
Defined.

(** ** Further properties of the Ripple account *)

(** *** The base-58 encoding *)

Ltac splits := repeat match goal with |- _ /\ _ => split end.

Lemma valueOf_snoc b l x : valueOf b (l ++ [x]) = valueOf b l * b + x.
Proof.
  induction l as [|d l IH]; cbn [valueOf app length].
  - cbn. lia.
  - rewrite IH, length_app. cbn [length].
    replace (Z.of_nat (length l + 1)) with (Z.succ (Z.of_nat (length l))) by lia.
    rewrite Z.pow_succ_r by lia. ring.
Qed.

Lemma valueOf_bounds b l :
  0 < b -> Forall (fun d => 0 <= d < b) l -> 0 <= valueOf b l < b ^ Z.of_nat (length l).
Proof.
  intros Hb H. induction H as [|d l Hd _ IH]; cbn [valueOf length].
  - cbn. lia.
  - rewrite Nat2Z.inj_succ, Z.pow_succ_r by lia.
    assert (0 < b ^ Z.of_nat (length l)) by (apply Z.pow_pos_nonneg; lia).
    nia.
Qed.

Lemma pass_spec buf : forall carry,
  Forall isDigit buf -> 0 <= carry <= 255 ->
  length (fst (encodeBase58Ripple_pass buf carry)) = length buf
  /\ Forall isDigit (fst (encodeBase58Ripple_pass buf carry))
  /\ 0 <= snd (encodeBase58Ripple_pass buf carry) <= 255
  /\ valueOf 58 (fst (encodeBase58Ripple_pass buf carry))
     + snd (encodeBase58Ripple_pass buf carry) * 58 ^ Z.of_nat (length buf)
     = valueOf 58 buf * 256 + carry.
Proof.
  induction buf as [|d rest IH]; intros carry Hd Hc; cbn [encodeBase58Ripple_pass].
  - cbn. repeat split; try lia. constructor.
  - inversion Hd as [|? ? Hd0 Hrest]; subst.
    destruct (IH carry Hrest Hc) as (Hlen & Hdig & Hc' & Hval).
    destruct (encodeBase58Ripple_pass rest carry) as [rest' c]. cbn [fst snd] in *.
    unfold isDigit in Hd0.
    assert (Hsh : Z.shiftl d 8 = d * 256) by (rewrite Z.shiftl_mul_pow2 by lia; reflexivity).
    assert (Hw : uint32 (c + uint32 (Z.shiftl d 8)) = c + d * 256).
    { unfold uint32. rewrite Hsh, (Z.mod_small (d * 256)) by lia. apply Z.mod_small. lia. }
    rewrite Hw.
    pose proof (Z.div_mod (c + d * 256) 58 ltac:(lia)) as Hdm.
    pose proof (Z.mod_pos_bound (c + d * 256) 58 ltac:(lia)) as Hm.
    assert (Hq : 0 <= (c + d * 256) / 58 <= 255).
    { split; [apply Z.div_pos; lia|].
      assert ((c + d * 256) / 58 < 256) by (apply Z.div_lt_upper_bound; lia). lia. }
    cbn [length valueOf]. rewrite Hlen.
    repeat split; try lia.
    + constructor; [exact Hm|exact Hdig].
    + rewrite Nat2Z.inj_succ, Z.pow_succ_r by lia.
      set (P := 58 ^ Z.of_nat (length rest)) in *.
      set (q := (c + d * 256) / 58) in *. set (m := (c + d * 256) mod 58) in *.
      replace (m * P + valueOf 58 rest' + q * (58 * P))
        with ((58 * q + m) * P + valueOf 58 rest') by ring.
      rewrite <- Hdm. lia.
Qed.

Lemma pow_bound_small :
  forallb (fun r => 256 ^ r <? 58 ^ (r * 138 / 100 + 1)) (map Z.of_nat (seq 0 50)) = true.
Proof. vm_compute. reflexivity. Qed.

Lemma pow_bound (n : Z) : 0 <= n -> 256 ^ n < 58 ^ (n * 138 / 100 + 1).
Proof.
  intros Hn.
  pose proof (Z.div_mod n 50 ltac:(lia)) as Hdm.
  pose proof (Z.mod_pos_bound n 50 ltac:(lia)) as Hr.
  set (q := n / 50) in *. set (r := n mod 50) in *.
  assert (Hq : 0 <= q) by (apply Z.div_pos; lia).
  assert (Hsmall : 256 ^ r < 58 ^ (r * 138 / 100 + 1)).
  { pose proof pow_bound_small as H. rewrite forallb_forall in H.
    apply Z.ltb_lt, H. apply in_map_iff. exists (Z.to_nat r). split; [lia|].
    apply in_seq. lia. }
  assert (Hk : 0 <= r * 138 / 100) by (apply Z.div_pos; lia).
  replace (n * 138 / 100) with (69 * q + r * 138 / 100).
  2:{ rewrite Hdm. replace ((50 * q + r) * 138) with (69 * q * 100 + r * 138) by ring.
      now rewrite Z.div_add_l by lia. }
  rewrite Hdm.
  replace (69 * q + r * 138 / 100 + 1) with (69 * q + (r * 138 / 100 + 1)) by ring.
  rewrite !Z.pow_add_r, !Z.pow_mul_r by lia.
  assert (H50 : 256 ^ 50 < 58 ^ 69) by (vm_compute; reflexivity).
  assert (Hle : (256 ^ 50) ^ q <= (58 ^ 69) ^ q).
  { apply Z.pow_le_mono_l. split; [apply Z.pow_nonneg; lia|lia]. }
  assert (Hpos : 0 < (256 ^ 50) ^ q) by (apply Z.pow_pos_nonneg; [apply Z.pow_pos_nonneg|]; lia).
  assert (Hpos2 : 0 < 256 ^ r) by (apply Z.pow_pos_nonneg; lia).
  apply Z.le_lt_trans with ((58 ^ 69) ^ q * 256 ^ r).
  - apply Z.mul_le_mono_nonneg_r; lia.
  - apply Z.mul_lt_mono_pos_l; [lia|].
    rewrite <- Z.pow_add_r by lia. exact Hsmall.
Qed.

Lemma valueOf_app b l1 l2 :
  valueOf b (l1 ++ l2) = valueOf b l1 * b ^ Z.of_nat (length l2) + valueOf b l2.
Proof.
  induction l1 as [|d l1 IH]; cbn [app valueOf].
  - lia.
  - rewrite IH, length_app, Nat2Z.inj_add, Z.pow_add_r by lia. ring.
Qed.

Lemma valueOf_repeat0 b n : valueOf b (repeat 0 n) = 0.
Proof. induction n as [|n IH]; cbn [repeat valueOf]; lia. Qed.

Lemma leadingZeros_split l :
  l = repeat 0 (leadingZeros l) ++ skipn (leadingZeros l) l.
Proof.
  induction l as [|d l IH]; [reflexivity|].
  cbn [leadingZeros]. destruct d; try reflexivity.
  cbn [repeat skipn app]. f_equal. exact IH.
Qed.

Lemma leadingZeros_le l : (leadingZeros l <= length l)%nat.
Proof.
  induction l as [|d l IH]; cbn [leadingZeros length]; [lia|].
  destruct d; lia.
Qed.

Lemma valueOf_skip_zeros b l : valueOf b (skipn (leadingZeros l) l) = valueOf b l.
Proof.
  rewrite (leadingZeros_split l) at 3.
  rewrite valueOf_app, valueOf_repeat0. lia.
Qed.

Lemma skip_zeros_noLeadingZero l : noLeadingZero (skipn (leadingZeros l) l).
Proof.
  induction l as [|d l IH]; [exact I|].
  cbn [leadingZeros]. destruct d; cbn; try exact IH; discriminate.
Qed.

Lemma leadingZeros_prefix n l :
  noLeadingZero l -> leadingZeros (repeat 0 n ++ l) = n.
Proof.
  intros H. induction n as [|n IH]; cbn [repeat app leadingZeros].
  - destruct l as [|d l]; [reflexivity|]. cbn in H. destruct d; try reflexivity. congruence.
  - now rewrite IH.
Qed.

Lemma Forall_skipn_keep {A} (P : A -> Prop) n (l : list A) : Forall P l -> Forall P (skipn n l).
Proof.
  revert l. induction n as [|n IH]; intros l H; [exact H|].
  destruct H; cbn [skipn]; [constructor|]. now apply IH.
Qed.

Lemma size_nowrap (n : nat) :
  Z.of_nat n * 138 < 2 ^ 64 ->
  Z.of_nat (encodeBase58Ripple_size n) = Z.of_nat n * 138 / 100 + 1.
Proof.
  intros H. unfold encodeBase58Ripple_size, size_t.
  change 18446744073709551616 with (2 ^ 64).
  assert (0 <= Z.of_nat n * 138 / 100) by (apply Z.div_pos; lia).
  assert (Z.of_nat n * 138 / 100 <= Z.of_nat n * 138).
  { apply Z.div_le_upper_bound; lia. }
  assert (Z.of_nat n * 138 / 100 + 1 < 2 ^ 64).
  { assert (Z.of_nat n * 138 / 100 < 2 ^ 64 - 1); [|lia].
    apply Z.div_lt_upper_bound; [lia|].
    change (2 ^ 64) with 18446744073709551616 in *. lia. }
  rewrite (Z.mod_small (Z.of_nat n)) by lia.
  rewrite (Z.mod_small (Z.of_nat n * 138)) by lia.
  rewrite Z.mod_small by lia. lia.
Qed.

Lemma fold_spec bs : forall buf,
  Forall isByte bs -> Forall isDigit buf ->
  valueOf 58 buf * 256 ^ Z.of_nat (length bs) + valueOf 256 bs < 58 ^ Z.of_nat (length buf) ->
  let buf' := fold_left (fun buf byte => fst (encodeBase58Ripple_pass buf (uint32 byte))) bs buf in
  length buf' = length buf
  /\ Forall isDigit buf'
  /\ valueOf 58 buf' = valueOf 58 buf * 256 ^ Z.of_nat (length bs) + valueOf 256 bs.
Proof.
  induction bs as [|b bs IH]; intros buf Hb Hd Hlt; cbn [fold_left].
  - cbn. repeat split; [exact Hd|lia].
  - inversion Hb as [|? ? Hb0 Hbs]; subst. unfold isByte in Hb0.
    assert (Hu : uint32 b = b) by (unfold uint32; apply Z.mod_small; lia).
    rewrite Hu.
    destruct (pass_spec buf b Hd ltac:(lia)) as (Hlen & Hdig & Hc & Hval).
    set (buf1 := fst (encodeBase58Ripple_pass buf b)) in *.
    set (c1 := snd (encodeBase58Ripple_pass buf b)) in *.
    cbn [length valueOf] in Hlt.
    rewrite Nat2Z.inj_succ, Z.pow_succ_r in Hlt by lia.
    pose proof (valueOf_bounds 256 bs ltac:(lia) Hbs) as Hvb.
    pose proof (valueOf_bounds 58 buf ltac:(lia) Hd) as Hvd.
    pose proof (valueOf_bounds 58 buf1 ltac:(lia) Hdig) as Hv1.
    assert (Hp : 0 < 256 ^ Z.of_nat (length bs)) by (apply Z.pow_pos_nonneg; lia).
    set (P := 256 ^ Z.of_nat (length bs)) in *.
    set (Q := 58 ^ Z.of_nat (length buf)) in *.
    assert (HQ : 0 < Q) by (apply Z.pow_pos_nonneg; lia).
    assert (Hsmall : valueOf 58 buf * 256 + b < Q).
    { assert ((valueOf 58 buf * 256 + b) * P < Q * 1) by nia. nia. }
    assert (Hc0 : c1 = 0) by nia.
    assert (Hv : valueOf 58 buf1 = valueOf 58 buf * 256 + b) by nia.
    destruct (IH buf1 Hbs Hdig) as (Hlen' & Hdig' & Hval').
    { rewrite Hlen, Hv. fold P Q. nia. }
    cbn zeta. repeat split.
    + now rewrite Hlen'.
    + exact Hdig'.
    + rewrite Hval', Hv. cbn [length valueOf].
      rewrite Nat2Z.inj_succ, Z.pow_succ_r by lia. fold P. ring.
Qed.

Lemma Forall_repeat0 n : Forall isDigit (repeat 0 n).
Proof. induction n; cbn; constructor; [unfold isDigit; lia|assumption]. Qed.

Lemma digits_spec data :
  Forall isByte data -> Z.of_nat (length data) * 138 < 2 ^ 64 ->
  let buf := encodeBase58Ripple_digits data in
  Z.of_nat (length buf) = Z.of_nat (length data - leadingZeros data) * 138 / 100 + 1
  /\ Forall isDigit buf
  /\ valueOf 58 buf = valueOf 256 data.
Proof.
  intros Hb Hn. unfold encodeBase58Ripple_digits.
  set (z := leadingZeros data).
  set (n := (length data - z)%nat).
  pose proof (leadingZeros_le data) as Hz. fold z in Hz.
  assert (Hsz : Z.of_nat (encodeBase58Ripple_size n) = Z.of_nat n * 138 / 100 + 1).
  { apply size_nowrap. unfold n. lia. }
  assert (Hlen : length (skipn z data) = n) by (unfold n; apply length_skipn).
  pose proof (Forall_skipn_keep _ z _ Hb) as Hb'.
  pose proof (valueOf_bounds 256 _ ltac:(lia) Hb') as Hvb. rewrite Hlen in Hvb.
  pose proof (pow_bound (Z.of_nat n) ltac:(lia)) as Hpb.
  destruct (fold_spec (skipn z data) (repeat 0 (encodeBase58Ripple_size n)) Hb'
              (Forall_repeat0 _)) as (H1 & H2 & H3).
  { rewrite valueOf_repeat0, repeat_length, Hsz. lia. }
  cbn zeta. rewrite H1, repeat_length. repeat split; [exact Hsz|exact H2|].
  rewrite H3, valueOf_repeat0. unfold z. rewrite valueOf_skip_zeros. lia.
Qed.

Lemma digitOf_charAt k : 0 <= k < 58 -> digitOf (charAt k) = k.
Proof.
  intros Hk.
  assert (H : forallb (fun k => digitOf (charAt k) =? k) (map Z.of_nat (seq 0 58)) = true)
    by (vm_compute; reflexivity).
  rewrite forallb_forall in H.
  apply Z.eqb_eq, H, in_map_iff. exists (Z.to_nat k). split; [lia|].
  apply in_seq. lia.
Qed.

Lemma length_string_of_list_ascii l :
  String.length (String.string_of_list_ascii l) = length l.
Proof. induction l as [|c l IH]; cbn; [reflexivity|now rewrite IH]. Qed.

Lemma map_digitOf_charAt ds : Forall isDigit ds -> map digitOf (map charAt ds) = ds.
Proof.
  induction 1 as [|d ds Hd _ IH]; cbn [map]; [reflexivity|].
  rewrite IH, digitOf_charAt by exact Hd. reflexivity.
Qed.

Lemma map_repeat_const {A B} (f : A -> B) x n : map f (repeat x n) = repeat (f x) n.
Proof. induction n; cbn; congruence. Qed.

Lemma encode_spec data :
  Forall isByte data -> Z.of_nat (length data) * 138 < 2 ^ 64 ->
  let len := Z.of_nat (String.length (encoded data)) + 1 in
  (forall str strLen,
     encodeBase58Ripple str strLen (Some data)
     = Returned (if negb str || (len <=? strLen) then len else 0,
                 if str && (len <=? strLen) then Some (encoded data) else None))
  /\ digitsOf (encoded data) = repeat 0 (leadingZeros data) ++ significantDigits data
  /\ Forall isDigit (significantDigits data)
  /\ noLeadingZero (significantDigits data)
  /\ valueOf 58 (significantDigits data) = valueOf 256 data.
Proof.
  intros Hb Hn.
  destruct (digits_spec data Hb Hn) as (Hlen & Hdig & Hval).
  pose proof (leadingZeros_le data) as Hz.
  pose proof (leadingZeros_le (encodeBase58Ripple_digits data)) as Hi.
  assert (Hds : Forall isDigit (significantDigits data)) by now apply Forall_skipn_keep.
  assert (Hsl : String.length (encoded data)
                = (leadingZeros data + length (significantDigits data))%nat).
  { unfold encoded. now rewrite length_string_of_list_ascii, length_app, repeat_length, length_map. }
  assert (Hsd : length (significantDigits data)
                = (length (encodeBase58Ripple_digits data)
                   - leadingZeros (encodeBase58Ripple_digits data))%nat)
    by apply length_skipn.
  cbn zeta. repeat split.
  - intros str strLen. unfold encodeBase58Ripple.
    fold (significantDigits data). fold (encoded data).
    set (n := (length data - leadingZeros data)%nat) in *.
    assert (Hq : Z.of_nat n * 138 / 100 <= 2 * Z.of_nat n)
      by (apply Z.div_le_upper_bound; lia).
    assert (Hq0 : 0 <= Z.of_nat n * 138 / 100) by (apply Z.div_pos; lia).
    assert (Hw : size_t (Z.of_nat (leadingZeros data)
                         + Z.of_nat (length (encodeBase58Ripple_digits data))
                         - Z.of_nat (leadingZeros (encodeBase58Ripple_digits data)) + 1)
                 = Z.of_nat (String.length (encoded data)) + 1).
    { unfold size_t. change 18446744073709551616 with (2 ^ 64).
      rewrite Z.mod_small; [lia|].
      change (2 ^ 64) with 18446744073709551616 in *. lia. }
    rewrite Hw. reflexivity.
  - unfold digitsOf, encoded.
    rewrite String.list_ascii_of_string_of_list_ascii, map_app, map_repeat_const.
    rewrite map_digitOf_charAt by exact Hds.
    rewrite digitOf_charAt by lia. reflexivity.
  - exact Hds.
  - apply skip_zeros_noLeadingZero.
  - unfold significantDigits. now rewrite valueOf_skip_zeros.
Qed.

Lemma valueOf_lower b d rest :
  1 < b -> Forall (fun d => 0 <= d < b) (d :: rest) -> d <> 0 ->
  b ^ Z.of_nat (length rest) <= valueOf b (d :: rest).
Proof.
  intros Hb H Hd. inversion H as [|? ? Hd0 Hrest]; subst.
  pose proof (valueOf_bounds b rest ltac:(lia) Hrest) as Hv.
  cbn [valueOf]. nia.
Qed.

Lemma valueOf_length_le b l D :
  1 < b -> Forall (fun d => 0 <= d < b) l -> noLeadingZero l -> 0 <= D ->
  valueOf b l < b ^ D -> Z.of_nat (length l) <= D.
Proof.
  intros Hb H Hz HD Hlt. destruct l as [|d rest]; [cbn; lia|].
  pose proof (valueOf_lower b d rest Hb H Hz) as Hlow.
  assert (Z.of_nat (length rest) < D).
  { apply (Z.pow_lt_mono_r_iff b); lia. }
  cbn [length]. lia.
Qed.

Lemma valueOf_inj_same_length b l1 : forall l2,
  1 < b -> Forall (fun d => 0 <= d < b) l1 -> Forall (fun d => 0 <= d < b) l2 ->
  length l1 = length l2 -> valueOf b l1 = valueOf b l2 -> l1 = l2.
Proof.
  induction l1 as [|d1 l1 IH]; intros [|d2 l2] Hb H1 H2 Hlen Hv; try discriminate; [reflexivity|].
  inversion H1 as [|? ? Hd1 Hl1]; inversion H2 as [|? ? Hd2 Hl2]; subst.
  injection Hlen as Hlen. cbn [valueOf] in Hv. rewrite Hlen in Hv.
  pose proof (valueOf_bounds b l1 ltac:(lia) Hl1) as Hv1.
  pose proof (valueOf_bounds b l2 ltac:(lia) Hl2) as Hv2.
  rewrite Hlen in Hv1.
  set (P := b ^ Z.of_nat (length l2)) in *.
  assert (d1 = d2) by nia. subst d2.
  f_equal. apply IH; try assumption. lia.
Qed.

Lemma valueOf_inj b l1 l2 :
  1 < b -> Forall (fun d => 0 <= d < b) l1 -> Forall (fun d => 0 <= d < b) l2 ->
  noLeadingZero l1 -> noLeadingZero l2 ->
  valueOf b l1 = valueOf b l2 -> l1 = l2.
Proof.
  intros Hb H1 H2 Hz1 Hz2 Hv.
  pose proof (valueOf_bounds b l1 ltac:(lia) H1) as Hv1.
  pose proof (valueOf_bounds b l2 ltac:(lia) H2) as Hv2.
  apply (valueOf_inj_same_length b); try assumption.
  assert (Z.of_nat (length l1) <= Z.of_nat (length l2)).
  { apply (valueOf_length_le b); try assumption; lia. }
  assert (Z.of_nat (length l2) <= Z.of_nat (length l1)).
  { apply (valueOf_length_le b); try assumption; lia. }
  lia.
Qed.

Lemma encoded_inj d1 d2 :
  Forall isByte d1 -> Z.of_nat (length d1) * 138 < 2 ^ 64 ->
  Forall isByte d2 -> Z.of_nat (length d2) * 138 < 2 ^ 64 ->
  encoded d1 = encoded d2 -> d1 = d2.
Proof.
  intros Hb1 Hn1 Hb2 Hn2 He.
  destruct (encode_spec d1 Hb1 Hn1) as (_ & Hd1 & Hf1 & Hz1 & Hv1).
  destruct (encode_spec d2 Hb2 Hn2) as (_ & Hd2 & Hf2 & Hz2 & Hv2).
  rewrite He in Hd1. rewrite Hd1 in Hd2.
  assert (Hz : leadingZeros d1 = leadingZeros d2).
  { rewrite <- (leadingZeros_prefix (leadingZeros d1) (significantDigits d1)) by exact Hz1.
    rewrite Hd2. now apply leadingZeros_prefix. }
  rewrite Hz in Hd2. apply app_inv_head in Hd2.
  rewrite (leadingZeros_split d1), (leadingZeros_split d2), Hz. f_equal.
  apply (valueOf_inj 256); try lia.
  - now apply Forall_skipn_keep.
  - now apply Forall_skipn_keep.
  - rewrite <- Hz. apply skip_zeros_noLeadingZero.
  - apply skip_zeros_noLeadingZero.
  - rewrite <- Hz at 1. rewrite !valueOf_skip_zeros. congruence.
Qed.

(** X14.  What [encodeBase58Ripple] writes is the base-58 numeral, in the
    Ripple alphabet, of the number that the bytes write in base 256: every
    character is one of [chars], the digits have the value of the data, and
    there are as many leading ['r'] (the digit 0) as leading zero bytes.
    The value returned is the length of the string plus one and fits the
    buffer.  The [uint32_t] carry never wraps and the buffer of
    [n * 138 / 100 + 1] digits never overflows. *)
Theorem encodeBase58Ripple_writes_base58 (data : list Z) (strLen len : Z) (s : string) :
  Forall isByte data -> Z.of_nat (length data) * 138 < 2 ^ 64 ->
  encodeBase58Ripple true strLen (Some data) = Returned (len, Some s) ->
  Forall isDigit (digitsOf s)
  /\ valueOf 58 (digitsOf s) = valueOf 256 data
  /\ leadingZeros (digitsOf s) = leadingZeros data
  /\ len = Z.of_nat (String.length s) + 1
  /\ len <= strLen.
Proof.
  intros Hb Hn He.
  destruct (encode_spec data Hb Hn) as (Hrun & Hd & Hf & Hz & Hv).
  rewrite Hrun in He. cbn [negb orb andb] in He.
  destruct (Z.leb_spec (Z.of_nat (String.length (encoded data)) + 1) strLen) as [Hle|Hgt];
    [|discriminate].
  injection He as <- <-. rewrite Hd. repeat split.
  - apply Forall_app. split; [apply Forall_repeat0|exact Hf].
  - rewrite valueOf_app, valueOf_repeat0, Hv. lia.
  - now apply leadingZeros_prefix.
  - exact Hle.
Qed.

Ltac bytes_ok := repeat (constructor; [unfold isByte; lia|]); try constructor.

Lemma encodeBase58Ripple_writes_base58_witness :
  Forall isDigit (digitsOf "rL7v")
  /\ valueOf 58 (digitsOf "rL7v") = valueOf 256 [0; 255; 255]
  /\ leadingZeros (digitsOf "rL7v") = leadingZeros [0; 255; 255]
  /\ 5 = Z.of_nat (String.length "rL7v") + 1
  /\ 5 <= 8.
Proof.
  apply (encodeBase58Ripple_writes_base58 [0; 255; 255] 8 5 "rL7v").
  - bytes_ok.
  - vm_compute. reflexivity.
  - vm_compute. reflexivity.
Defined.

(** X15.  [encodeBase58Ripple] is injective: two arrays of bytes for which
    it writes the same string are the same array. *)
Theorem encodeBase58Ripple_injective (d1 d2 : list Z) (n1 n2 l1 l2 : Z) (s : string) :
  Forall isByte d1 -> Z.of_nat (length d1) * 138 < 2 ^ 64 ->
  Forall isByte d2 -> Z.of_nat (length d2) * 138 < 2 ^ 64 ->
  encodeBase58Ripple true n1 (Some d1) = Returned (l1, Some s) ->
  encodeBase58Ripple true n2 (Some d2) = Returned (l2, Some s) ->
  d1 = d2 /\ l1 = l2.
Proof.
  intros Hb1 Hn1 Hb2 Hn2 He1 He2.
  destruct (encode_spec d1 Hb1 Hn1) as (Hrun1 & _).
  destruct (encode_spec d2 Hb2 Hn2) as (Hrun2 & _).
  rewrite Hrun1 in He1. rewrite Hrun2 in He2. cbn [negb orb andb] in He1, He2.
  destruct (_ <=? n1); [|discriminate]. destruct (_ <=? n2); [|discriminate].
  injection He1 as <- E1. injection He2 as <- E2.
  assert (d1 = d2) by (apply encoded_inj; try assumption; congruence).
  subst d2. split; reflexivity.
Qed.

Lemma encodeBase58Ripple_injective_witness :
  [0; 255; 255] = [0; 255; 255] /\ 5 = 5.
Proof.
  apply (encodeBase58Ripple_injective [0; 255; 255] [0; 255; 255] 8 5 5 5 "rL7v").
  - bytes_ok.
  - vm_compute. reflexivity.
  - bytes_ok.
  - vm_compute. reflexivity.
  - vm_compute. reflexivity.
  - vm_compute. reflexivity.
Defined.

(** X16.  The value of [encodeBase58Ripple]: without an output buffer it
    returns the size needed, the length of the string plus the terminator,
    and writes nothing; with a buffer of at least that size it writes the
    string and returns the same size; with a smaller buffer it writes
    nothing and returns 0.  A [NULL] data pointer fails the assertion. *)
Theorem encodeBase58Ripple_length_protocol (data : list Z) :
  Forall isByte data -> Z.of_nat (length data) * 138 < 2 ^ 64 ->
  exists len s,
    len = Z.of_nat (String.length s) + 1
    /\ (forall strLen, encodeBase58Ripple false strLen (Some data) = Returned (len, None))
    /\ (forall strLen, len <= strLen ->
          encodeBase58Ripple true strLen (Some data) = Returned (len, Some s))
    /\ (forall strLen, strLen < len ->
          encodeBase58Ripple true strLen (Some data) = Returned (0, None))
    /\ (forall str strLen, encodeBase58Ripple str strLen None = AssertionFailed).
Proof.
  intros Hb Hn.
  destruct (encode_spec data Hb Hn) as (Hrun & _).
  exists (Z.of_nat (String.length (encoded data)) + 1), (encoded data).
  repeat split.
  - intros strLen. now rewrite Hrun.
  - intros strLen Hle. rewrite Hrun. cbn [negb orb andb].
    destruct (Z.leb_spec (Z.of_nat (String.length (encoded data)) + 1) strLen); [reflexivity|lia].
  - intros strLen Hlt. rewrite Hrun. cbn [negb orb andb].
    destruct (Z.leb_spec (Z.of_nat (String.length (encoded data)) + 1) strLen); [lia|reflexivity].
Qed.

Lemma encodeBase58Ripple_length_protocol_witness :
  exists len s,
    len = Z.of_nat (String.length s) + 1
    /\ (forall strLen, encodeBase58Ripple false strLen (Some [0; 255; 255]) = Returned (len, None))
    /\ (forall strLen, len <= strLen ->
          encodeBase58Ripple true strLen (Some [0; 255; 255]) = Returned (len, Some s))
    /\ (forall strLen, strLen < len ->
          encodeBase58Ripple true strLen (Some [0; 255; 255]) = Returned (0, None))
    /\ (forall str strLen, encodeBase58Ripple str strLen None = AssertionFailed).
Proof.
  apply (encodeBase58Ripple_length_protocol [0; 255; 255]).
  - bytes_ok.
  - vm_compute. reflexivity.
Defined.

(** *** Addresses *)

Lemma address_pow_bound z : 1 <= z <= 25 -> 256 ^ (25 - z) <= 58 ^ (34 - z).
Proof.
  intros Hz.
  assert (H : forallb (fun z => 256 ^ (25 - z) <=? 58 ^ (34 - z)) (map Z.of_nat (seq 1 25)) = true)
    by (vm_compute; reflexivity).
  rewrite forallb_forall in H.
  apply Z.leb_le, H, in_map_iff. exists (Z.to_nat z). split; [lia|].
  apply in_seq. lia.
Qed.

Lemma encoded_fits data :
  Forall isByte data -> length data = 25%nat -> (1 <= leadingZeros data)%nat ->
  (1 <= String.length (encoded data) <= 34)%nat
  /\ String.get 0 (encoded data) = Some (charAt 0).
Proof.
  intros Hb Hlen Hz.
  destruct (encode_spec data Hb ltac:(rewrite Hlen; vm_compute; reflexivity))
    as (_ & _ & Hf & Hnz & Hv).
  pose proof (leadingZeros_le data) as Hle. rewrite Hlen in Hle.
  set (z := leadingZeros data) in *.
  assert (Hsl : String.length (encoded data) = (z + length (significantDigits data))%nat).
  { unfold encoded. now rewrite length_string_of_list_ascii, length_app, repeat_length, length_map. }
  assert (Hd : Z.of_nat (length (significantDigits data)) <= 34 - Z.of_nat z).
  { apply (valueOf_length_le 58); try assumption; try lia.
    rewrite Hv. unfold z. rewrite <- valueOf_skip_zeros. fold z.
    pose proof (valueOf_bounds 256 (skipn z data) ltac:(lia) (Forall_skipn_keep _ z _ Hb)) as Hvb.
    rewrite length_skipn, Hlen in Hvb.
    pose proof (address_pow_bound (Z.of_nat z) ltac:(lia)) as Hp.
    replace (Z.of_nat (25 - z)) with (25 - Z.of_nat z) in Hvb by lia. lia. }
  split; [lia|].
  unfold encoded. fold z. destruct z as [|z']; [lia|]. reflexivity.
Qed.

Lemma memcmp_zero_iff n : forall s1 s2,
  length s1 = n -> length s2 = n -> (memcmp s1 s2 n = 0 <-> s1 = s2).
Proof.
  induction n as [|n IH]; intros [|x s1] [|y s2] H1 H2; try discriminate.
  - split; reflexivity.
  - injection H1 as H1. injection H2 as H2. cbn [memcmp].
    destruct (Z.eqb_spec x y) as [->|Hne].
    + rewrite (IH s1 s2 H1 H2). split; congruence.
    + split; [|congruence]. intros H. exfalso.
      destruct (Z.sgn_spec (x - y)) as [[? ?]|[[? ?]|[? ?]]]; lia.
Qed.

Section AddressFacts.

Variable BRSHA256_2 : list Z -> list Z.
Hypothesis hash_bytes : forall input, Forall isByte (BRSHA256_2 input).
Hypothesis hash_length : forall input, length (BRSHA256_2 input) = 32%nat.

Lemma input_spec a :
  isAddress a ->
  createRippleAddressString_input BRSHA256_2 a
  = 0 :: bytes a ++ firstn 4 (BRSHA256_2 (0 :: bytes a))
  /\ length (createRippleAddressString_input BRSHA256_2 a) = 25%nat
  /\ Forall isByte (createRippleAddressString_input BRSHA256_2 a).
Proof.
  intros [Hlen Hb]. unfold createRippleAddressString_input.
  rewrite firstn_all2 by lia. repeat split.
  - cbn [app length]. rewrite length_app, length_firstn, hash_length, Hlen. reflexivity.
  - apply Forall_app. split.
    + constructor; [unfold isByte; lia|exact Hb].
    + apply Forall_take, hash_bytes.
Qed.

Lemma address_string_spec a useChecksum :
  isAddress a ->
  createRippleAddressString BRSHA256_2 a useChecksum
  = encoded (createRippleAddressString_input BRSHA256_2 a)
  /\ (1 <= String.length (createRippleAddressString BRSHA256_2 a useChecksum) <= 34)%nat.
Proof.
  intros Ha. destruct (input_spec a Ha) as (Hin & Hlen & Hb).
  set (input := createRippleAddressString_input BRSHA256_2 a) in *.
  assert (Hz : (1 <= leadingZeros input)%nat) by (rewrite Hin; cbn [leadingZeros]; lia).
  destruct (encoded_fits input Hb Hlen Hz) as (Hfit & _).
  destruct (encode_spec input Hb ltac:(rewrite Hlen; vm_compute; reflexivity)) as (Hrun & _).
  unfold createRippleAddressString. fold input. rewrite Hrun. cbn [negb orb andb].
  destruct (Z.leb_spec (Z.of_nat (String.length (encoded input)) + 1) 35); [|lia].
  split; [reflexivity|exact Hfit].
Qed.

(** X17.  The 35 bytes that [createRippleAddressString] allows for are
    always enough: for every 20-byte account id the encoding of the 25
    bytes (type byte, id, checksum) is written, it has between 1 and 34
    characters, it starts with ['r'], and its digits have the value of the
    25 bytes. *)
Theorem createRippleAddressString_fits (address : BRRippleAddress) (useChecksum : Z) :
  isAddress address ->
  let input := createRippleAddressString_input BRSHA256_2 address in
  let s := createRippleAddressString BRSHA256_2 address useChecksum in
  encodeBase58Ripple true 35 (Some input)
  = Returned (Z.of_nat (String.length s) + 1, Some s)
  /\ (1 <= String.length s <= 34)%nat
  /\ String.get 0 s = Some "r"%char
  /\ Forall isDigit (digitsOf s)
  /\ valueOf 58 (digitsOf s) = valueOf 256 input.
Proof.
  intros Ha. destruct (input_spec address Ha) as (Hin & Hlen & Hb).
  destruct (address_string_spec address useChecksum Ha) as (Hs & Hfit).
  cbn zeta. set (input := createRippleAddressString_input BRSHA256_2 address) in *.
  assert (Hz : (1 <= leadingZeros input)%nat) by (rewrite Hin; cbn [leadingZeros]; lia).
  destruct (encoded_fits input Hb Hlen Hz) as (_ & Hr).
  destruct (encode_spec input Hb ltac:(rewrite Hlen; vm_compute; reflexivity))
    as (Hrun & Hd & Hf & Hnz & Hv).
  rewrite Hs in *. split; [|split; [|split; [|split]]].
  - rewrite Hrun. cbn [negb orb andb].
    destruct (Z.leb_spec (Z.of_nat (String.length (encoded input)) + 1) 35); [reflexivity|lia].
  - exact Hfit.
  - exact Hr.
  - rewrite Hd. apply Forall_app. split; [apply Forall_repeat0|exact Hf].
  - rewrite Hd, valueOf_app, valueOf_repeat0, Hv. lia.
Qed.

Lemma createRippleAddressString_inj a1 a2 u1 u2 :
  isAddress a1 -> isAddress a2 ->
  createRippleAddressString BRSHA256_2 a1 u1 = createRippleAddressString BRSHA256_2 a2 u2 ->
  bytes a1 = bytes a2.
Proof.
  intros Ha1 Ha2 He.
  destruct (input_spec a1 Ha1) as (Hin1 & Hlen1 & Hb1).
  destruct (input_spec a2 Ha2) as (Hin2 & Hlen2 & Hb2).
  destruct (address_string_spec a1 u1 Ha1) as (Hs1 & _).
  destruct (address_string_spec a2 u2 Ha2) as (Hs2 & _).
  rewrite Hs1, Hs2 in He.
  apply encoded_inj in He; try assumption;
    try (rewrite ?Hlen1, ?Hlen2; vm_compute; reflexivity).
  rewrite Hin1, Hin2 in He. injection He as He.
  apply app_inj_1 in He; [tauto|].
  destruct Ha1 as [-> _]. destruct Ha2 as [-> _]. reflexivity.
Qed.

(** X18.  Two addresses have the same address string exactly when
    [rippleAddressEqual] answers 1, which is exactly when their 20 bytes are
    the same; it answers 0 otherwise. *)
Theorem address_strings_equal_iff_addresses_equal
    (a1 a2 : BRRippleAddress) (u1 u2 : Z) :
  isAddress a1 -> isAddress a2 ->
  (createRippleAddressString BRSHA256_2 a1 u1 = createRippleAddressString BRSHA256_2 a2 u2
   <-> rippleAddressEqual a1 a2 = 1)
  /\ (rippleAddressEqual a1 a2 = 1 <-> a1 = a2)
  /\ (rippleAddressEqual a1 a2 = 0 <-> a1 <> a2).
Proof.
  intros Ha1 Ha2.
  assert (Heq : rippleAddressEqual a1 a2 = 1 <-> a1 = a2).
  { unfold rippleAddressEqual.
    pose proof (memcmp_zero_iff 20 (bytes a1) (bytes a2) (proj1 Ha1) (proj1 Ha2)) as Hm.
    destruct (Z.eqb_spec 0 (memcmp (bytes a1) (bytes a2) 20)) as [E|E].
    - split; [intros _|reflexivity]. symmetry in E. apply Hm in E.
      destruct a1, a2; cbn in *; congruence.
    - split; [discriminate|]. intros ->. exfalso. apply E. symmetry. now apply Hm. }
  split; [|split; [exact Heq|]].
  - rewrite Heq. split.
    + intros He. apply createRippleAddressString_inj in He; try assumption.
      destruct a1, a2; cbn in *; congruence.
    + intros ->. unfold createRippleAddressString. reflexivity.
  - rewrite <- Heq. unfold rippleAddressEqual. destruct (_ =? _); split; congruence.
Qed.

(** X19.  [rippleAccountGetAddressString] always returns the length of the
    address string plus one, a number between 2 and 35; it copies the
    string when the caller's length is at least that number and leaves the
    buffer alone otherwise.  So a call with length 0 tells the size with
    which a second call succeeds. *)
Theorem rippleAccountGetAddressString_two_calls (account : BRRippleAccountRecord) :
  isAddress (raw account) ->
  let s := createRippleAddressString BRSHA256_2 (raw account) 1 in
  let n := Z.of_nat (String.length s) + 1 in
  2 <= n <= 35
  /\ (forall length, length < n ->
        rippleAccountGetAddressString BRSHA256_2 account length = (n, None))
  /\ (forall length, n <= length ->
        rippleAccountGetAddressString BRSHA256_2 account length = (n, Some s)).
Proof.
  intros Ha. destruct (address_string_spec (raw account) 1 Ha) as (_ & Hfit).
  cbn zeta. split; [lia|]. unfold rippleAccountGetAddressString. split.
  - intros length Hl.
    destruct (Z.ltb_spec (Z.of_nat (String.length
                (createRippleAddressString BRSHA256_2 (raw account) 1))) length);
      [lia|reflexivity].
  - intros length Hl.
    destruct (Z.ltb_spec (Z.of_nat (String.length
                (createRippleAddressString BRSHA256_2 (raw account) 1))) length);
      [reflexivity|lia].
Qed.

End AddressFacts.

Lemma sampleHash_bytes input : Forall isByte (sampleHash input).
Proof.
  unfold sampleHash. generalize 32%nat. intros n.
  induction n; cbn [repeat]; constructor; [|assumption].
  unfold isByte. apply Z.mod_pos_bound. lia.
Qed.

Lemma sampleHash_length input : length (sampleHash input) = 32%nat.
Proof. apply repeat_length. Qed.

Lemma sampleAddress_isAddress : isAddress sampleAddress.
Proof. split; [reflexivity|]. cbn. bytes_ok. Qed.

Lemma createRippleAddressString_fits_witness :
  let input := createRippleAddressString_input sampleHash sampleAddress in
  let s := createRippleAddressString sampleHash sampleAddress 1 in
  encodeBase58Ripple true 35 (Some input)
  = Returned (Z.of_nat (String.length s) + 1, Some s)
  /\ (1 <= String.length s <= 34)%nat
  /\ String.get 0 s = Some "r"%char
  /\ Forall isDigit (digitsOf s)
  /\ valueOf 58 (digitsOf s) = valueOf 256 input.
Proof.
  apply (createRippleAddressString_fits sampleHash sampleHash_bytes sampleHash_length
           sampleAddress 1).
  split; [reflexivity|cbn; bytes_ok].
Defined.

Lemma address_strings_equal_iff_addresses_equal_witness :
  (createRippleAddressString sampleHash sampleAddress 1
   = createRippleAddressString sampleHash {| bytes := repeat 0 20 |} 1
   <-> rippleAddressEqual sampleAddress {| bytes := repeat 0 20 |} = 1)
  /\ (rippleAddressEqual sampleAddress {| bytes := repeat 0 20 |} = 1
      <-> sampleAddress = {| bytes := repeat 0 20 |})
  /\ (rippleAddressEqual sampleAddress {| bytes := repeat 0 20 |} = 0
      <-> sampleAddress <> {| bytes := repeat 0 20 |}).
Proof.
  apply (address_strings_equal_iff_addresses_equal sampleHash sampleHash_bytes
           sampleHash_length sampleAddress {| bytes := repeat 0 20 |} 1 1).
  - split; [reflexivity|cbn; bytes_ok].
  - split; [reflexivity|cbn; bytes_ok].
Defined.

Lemma rippleAccountGetAddressString_two_calls_witness :
  let account := {| raw := sampleAddress; publicKey := sampleKey; index := 0;
                    sequence := 1; lastLedgerSequence := 0 |} in
  let s := createRippleAddressString sampleHash (raw account) 1 in
  let n := Z.of_nat (String.length s) + 1 in
  2 <= n <= 35
  /\ (forall length, length < n ->
        rippleAccountGetAddressString sampleHash account length = (n, None))
  /\ (forall length, n <= length ->
        rippleAccountGetAddressString sampleHash account length = (n, Some s)).
Proof.
  apply (rippleAccountGetAddressString_two_calls sampleHash sampleHash_bytes
           sampleHash_length
           {| raw := sampleAddress; publicKey := sampleKey; index := 0;
              sequence := 1; lastLedgerSequence := 0 |}).
  split; [reflexivity|cbn; bytes_ok].
Defined.

(** *** Keys and accounts *)

Lemma is_paper_key_spec paperKey :
  (is_paper_key paperKey = 1 <-> In " "%char (String.list_ascii_of_string paperKey))
  /\ (is_paper_key paperKey = 0 <-> ~ In " "%char (String.list_ascii_of_string paperKey)).
Proof.
  induction paperKey as [|c rest [IH1 IH0]]; cbn [is_paper_key String.list_ascii_of_string].
  - split; [split; [discriminate|intros []]|split; [intros _ []|reflexivity]].
  - destruct (Ascii.eqb_spec c " "%char) as [->|Hne].
    + split; [split; [intros _; now left|reflexivity]|].
      split; [discriminate|intros H; exfalso; apply H; now left].
    + rewrite IH1, IH0. cbn [In]. intuition.
Qed.

Section KeyFacts.

Variable DEBUG : bool.
Variable BIP32_HARD : Z.
Variable BRBIP39DeriveKey : string -> UInt512.
Variable BRBIP32PrivKeyPath : UInt512 -> list Z -> BRKey.
Variable BRKeySetPrivKey : string -> BRKey.

(** X20.  The loop of [getKey] finds 1 exactly when the string holds a
    space.  In a release build, and in a debug build for a string with a
    space, the key is the one derived from the BIP-39 seed on the path
    44'/144'/0'/0/0, marked uncompressed; in a debug build a string without
    a space is taken for a private key. *)
Theorem getKey_takes_a_key_with_a_space_for_a_paper_key (paperKey : string) :
  let hasSpace := In " "%char (String.list_ascii_of_string paperKey) in
  let key := getKey DEBUG BIP32_HARD BRBIP39DeriveKey BRBIP32PrivKeyPath BRKeySetPrivKey
               paperKey in
  (is_paper_key paperKey = 1 <-> hasSpace)
  /\ (is_paper_key paperKey = 0 <-> ~ hasSpace)
  /\ (DEBUG = false \/ hasSpace ->
      key = deriveRippleKeyFromSeed BIP32_HARD BRBIP32PrivKeyPath
              (getSeed BRBIP39DeriveKey paperKey) 0
      /\ compressed key = 0)
  /\ (DEBUG = true -> ~ hasSpace -> key = BRKeySetPrivKey paperKey).
Proof.
  destruct (is_paper_key_spec paperKey) as [H1 H0].
  cbn zeta. split; [exact H1|]. split; [exact H0|].
  unfold getKey. split.
  - intros [->|Hs].
    + split; reflexivity.
    + apply H1 in Hs. rewrite Hs. destruct DEBUG; split; reflexivity.
  - intros -> Hs. apply H0 in Hs. rewrite Hs. reflexivity.
Qed.

End KeyFacts.

Section AccountFacts.

Variable DEBUG : bool.
Variable BIP32_HARD : Z.
Variable BRBIP39DeriveKey : string -> UInt512.
Variable BRBIP32PrivKeyPath : UInt512 -> list Z -> BRKey.
Variable BRKeySetPrivKey : string -> BRKey.
Variable UINT256_ZERO : UInt256.
Variable sizeof_pubKey : nat.
Variable BRKeyPubKey : BRKey -> Z -> BRKey * list Z.
Variable BRKeyHash160 : BRKey -> list Z.

(** X21.  An account made by [createAccountObject] holds no secret: the
    key it stores has the secret [UINT256_ZERO] and is marked compressed,
    the sequence numbers start at 0, and [rippleAccountGetPublicKey] finds
    nothing to erase.  The [compressed] flag of the key given does not
    matter.  [rippleAccountCreateWithSeed] and [rippleAccountCreate] make
    the account of the derived key, and agree on a paper key. *)
Theorem created_account_holds_no_secret (key : BRKey) (paperKey : string) (seed : UInt512) :
  let create := createAccountObject UINT256_ZERO sizeof_pubKey BRKeyPubKey BRKeyHash160 in
  let account := rippleAccountCreateWithKey UINT256_ZERO sizeof_pubKey BRKeyPubKey
                   BRKeyHash160 key in
  secret (publicKey account) = UINT256_ZERO
  /\ compressed (publicKey account) = 1
  /\ sequence account = 0
  /\ lastLedgerSequence account = 0
  /\ rippleAccountGetPublicKey UINT256_ZERO account = (publicKey account, account)
  /\ (forall c,
        rippleAccountCreateWithKey UINT256_ZERO sizeof_pubKey BRKeyPubKey BRKeyHash160
          {| secret := secret key; pubKey := pubKey key; compressed := c |} = account)
  /\ rippleAccountCreateWithSeed BIP32_HARD BRBIP32PrivKeyPath UINT256_ZERO sizeof_pubKey
       BRKeyPubKey BRKeyHash160 seed
     = create (deriveRippleKeyFromSeed BIP32_HARD BRBIP32PrivKeyPath seed 0)
  /\ rippleAccountCreate DEBUG BIP32_HARD BRBIP39DeriveKey BRBIP32PrivKeyPath BRKeySetPrivKey
       UINT256_ZERO sizeof_pubKey BRKeyPubKey BRKeyHash160 paperKey
     = create (getKey DEBUG BIP32_HARD BRBIP39DeriveKey BRBIP32PrivKeyPath BRKeySetPrivKey
                 paperKey)
  /\ (DEBUG = false \/ In " "%char (String.list_ascii_of_string paperKey) ->
      rippleAccountCreate DEBUG BIP32_HARD BRBIP39DeriveKey BRBIP32PrivKeyPath BRKeySetPrivKey
        UINT256_ZERO sizeof_pubKey BRKeyPubKey BRKeyHash160 paperKey
      = rippleAccountCreateWithSeed BIP32_HARD BRBIP32PrivKeyPath UINT256_ZERO sizeof_pubKey
          BRKeyPubKey BRKeyHash160 (getSeed BRBIP39DeriveKey paperKey)).
Proof.
  cbn zeta. unfold rippleAccountCreateWithKey, rippleAccountCreateWithSeed,
    rippleAccountCreate, createAccountObject.
  cbn [secret pubKey compressed].
  destruct (BRKeyPubKey {| secret := secret key; pubKey := pubKey key; compressed := 1 |} 33)
    as [tmpKey pubkey] eqn:E.
  repeat split.
  intros Hp. unfold getKey.
  destruct Hp as [->|Hs]; [reflexivity|].
  destruct (is_paper_key_spec paperKey) as [H1 _].
  apply H1 in Hs. rewrite Hs. destruct DEBUG; reflexivity.
Qed.

End AccountFacts.

(** *** Signing one transaction after the other *)

Lemma signedCount_cons {T} (s : option T) l :
  signedCount (s :: l) = (match s with Some _ => 1 | None => 0 end) + signedCount l.
Proof. unfold signedCount. cbn [List.filter]. destruct s; cbn [length]; lia. Qed.

Lemma signedCount_bounds {T} (l : list (option T)) :
  0 <= signedCount l <= Z.of_nat (length l).
Proof.
  induction l as [|s l IH]; [unfold signedCount; cbn; lia|].
  rewrite signedCount_cons. cbn [length]. rewrite Nat2Z.inj_succ. destruct s; lia.
Qed.

Section SigningInARowFacts.

Variable DEBUG : bool.
Variable BIP32_HARD : Z.
Variable BRBIP39DeriveKey : string -> UInt512.
Variable BRBIP32PrivKeyPath : UInt512 -> list Z -> BRKey.
Variable BRKeySetPrivKey : string -> BRKey.
Variables Transaction Serialized : Type.
Variable rippleTransactionSerializeAndSign :
  Transaction -> BRKey -> BRKey -> Z -> Z -> Signing Transaction Serialized.

Hypothesis signer_leaves_publicKey : forall t k pk s l,
  publicKeyAfter (rippleTransactionSerializeAndSign t k pk s l) = pk.

(** X22.  Transactions signed one after the other: the [k]-th is handed to
    the signer with the account's first sequence number plus the number of
    transactions signed before it, so the signed ones carry consecutive
    numbers and a refused one uses none up; at the end the sequence has
    advanced by the number signed and nothing else in the account has
    changed. *)
Theorem signInARow_numbers_the_signed_transactions (ts : list Transaction) :
  forall (account : BRRippleAccountRecord) (paperKey : string),
  0 <= sequence account ->
  sequence account + Z.of_nat (length ts) < 4294967296 ->
  exists results account',
    signInARow DEBUG BIP32_HARD BRBIP39DeriveKey BRBIP32PrivKeyPath BRKeySetPrivKey
      Transaction Serialized rippleTransactionSerializeAndSign account ts paperKey
    = Returned (results, account')
    /\ length results = length ts
    /\ sequence account' = sequence account + signedCount results
    /\ raw account' = raw account
    /\ publicKey account' = publicKey account
    /\ index account' = index account
    /\ lastLedgerSequence account' = lastLedgerSequence account
    /\ (forall k t,
          nth_error ts k = Some t ->
          nth_error results k
          = Some (signedBytes
                    (rippleTransactionSerializeAndSign t
                       (getKey DEBUG BIP32_HARD BRBIP39DeriveKey BRBIP32PrivKeyPath
                          BRKeySetPrivKey paperKey)
                       (publicKey account)
                       (sequence account + signedCount (firstn k results))
                       (lastLedgerSequence account)))).
Proof.
  induction ts as [|t ts IH]; intros account paperKey H0 Hlt.
  - exists [], account. cbn [signInARow].
    splits; try reflexivity; try (unfold signedCount; cbn; lia).
    intros [|k] t Hk; discriminate.
  - cbn [signInARow]. unfold rippleAccountSignTransaction.
    set (key := getKey DEBUG BIP32_HARD BRBIP39DeriveKey BRBIP32PrivKeyPath
                  BRKeySetPrivKey paperKey) in *.
    set (s := rippleTransactionSerializeAndSign t key (publicKey account)
                (sequence account) (lastLedgerSequence account)).
    cbn [length] in Hlt. rewrite Nat2Z.inj_succ in Hlt.
    cbn [raw publicKey index sequence lastLedgerSequence].
    assert (Hpk : publicKeyAfter s = publicKey account) by apply signer_leaves_publicKey.
    rewrite Hpk.
    assert (Hu : uint32 (sequence account + 1) = sequence account + 1)
      by (unfold uint32; rewrite Z.mod_small; lia).
    rewrite Hu.
    destruct (signedBytes s) as [bytes|] eqn:Es.
    + match goal with
      | |- context [signInARow _ _ _ _ _ _ _ _ ?a ts paperKey] =>
          destruct (IH a paperKey)
            as (results & a' & Hrun & Hlen & Hseq & Hraw & Hpub & Hidx & Hlls & Hk)
      end.
      { cbn. lia. }
      { cbn. lia. }
      cbn [raw publicKey index sequence lastLedgerSequence] in *.
      rewrite Hrun. exists (Some bytes :: results), a'.
      split; [reflexivity|]. rewrite signedCount_cons. cbn [length].
      splits; try congruence; try lia.
      intros [|k] t' Ht'; cbn [nth_error firstn] in *.
      * injection Ht' as <-. change (signedCount []) with 0.
        rewrite Z.add_0_r. fold s. congruence.
      * rewrite (Hk k t' Ht'), signedCount_cons. do 3 f_equal. lia.
    + match goal with
      | |- context [signInARow _ _ _ _ _ _ _ _ ?a ts paperKey] =>
          destruct (IH a paperKey)
            as (results & a' & Hrun & Hlen & Hseq & Hraw & Hpub & Hidx & Hlls & Hk)
      end.
      { cbn. lia. }
      { cbn. lia. }
      cbn [raw publicKey index sequence lastLedgerSequence] in *.
      rewrite Hrun. exists (None :: results), a'.
      split; [reflexivity|]. rewrite signedCount_cons. cbn [length].
      splits; try congruence; try lia.
      intros [|k] t' Ht'; cbn [nth_error firstn] in *.
      * injection Ht' as <-. change (signedCount []) with 0.
        rewrite Z.add_0_r. fold s. congruence.
      * rewrite (Hk k t' Ht'), signedCount_cons. do 3 f_equal.
Qed.

End SigningInARowFacts.

Lemma signInARow_numbers_the_signed_transactions_witness :
  let account := {| raw := sampleAddress; publicKey := sampleKey; index := 0;
                    sequence := 99; lastLedgerSequence := 100 |} in
  exists results account',
    signInARow true 2147483648 (fun _ => 0) (fun _ _ => sampleKey) (fun _ => sampleKey)
      unit (list Z) sampleSigner account [tt; tt; tt] "paper key"
    = Returned (results, account')
    /\ length results = 3%nat
    /\ sequence account' = 99 + signedCount results
    /\ raw account' = sampleAddress
    /\ publicKey account' = sampleKey
    /\ index account' = 0
    /\ lastLedgerSequence account' = 100
    /\ (forall k t,
          nth_error [tt; tt; tt] k = Some t ->
          nth_error results k
          = Some (signedBytes
                    (sampleSigner t
                       (getKey true 2147483648 (fun _ => 0) (fun _ _ => sampleKey)
                          (fun _ => sampleKey) "paper key")
                       sampleKey
                       (99 + signedCount (firstn k results))
                       100))).
Proof.
  apply (signInARow_numbers_the_signed_transactions true 2147483648 (fun _ => 0)
           (fun _ _ => sampleKey) (fun _ => sampleKey) unit (list Z) sampleSigner
           (fun _ _ _ _ _ => eq_refl) [tt; tt; tt]
           {| raw := sampleAddress; publicKey := sampleKey; index := 0;
              sequence := 99; lastLedgerSequence := 100 |} "paper key").
  - vm_compute. discriminate.
  - vm_compute. reflexivity.
Defined.

Lemma getKey_takes_a_key_with_a_space_for_a_paper_key_witness :
  let getKey' := getKey true 2147483648 (fun _ => 0) (fun _ _ => sampleKey)
                   (fun _ => {| secret := 9; pubKey := []; compressed := 1 |}) in
  getKey' "abandon ability able"
  = deriveRippleKeyFromSeed 2147483648 (fun _ _ => sampleKey) 0 0
  /\ compressed (getKey' "abandon ability able") = 0
  /\ getKey' "snoPBrXtMeMyMHUVTgbuqAfg1SUTb"
     = {| secret := 9; pubKey := []; compressed := 1 |}.
Proof.
  destruct (getKey_takes_a_key_with_a_space_for_a_paper_key true 2147483648 (fun _ => 0)
              (fun _ _ => sampleKey)
              (fun _ => {| secret := 9; pubKey := []; compressed := 1 |})
              "abandon ability able") as (H1 & _ & Hd & _).
  destruct (getKey_takes_a_key_with_a_space_for_a_paper_key true 2147483648 (fun _ => 0)
              (fun _ _ => sampleKey)
              (fun _ => {| secret := 9; pubKey := []; compressed := 1 |})
              "snoPBrXtMeMyMHUVTgbuqAfg1SUTb") as (_ & H0 & _ & Hp).
  destruct Hd as [Hk Hc]; [right; apply H1; reflexivity|].
  split; [exact Hk|]. split; [exact Hc|].
  apply Hp; [reflexivity|]. apply H0. reflexivity.
Defined.

Lemma created_account_holds_no_secret_witness :
  let pubKeyOf (k : BRKey) (n : Z) := (k, repeat (secret k + 1) 33) in
  let hashOf (k : BRKey) := repeat (compressed k) 20 in
  let account := rippleAccountCreateWithKey 0 65 pubKeyOf hashOf sampleKey in
  secret (publicKey account) = 0
  /\ compressed (publicKey account) = 1
  /\ sequence account = 0
  /\ lastLedgerSequence account = 0
  /\ rippleAccountGetPublicKey 0 account = (publicKey account, account)
  /\ rippleAccountCreateWithKey 0 65 pubKeyOf hashOf
       {| secret := 7; pubKey := [2; 3]; compressed := 0 |} = account.
Proof.
  destruct (created_account_holds_no_secret true 2147483648 (fun _ => 0)
              (fun _ _ => sampleKey) (fun _ => sampleKey) 0 65%nat
              (fun k _ => (k, repeat (secret k + 1) 33))
              (fun k => repeat (compressed k) 20)
              sampleKey "abandon ability able" 0)
    as (H1 & H2 & H3 & H4 & H5 & H6 & _).
  cbn zeta. split; [exact H1|]. split; [exact H2|]. split; [exact H3|].
  split; [exact H4|]. split; [exact H5|]. exact (H6 0).
Defined.

End RippleFacts.
